(** * Offline export of a song to an audio file: [DiskWriterDriver.cpp]

    A shallow embedding of [H2Core::diskWriterDriver_thread], the worker that
    walks the song's pattern columns, pulls audio from the engine in chunks,
    clips and interleaves the two channels and hands the frames to
    libsndfile, together with the properties of it that the design notes
    state.

    C++ [int] and [unsigned] values are integers of [Z] with the conversions
    between them written out; [float] and [double] values are IEEE 754
    binary32 and binary64 numbers ([spec_float] with the operations of
    [SpecFloat] at precision 24 and 53); the effects of the thread (events
    pushed on the queue, calls into the engine and into libsndfile, log
    lines) are recorded in order by a small monad. *)

From Stdlib Require Import ZArith List String Ascii Bool Lia Reals Lra SpecFloat.
From stdpp Require Import list.

Local Open Scope Z_scope.

(** ** Machine integers *)

Definition UINT_MAX : Z := 4294967295.
Definition INT_MAX : Z := 2147483647.
Definition INT_MIN : Z := -2147483648.

(** Conversion to [unsigned]: reduction modulo 2^32. *)
Definition to_unsigned (z : Z) : Z := z mod 4294967296.

(** Conversion to [int]: the value congruent modulo 2^32 in the [int] range. *)
Definition to_int (z : Z) : Z := (z + 2147483648) mod 4294967296 - 2147483648.

(** ** Floating point *)

Module Float.

(** [float]: binary32. *)
Definition float : Type := spec_float.
(** [double]: binary64. *)
Definition double : Type := spec_float.

Definition prec32 : Z := 24.
Definition emax32 : Z := 128.
Definition prec64 : Z := 53.
Definition emax64 : Z := 1024.

(** Conversion of an integer to [float], rounding to nearest even. *)
Definition of_int (z : Z) : float := binary_normalize prec32 emax32 z 0 false.

(** Conversion of an integer to [double]. *)
Definition double_of_int (z : Z) : double := binary_normalize prec64 emax64 z 0 false.

Definition mul (x y : float) : float := SFmul prec32 emax32 x y.
Definition div (x y : float) : float := SFdiv prec32 emax32 x y.
Definition dmul (x y : double) : double := SFmul prec64 emax64 x y.

(** Promotion of a [float] to [double]: the same number, written with a
    mantissa of 53 bits. *)
Definition to_double (x : float) : double :=
  match x with
  | S754_finite s m e => binary_round prec64 emax64 s m e
  | _ => x
  end.

(** Conversion of a [double] to [float], rounding to nearest even. *)
Definition of_double (x : double) : float :=
  match x with
  | S754_finite s m e => binary_round prec32 emax32 s m e
  | _ => x
  end.

(** [x < y] and [x > y] on floats: false as soon as one side is a NaN. *)
Definition ltb (x y : spec_float) : bool := SFltb x y.
Definition gtb (x y : spec_float) : bool := SFltb y x.
Definition leb (x y : spec_float) : bool := SFleb x y.

(** The integral part of a floating-point number, towards zero; nothing for
    an infinity or a NaN. *)
Definition trunc (x : spec_float) : option Z :=
  match x with
  | S754_zero _ => Some 0
  | S754_finite s m e =>
      Some (cond_Zopp s (if 0 <=? e then Zpos m * 2 ^ e else Zpos m / 2 ^ (- e)))
  | _ => None
  end.

(** Conversion of a floating-point value to [unsigned]: the fractional part
    is dropped; the behaviour is undefined ([None]) when the integral part
    is not a value of the type. *)
Definition to_unsigned (x : spec_float) : option Z :=
  match trunc x with
  | Some z => if (0 <=? z) && (z <=? UINT_MAX) then Some z else None
  | None => None
  end.

(** Conversion of a floating-point value to [int], with the same rule. *)
Definition to_int (x : spec_float) : option Z :=
  match trunc x with
  | Some z => if (INT_MIN <=? z) && (z <=? INT_MAX) then Some z else None
  | None => None
  end.

(** The real number a finite floating-point value stands for (0 for the
    others). *)
Definition to_R (x : spec_float) : R :=
  match x with
  | S754_finite s m e => IZR (cond_Zopp s (Zpos m)) * powerRZ 2 e
  | _ => 0%R
  end.

Definition is_finite (x : spec_float) : bool :=
  match x with
  | S754_zero _ | S754_finite _ _ _ => true
  | _ => false
  end.

End Float.

(** ** The format selector (lines 72-104) *)

(** [QString::endsWith], case sensitive. *)
Definition endsWith (s suffix : string) : bool :=
  let n := String.length s in
  let k := String.length suffix in
  (k <=? n)%nat && String.eqb (substring (n - k) k s) suffix.

(** libsndfile's major formats and subtypes ([sndfile.h]). *)
Definition SF_FORMAT_WAV : Z := 0x010000.
Definition SF_FORMAT_AIFF : Z := 0x020000.
Definition SF_FORMAT_FLAC : Z := 0x170000.
Definition SF_FORMAT_OGG : Z := 0x200000.
Definition SF_FORMAT_PCM_S8 : Z := 0x0001.
Definition SF_FORMAT_PCM_16 : Z := 0x0002.
Definition SF_FORMAT_PCM_24 : Z := 0x0003.
Definition SF_FORMAT_PCM_32 : Z := 0x0004.
Definition SF_FORMAT_PCM_U8 : Z := 0x0005.
Definition SF_FORMAT_VORBIS : Z := 0x0060.
Definition SF_FORMAT_SUBMASK : Z := 0x0000FFFF.
Definition SF_FORMAT_TYPEMASK : Z := 0x0FFF0000.

(** [soundInfo.format] as the thread computes it from the file name and the
    sample depth. *)
Definition soundInfo_format (m_sFilename : string) (m_nSampleDepth : Z) : Z :=
  let sfformat := 0x010000 in
  let bits := 0x0002 in
  let sfformat :=
    if endsWith m_sFilename ".aiff" || endsWith m_sFilename ".AIFF"
    then 0x020000 else sfformat in
  let sfformat :=
    if endsWith m_sFilename ".flac" || endsWith m_sFilename ".FLAC"
    then 0x170000 else sfformat in
  let bits :=
    if (m_nSampleDepth =? 8)
       && (endsWith m_sFilename ".aiff" || endsWith m_sFilename ".AIFF")
    then 0x0001 else bits in
  let bits :=
    if (m_nSampleDepth =? 8)
       && (endsWith m_sFilename ".wav" || endsWith m_sFilename ".WAV")
    then 0x0005 else bits in
  let bits := if m_nSampleDepth =? 16 then 0x0002 else bits in
  let bits := if m_nSampleDepth =? 24 then 0x0003 else bits in
  let bits := if m_nSampleDepth =? 32 then 0x0004 else bits in
  let format := Z.lor sfformat bits in
  if endsWith m_sFilename ".ogg" || endsWith m_sFilename ".OGG"
  then Z.lor SF_FORMAT_OGG SF_FORMAT_VORBIS
  else format.

Inductive container := WAV | AIFF | FLAC | OGG.
Inductive encoding := PCM_S8 | PCM_16 | PCM_24 | PCM_32 | PCM_U8 | VORBIS.

(** Reading a libsndfile format word back: its major format and subtype. *)
Definition container_of (format : Z) : option container :=
  let t := Z.land format SF_FORMAT_TYPEMASK in
  if t =? SF_FORMAT_WAV then Some WAV
  else if t =? SF_FORMAT_AIFF then Some AIFF
  else if t =? SF_FORMAT_FLAC then Some FLAC
  else if t =? SF_FORMAT_OGG then Some OGG
  else None.

Definition encoding_of (format : Z) : option encoding :=
  let b := Z.land format SF_FORMAT_SUBMASK in
  if b =? SF_FORMAT_PCM_S8 then Some PCM_S8
  else if b =? SF_FORMAT_PCM_16 then Some PCM_16
  else if b =? SF_FORMAT_PCM_24 then Some PCM_24
  else if b =? SF_FORMAT_PCM_32 then Some PCM_32
  else if b =? SF_FORMAT_PCM_U8 then Some PCM_U8
  else if b =? SF_FORMAT_VORBIS then Some VORBIS
  else None.

(** The format selector: the pair the thread's format word stands for. *)
Definition format_selector (m_sFilename : string) (m_nSampleDepth : Z)
  : option container * option encoding :=
  let f := soundInfo_format m_sFilename m_nSampleDepth in
  (container_of f, encoding_of f).

(** ** The song, the driver and their surroundings *)

(** A column of the song: the lengths, in ticks, of the patterns it holds. *)
Definition PatternList : Type := list Z.

(** Modelled from the spec: [PatternList::longest_pattern_length] is not
    part of the sources; the design notes give it as the length of the
    longest pattern of the group. *)
Definition longest_pattern_length (pColumn : PatternList) : Z :=
  match pColumn with
  | [] => -1
  | p :: ps => fold_left Z.max ps p
  end.

Record Song := {
  patternGroupVector : list PatternList;
  getResolution : Z;
  (** [AudioEngine::getBpmAtColumn]: the tempo at each column. *)
  getBpmAtColumn : Z -> Float.float
}.

(** Modelled from the spec: [AudioEngine::computeTickSize] is not part of
    the sources; the design notes give it as
    [sampleRate * 60 / (bpm * resolution)], a floating-point value. *)
Definition computeTickSize (nSampleRate : Z) (fBpm : Float.float) (nResolution : Z)
  : Float.float :=
  Float.div (Float.mul (Float.of_int nSampleRate) (Float.of_int 60))
            (Float.mul fBpm (Float.of_int nResolution)).

Record DiskWriterDriver := {
  m_nSampleRate : Z;
  m_sFilename : string;
  m_nBufferSize : Z;
  m_nSampleDepth : Z
}.

Record SF_INFO := {
  samplerate : Z;
  channels : Z;
  format : Z
}.

(** An open libsndfile handle; [option SNDFILE] is a [SNDFILE*], [None] the
    null pointer. *)
Definition SNDFILE : Type := nat.

(** What the thread calls and does not define: the macro [MAX_NOTES], the
    audio engine behind [m_processCallback] (which fills the driver's two
    channel buffers [m_pOut_L] and [m_pOut_R]), the contents of freshly
    allocated memory, and libsndfile over the file system. *)
Record Env := {
  MAX_NOTES : Z;
  Engine : Type;
  play : Engine -> Engine;
  processCallback : Z -> Engine -> Z * Engine;
  m_pOut_L : Engine -> nat -> Float.float;
  m_pOut_R : Engine -> nat -> Float.float;
  uninitialised : nat -> Float.float;
  Files : Type;
  sf_format_check : SF_INFO -> bool;
  sf_open : string -> SF_INFO -> Files -> option SNDFILE * Files;
  sf_writef_float : option SNDFILE -> list Float.float -> Z -> Files -> Z * Files;
  sf_close : option SNDFILE -> Files -> Files
}.

(** ** Effects *)

(** What the thread does to the outside, in order. *)
Inductive event :=
| EVENT_PROGRESS (percent : Z)
| AudioEngine_play
| INFOLOG (msg : string)
| ERRORLOG (msg : string)
| Sf_open (path : string) (info : SF_INFO)
| ProcessCallback (nframes : Z)
| Sf_writef_float (file : option SNDFILE) (data : list Float.float) (frames : Z)
| Sf_close (file : option SNDFILE).

Inductive outcome (A : Type) :=
| Done (a : A)
| OutOfFuel
| Undefined.
Arguments Done {A} a.
Arguments OutOfFuel {A}.
Arguments Undefined {A}.

(** The state the thread works on: the engine and the files. *)
Record state (E F : Type) := {
  engine : E;
  files : F
}.
Arguments engine {E F} s.
Arguments files {E F} s.

Definition World (env : Env) : Type := state (Engine env) (Files env).

(** A computation of the thread: from the state of the engine and of the
    files to the events emitted, the new state and the result. *)
Definition M (env : Env) (A : Type) : Type :=
  World env -> list event * World env * outcome A.

Definition ret {env A} (a : A) : M env A := fun w => ([], w, Done a).

Definition bind {env A B} (m : M env A) (k : A -> M env B) : M env B :=
  fun w =>
    match m w with
    | (es, w', Done a) => let '(es', w'', r) := k a w' in (es ++ es', w'', r)
    | (es, w', OutOfFuel) => (es, w', OutOfFuel)
    | (es, w', Undefined) => (es, w', Undefined)
    end.

Declare Scope thread_scope.
Delimit Scope thread_scope with thread.
Notation "x <- m ;; k" := (bind m (fun x => k))
  (at level 100, m at next level, right associativity) : thread_scope.
Notation "m ;; k" := (bind m (fun _ => k))
  (at level 100, right associativity) : thread_scope.
Local Open Scope thread_scope.

Definition emit {env} (e : event) : M env unit := fun w => ([e], w, Done tt).
Definition out_of_fuel {env A} : M env A := fun w => ([], w, OutOfFuel).
Definition undefined {env A} : M env A := fun w => ([], w, Undefined).

(** A conversion whose result the language leaves undefined outside the
    range of the target type. *)
Definition defined {env A} (o : option A) : M env A :=
  match o with Some a => ret a | None => undefined end.

Definition events {env A} (r : list event * World env * outcome A) : list event :=
  fst (fst r).
Definition world {env A} (r : list event * World env * outcome A) : World env :=
  snd (fst r).
Definition result {env A} (r : list event * World env * outcome A) : outcome A :=
  snd r.

(** ** The thread (lines 54-240) *)

Section Thread.
Context {env : Env}.

Definition call_play : M env unit := fun w =>
  ([AudioEngine_play], {| engine := play env (engine w); files := files w |}, Done tt).

Definition call_processCallback (nframes : Z) : M env Z := fun w =>
  let '(r, e) := processCallback env nframes (engine w) in
  ([ProcessCallback nframes], {| engine := e; files := files w |}, Done r).

Definition call_sf_open (path : string) (info : SF_INFO) : M env (option SNDFILE) :=
  fun w =>
    let '(h, f) := sf_open env path info (files w) in
    ([Sf_open path info], {| engine := engine w; files := f |}, Done h).

(** [sf_writef_float( m_file, pData, frames )]: with two channels libsndfile
    reads the first [2 * frames] values behind [pData]. *)
Definition call_sf_writef_float (m_file : option SNDFILE) (pData : list Float.float)
    (frames : Z) : M env Z := fun w =>
  let data := take (Z.to_nat (2 * frames)) pData in
  let '(res, f) := sf_writef_float env m_file data frames (files w) in
  ([Sf_writef_float m_file data frames], {| engine := engine w; files := f |}, Done res).

Definition call_sf_close (m_file : option SNDFILE) : M env unit := fun w =>
  ([Sf_close m_file], {| engine := engine w; files := sf_close env m_file (files w) |},
   Done tt).

(** The engine as the thread sees it when it reads the channel buffers. *)
Definition get_engine : M env (Engine env) := fun w => ([], w, Done (engine w)).

(** Lines 201-209 and 211-219: one channel value, limited to [-1, 1]. *)
Definition clip (x : Float.float) : Float.float :=
  if Float.gtb x (Float.of_int 1) then Float.of_int 1
  else if Float.ltb x (Float.of_int (-1)) then Float.of_int (-1)
  else x.

(** The body of the loop of lines 200-220 at index [i]. *)
Definition condition_frame (pData_L pData_R : nat -> Float.float)
    (pData : list Float.float) (i : nat) : list Float.float :=
  let pData := <[ Z.to_nat (to_unsigned (Z.of_nat i * 2)) := clip (pData_L i) ]> pData in
  <[ Z.to_nat (to_unsigned (Z.of_nat i * 2 + 1)) := clip (pData_R i) ]> pData.

(** Lines 200-220: [for ( unsigned i = 0; i < usedBuffer; i++ )]. *)
Definition condition (pData_L pData_R : nat -> Float.float) (usedBuffer : Z)
    (pData : list Float.float) : list Float.float :=
  fold_left (condition_frame pData_L pData_R)
            (seq 0 (Z.to_nat (to_unsigned usedBuffer))) pData.

(** Lines 196-198: [while ( ret != 0 )]. *)
Fixpoint retry (fuel : nat) (usedBuffer : Z) (ret_ : Z) : M env unit :=
  if ret_ =? 0 then ret tt
  else
    match fuel with
    | O => out_of_fuel
    | S fuel' => r <- call_processCallback usedBuffer ;; retry fuel' usedBuffer r
    end.

(** Lines 195-198: the engine is asked for [usedBuffer] frames until it
    answers 0. *)
Definition pull (fuel : nat) (usedBuffer : Z) : M env unit :=
  r <- call_processCallback usedBuffer ;;
  retry fuel usedBuffer r.

(** Lines 182-189: the size of the next chunk. *)
Definition used_buffer (pDriver : DiskWriterDriver)
    (patternLengthInFrames frameNumber : Z) : Z :=
  let usedBuffer := to_int (m_nBufferSize pDriver) in
  if to_unsigned (patternLengthInFrames - frameNumber) <? m_nBufferSize pDriver
  then to_int (to_unsigned (patternLengthInFrames - frameNumber))
  else usedBuffer.

(** Lines 195-224: pulling, conditioning and writing one chunk. *)
Definition render_chunk (fuel : nat) (m_file : option SNDFILE) (usedBuffer : Z)
    (pData : list Float.float) : M env (list Float.float) :=
  pull fuel usedBuffer ;;
  e <- get_engine ;;
  let pData := condition (m_pOut_L env e) (m_pOut_R env e) usedBuffer pData in
  res <- call_sf_writef_float m_file pData usedBuffer ;;
  (if negb (to_int res =? usedBuffer)
   then emit (ERRORLOG "Error during sf_write_float") else ret tt) ;;
  ret pData.

(** Lines 180-225: [while ( frameNumber < patternLengthInFrames )]. Every
    loop of the thread may run [fuel] times. *)
Fixpoint render_chunks (fuel n : nat) (pDriver : DiskWriterDriver)
    (m_file : option SNDFILE) (patternLengthInFrames frameNumber : Z)
    (pData : list Float.float) : M env (list Float.float) :=
  if frameNumber <? patternLengthInFrames then
    match n with
    | O => out_of_fuel
    | S n' =>
        let usedBuffer := used_buffer pDriver patternLengthInFrames frameNumber in
        let frameNumber := to_unsigned (frameNumber + usedBuffer) in
        pData <- render_chunk fuel m_file usedBuffer pData ;;
        render_chunks fuel n' pDriver m_file patternLengthInFrames frameNumber pData
    end
  else ret pData.

(** Lines 165-170: the length of a column in ticks. *)
Definition pattern_size (pColumn : PatternList) : Z :=
  if negb (Z.of_nat (length pColumn) =? 0) then longest_pattern_length pColumn
  else MAX_NOTES env.

(** Lines 172-177: the length of a column in frames. *)
Definition pattern_length_in_frames (pDriver : DiskWriterDriver) (pSong : Song)
    (patternPosition : Z) (pColumn : PatternList) : option Z :=
  let nPatternSize := pattern_size pColumn in
  let fBpm := getBpmAtColumn pSong patternPosition in
  let fTicksize :=
    computeTickSize (m_nSampleRate pDriver) fBpm (getResolution pSong) in
  Float.to_unsigned (Float.mul fTicksize (Float.of_int nPatternSize)).

(** Lines 228-229: the percentage pushed after a column. *)
Definition progress_percent (patternPosition nColumns : Z) : option Z :=
  let fPercent :=
    Float.of_double
      (Float.dmul
         (Float.to_double
            (Float.div (Float.of_int (patternPosition + 1)) (Float.of_int nColumns)))
         (Float.double_of_int 100)) in
  Float.to_int fPercent.

(** Lines 163-229: the body of the loop over the columns. *)
Definition render_column (fuel : nat) (pDriver : DiskWriterDriver) (pSong : Song)
    (m_file : option SNDFILE) (nColumns patternPosition : Z)
    (pData : list Float.float) : M env (list Float.float) :=
  pColumn <- defined (patternGroupVector pSong !! Z.to_nat patternPosition) ;;
  patternLengthInFrames <-
    defined (pattern_length_in_frames pDriver pSong patternPosition pColumn) ;;
  pData <- render_chunks fuel fuel pDriver m_file patternLengthInFrames 0 pData ;;
  percent <- defined (progress_percent patternPosition nColumns) ;;
  emit (EVENT_PROGRESS percent) ;;
  ret pData.

(** Lines 162-230: [for ( patternPosition = 0; patternPosition < nColumns;
    ++patternPosition )], with [n] columns left. *)
Fixpoint render_columns (fuel : nat) (pDriver : DiskWriterDriver) (pSong : Song)
    (m_file : option SNDFILE) (nColumns : Z) (n : nat) (patternPosition : Z)
    (pData : list Float.float) : M env (list Float.float) :=
  match n with
  | O => ret pData
  | S n' =>
      pData <- render_column fuel pDriver pSong m_file nColumns patternPosition pData ;;
      render_columns fuel pDriver pSong m_file nColumns n' (patternPosition + 1) pData
  end.

(** Lines 67-104: the [SF_INFO] handed to libsndfile. *)
Definition sound_info (pDriver : DiskWriterDriver) : SF_INFO :=
  {| samplerate := to_int (m_nSampleRate pDriver);
     channels := 2;
     format := soundInfo_format (m_sFilename pDriver) (m_nSampleDepth pDriver) |}.

(** Line 147: [new float[ m_nBufferSize * 2 ]]. *)
Definition new_pData (pDriver : DiskWriterDriver) : list Float.float :=
  map (uninitialised env)
      (seq 0 (Z.to_nat (to_unsigned (m_nBufferSize pDriver * 2)))).

Definition diskWriterDriver_thread (fuel : nat) (pDriver : DiskWriterDriver)
    (pSong : Song) : M env unit :=
  emit (EVENT_PROGRESS 0) ;;
  emit (INFOLOG "DiskWriterDriver thread start") ;;
  call_play ;;
  let soundInfo := sound_info pDriver in
  if negb (sf_format_check env soundInfo) then
    emit (ERRORLOG "Error in soundInfo")
  else
    m_file <- call_sf_open (m_sFilename pDriver) soundInfo ;;
    let pData := new_pData pDriver in
    let nColumns := to_int (Z.of_nat (length (patternGroupVector pSong))) in
    render_columns fuel pDriver pSong m_file nColumns (Z.to_nat nColumns) 0 pData ;;
    call_sf_close m_file ;;
    emit (INFOLOG "DiskWriterDriver thread end").

End Thread.
Arguments diskWriterDriver_thread env fuel pDriver pSong : clear implicits.

(** ** The tables of the format selector *)

(** The tables of the design notes, read literally: the container by the
    extension whatever its case, the encoding by the depth. *)
Definition to_lower (c : ascii) : ascii :=
  let n := nat_of_ascii c in
  if (65 <=? n)%nat && (n <=? 90)%nat then ascii_of_nat (n + 32) else c.

Fixpoint lowercase (s : string) : string :=
  match s with
  | EmptyString => EmptyString
  | String c s' => String (to_lower c) (lowercase s')
  end.

Definition spec_container (filename : string) : container :=
  let f := lowercase filename in
  if endsWith f ".aiff" then AIFF
  else if endsWith f ".flac" then FLAC
  else if endsWith f ".ogg" then OGG
  else WAV.

Definition spec_encoding (filename : string) (depth : Z) : encoding :=
  match spec_container filename with
  | OGG => VORBIS
  | c =>
      if depth =? 8 then match c with AIFF => PCM_S8 | _ => PCM_U8 end
      else if depth =? 24 then PCM_24
      else if depth =? 32 then PCM_32
      else PCM_16
  end.

Definition spec_format_selector (filename : string) (depth : Z)
  : option container * option encoding :=
  (Some (spec_container filename), Some (spec_encoding filename depth)).

(** The tables as the thread applies them: an extension is recognised in
    lower case or in upper case only, and the 8-bit encodings belong to the
    extensions [.aiff] and [.wav]. *)
Definition has_extension (filename lower upper : string) : bool :=
  endsWith filename lower || endsWith filename upper.

Definition code_container (filename : string) : container :=
  if has_extension filename ".ogg" ".OGG" then OGG
  else if has_extension filename ".flac" ".FLAC" then FLAC
  else if has_extension filename ".aiff" ".AIFF" then AIFF
  else WAV.

Definition code_encoding (filename : string) (depth : Z) : encoding :=
  if has_extension filename ".ogg" ".OGG" then VORBIS
  else if depth =? 32 then PCM_32
  else if depth =? 24 then PCM_24
  else if depth =? 16 then PCM_16
  else if (depth =? 8) && has_extension filename ".wav" ".WAV" then PCM_U8
  else if (depth =? 8) && has_extension filename ".aiff" ".AIFF" then PCM_S8
  else PCM_16.

(** ** Vocabulary of the statements *)

(** The frames handed to libsndfile for a chunk of [n] frames: the two
    channels, each value limited, left before right. *)
Definition interleaved (pData_L pData_R : nat -> Float.float) (n : nat)
  : list Float.float :=
  flat_map (fun i => [clip (pData_L i); clip (pData_R i)]) (seq 0 n).

(** A driver with another sample depth. *)
Definition with_depth (pDriver : DiskWriterDriver) (depth : Z) : DiskWriterDriver :=
  {| m_nSampleRate := m_nSampleRate pDriver;
     m_sFilename := m_sFilename pDriver;
     m_nBufferSize := m_nBufferSize pDriver;
     m_nSampleDepth := depth |}.

Definition sum (l : list Z) : Z := fold_right Z.add 0 l.

(** The chunk sizes of a column of [frames] frames with buffers of [B]
    frames, in closed form. *)
Definition chunk_plan (B frames : Z) : list Z :=
  replicate (Z.to_nat (frames / B)) B
  ++ (if frames mod B =? 0 then [] else [frames mod B]).

Definition write_error : event := ERRORLOG "Error during sf_write_float".

(** The trace of one chunk of [c] frames: the engine is asked for [c] frames
    once or more, [c] frames are written, and a write error may be logged. *)
Definition chunk_trace (m_file : option SNDFILE) (c : Z) (es : list event) : Prop :=
  exists (retries : nat) (data : list Float.float) (errs : list event),
    es = replicate (S retries) (ProcessCallback c)
         ++ [Sf_writef_float m_file data c] ++ errs
    /\ (errs = [] \/ errs = [write_error]).

(** The engine answers 0 after [k] retries at most, whatever its state. *)
Definition ready_within (env : Env) (k : nat) : Prop :=
  forall n (w : World env), result (pull k n w) = Done tt.

(** What a chunk leaves behind once the engine has answered. *)
Definition chunk_written {env : Env} (m_file : option SNDFILE) (n : Z)
    (pData : list Float.float) (w1 : World env)
  : list event * World env * outcome (list Float.float) :=
  let out := condition (m_pOut_L env (engine w1)) (m_pOut_R env (engine w1)) n pData in
  let data := take (Z.to_nat (2 * n)) out in
  let res := fst (sf_writef_float env m_file data n (files w1)) in
  ([Sf_writef_float m_file data n]
     ++ (if negb (to_int res =? n) then [write_error] else []),
   {| engine := engine w1;
      files := snd (sf_writef_float env m_file data n (files w1)) |},
   Done out).

(** ** A studio to run the thread in *)

Module Scenario.

(** The engine counts the calls it got and is ready every second time; the
    channel buffers hold a ramp that leaves [-1, 1] on both sides. The disk
    has room for a number of frames; a file under [/readonly/] cannot be
    opened; libsndfile knows no 32-bit FLAC. *)
Definition studio : Env := {|
  MAX_NOTES := 192;
  Engine := nat;
  play := fun e => e;
  processCallback := fun _ e => (if Nat.even e then 1 else 0, S e);
  m_pOut_L := fun e i =>
    Float.div (Float.of_int (2 * Z.of_nat (e + i) - 5)) (Float.of_int 2);
  m_pOut_R := fun e i =>
    Float.div (Float.of_int (5 - 2 * Z.of_nat (e + i))) (Float.of_int 4);
  uninitialised := fun _ => S754_nan;
  Files := Z * list (list Float.float);
  sf_format_check := fun info =>
    (channels info =? 2) && (0 <? samplerate info)
    && negb (format info =? Z.lor SF_FORMAT_FLAC SF_FORMAT_PCM_32);
  sf_open := fun path _ f =>
    (if String.prefix "/readonly/" path then None else Some 1%nat, f);
  sf_writef_float := fun h data n f =>
    match h with
    | None => (0, f)
    | Some _ =>
        let k := Z.min n (fst f) in
        (k, (fst f - k, snd f ++ [take (Z.to_nat (2 * k)) data]))
    end;
  sf_close := fun _ f => f
|}.

(** Two columns at 120 bpm, 48 ticks per beat: one with patterns of 2 and 1
    ticks, one empty. *)
Definition song : Song := {|
  patternGroupVector := [[2; 1]; []];
  getResolution := 48;
  getBpmAtColumn := fun _ => Float.of_int 120
|}.

(** One column of two ticks. *)
Definition short_song : Song := {|
  patternGroupVector := [[2]];
  getResolution := 48;
  getBpmAtColumn := fun _ => Float.of_int 120
|}.

Definition driver (filename : string) (nBufferSize nSampleDepth : Z)
  : DiskWriterDriver := {|
  m_nSampleRate := 480;
  m_sFilename := filename;
  m_nBufferSize := nBufferSize;
  m_nSampleDepth := nSampleDepth
|}.

(** Three columns. *)
Definition three_columns : Song := {|
  patternGroupVector := [[2]; [1]; [2; 1]];
  getResolution := 48;
  getBpmAtColumn := fun _ => Float.of_int 120
|}.

(** 2^24 + 1 columns of one tick. *)
Definition many_columns : Song := {|
  patternGroupVector := replicate (Z.to_nat 16777217) [1];
  getResolution := 48;
  getBpmAtColumn := fun _ => Float.of_int 120
|}.

(** The engine untouched, [free] frames of room on the disk. *)
Definition start (free : Z) : World studio :=
  {| engine := 0%nat; files := (free, []) |}.

End Scenario.

(** The percentages pushed, the frame counts asked of the engine and the
    writes, each in the order of the trace. *)
Definition progress_events (es : list event) : list Z :=
  flat_map (fun e => match e with EVENT_PROGRESS p => [p] | _ => [] end) es.

Definition pulls (es : list event) : list Z :=
  flat_map (fun e => match e with ProcessCallback n => [n] | _ => [] end) es.

Definition writes (es : list event) : list (option SNDFILE * Z) :=
  flat_map (fun e => match e with Sf_writef_float h _ n => [(h, n)] | _ => [] end) es.

Definition is_write_error (e : event) : bool :=
  match e with
  | ERRORLOG msg => String.eqb msg "Error during sf_write_float"
  | _ => false
  end.

Definition without_write_errors (es : list event) : list event :=
  List.filter (fun e => negb (is_write_error e)) es.

(** The same surroundings with a libsndfile that always reports the whole
    chunk as written. *)
Definition always_written (env : Env) : Env := {|
  MAX_NOTES := MAX_NOTES env;
  Engine := Engine env;
  play := play env;
  processCallback := processCallback env;
  m_pOut_L := m_pOut_L env;
  m_pOut_R := m_pOut_R env;
  uninitialised := uninitialised env;
  Files := Files env;
  sf_format_check := sf_format_check env;
  sf_open := sf_open env;
  sf_writef_float := fun h data n f => (n, snd (sf_writef_float env h data n f));
  sf_close := sf_close env
|}.

(** Two runs that differ by the write errors logged only: the second logs
    none. *)
Definition sim {env : Env} {A : Type} (r : list event * World env * outcome A)
    (r' : list event * World (always_written env) * outcome A) : Prop :=
  events r' = without_write_errors (events r)
  /\ world r' = world r
  /\ result r' = result r.

(** ** Rounding *)

(** The power of two of exponent [e]. *)
Definition bpow (e : Z) : R := powerRZ 2 e.

(** [t] lies in [[m, m + 1)] at the place [l] says. *)
Definition inbetween (m : Z) (t : R) (l : location) : Prop :=
  match l with
  | loc_Exact => t = IZR m
  | loc_Inexact Lt => (IZR m < t < IZR m + 1 / 2)%R
  | loc_Inexact Eq => t = (IZR m + 1 / 2)%R
  | loc_Inexact Gt => (IZR m + 1 / 2 < t < IZR m + 1)%R
  end.

(** [z] is the integer nearest to [t], the even one of two. *)
(** ** Rounding to the nearest integer, ties to even *)

Definition rne (t : R) (z : Z) : Prop :=
  (IZR z - 1 / 2 <= t <= IZR z + 1 / 2)%R
  /\ (t = (IZR z - 1 / 2)%R \/ t = (IZR z + 1 / 2)%R -> Z.even z = true).

(** [y] lies in the binade [[2^(k-1), 2^k)]. *)
Definition mag_is (y : R) (k : Z) : Prop := (bpow (k - 1) <= y < bpow k)%R.

(** [v] is [y] rounded to the nearest number with [prec] bits, ties to even
    ([y] positive, exponents unbounded). *)
Definition rounds_to (prec : Z) (y v : R) : Prop :=
  exists k z,
    mag_is y k /\ rne (y * bpow (prec - k)) z /\ v = (IZR z * bpow (k - prec))%R.

(** [x] is a positive normal number of [prec] bits and stands for [v]. *)
Definition finite_pos (prec : Z) (x : spec_float) (v : R) : Prop :=
  exists m e,
    x = S754_finite false m e
    /\ Zpos (digits2_pos m) = prec
    /\ v = (IZR (Zpos m) * bpow e)%R.

(** The numbers whose rounding neither underflows nor overflows. *)
Definition in_range (emax : Z) (y : R) : Prop :=
  (bpow (3 - emax) <= y < bpow (emax - 1))%R.

(** Line 228: [fPercent] for the [i]-th of [N] columns. *)
Definition fPercent (i N : Z) : Float.float :=
  Float.of_double
    (Float.dmul (Float.to_double (Float.div (Float.of_int i) (Float.of_int N)))
       (Float.double_of_int 100)).

(** The value of [fPercent] for column [i] of [N], stage by stage. *)
Definition percent_value (i N : Z) (F : R) : Prop :=
  exists A B Q P,
    rounds_to Float.prec32 (IZR i) A
    /\ rounds_to Float.prec32 (IZR N) B
    /\ (1 <= A <= bpow 31)%R /\ (1 <= B <= bpow 31)%R
    /\ rounds_to Float.prec32 (A / B) Q
    /\ rounds_to Float.prec64 (Q * 100) P
    /\ rounds_to Float.prec32 P F.

(** ** Traces *)

(** The trace of one column: its chunks, then its percentage. *)
Definition column_trace (m_file : option SNDFILE) (B frames p : Z) (es : list event)
  : Prop :=
  exists ess,
    es = concat ess ++ [EVENT_PROGRESS p]
    /\ Forall2 (chunk_trace m_file) (chunk_plan B frames) ess.

(** The trace of the columns from [patternPosition] on. *)
Fixpoint columns_trace {env : Env} (pDriver : DiskWriterDriver) (pSong : Song)
    (m_file : option SNDFILE) (nColumns patternPosition : Z)
    (columns : list PatternList) (es : list event) : Prop :=
  match columns with
  | [] => es = []
  | pColumn :: rest =>
      exists frames p es1 es2,
        pattern_length_in_frames (env:=env) pDriver pSong patternPosition pColumn
        = Some frames
        /\ progress_percent patternPosition nColumns = Some p
        /\ column_trace m_file (m_nBufferSize pDriver) frames p es1
        /\ columns_trace (env:=env) pDriver pSong m_file nColumns (patternPosition + 1)
             rest es2
        /\ es = es1 ++ es2
  end.

(** Every column has a number of frames that [fuel] chunks cover. *)
Definition renderable (env : Env) (fuel : nat) (pDriver : DiskWriterDriver)
    (pSong : Song) : Prop :=
  forall (pos : nat) pColumn,
    patternGroupVector pSong !! pos = Some pColumn ->
    exists frames,
      pattern_length_in_frames (env:=env) pDriver pSong (Z.of_nat pos) pColumn
      = Some frames
      /\ frames <= Z.of_nat fuel * m_nBufferSize pDriver.

(** What a render that goes through needs. *)
Definition can_render (env : Env) (k fuel : nat) (pDriver : DiskWriterDriver)
    (pSong : Song) : Prop :=
  sf_format_check env (sound_info pDriver) = true
  /\ 0 < m_nBufferSize pDriver <= INT_MAX
  /\ Z.of_nat (length (patternGroupVector pSong)) <= INT_MAX
  /\ ready_within env k /\ (k <= fuel)%nat
  /\ renderable env fuel pDriver pSong.

(** ** Signs and the percentage of the design notes *)

(** [x] is not a negative number (it may be a zero of either sign, an
    infinity or a NaN). *)
Definition not_negative (x : spec_float) : bool :=
  match x with
  | S754_finite true _ _ => false
  | _ => true
  end.

(** The percentage of the design notes: [round(100 * i / N)], halves up. *)
Definition spec_percent (i N : Z) : Z := (200 * i + N) / (2 * N).

(** ** What a run does, step by step *)

(** [x] is neither above 1 nor below -1 (a NaN is neither). *)
Definition in_unit (x : Float.float) : bool :=
  negb (Float.gtb x (Float.of_int 1)) && negb (Float.ltb x (Float.of_int (-1))).

(** What the loop over the chunks of a column may do with a buffer of [B]
    frames and the file [m_file]: ask the engine for [B] frames at most,
    write as many frames at most to [m_file], two limited values per frame,
    and log a write error. *)
Definition chunk_event (B : Z) (m_file : option SNDFILE) (e : event) : Prop :=
  match e with
  | ProcessCallback n => 0 <= n <= B /\ (0 < B -> 0 < n)
  | Sf_writef_float h data n =>
      h = m_file /\ 0 <= n <= B /\ (0 < B -> 0 < n)
      /\ Z.of_nat (length data) = 2 * n
      /\ Forall (fun x => in_unit x = true) data
  | ERRORLOG msg => msg = "Error during sf_write_float"%string
  | _ => False
  end.

(** What the loop over the columns may do: the same, and push a
    percentage. *)
Definition loop_event (B : Z) (m_file : option SNDFILE) (e : event) : Prop :=
  match e with
  | EVENT_PROGRESS _ => True
  | _ => chunk_event B m_file e
  end.

(** The calls of a trace, by callee. *)
Definition plays (es : list event) : nat :=
  length (List.filter (fun e => match e with AudioEngine_play => true | _ => false end) es).

Definition opens (es : list event) : list (string * SF_INFO) :=
  flat_map (fun e => match e with Sf_open path info => [(path, info)] | _ => [] end) es.

Definition closes (es : list event) : list (option SNDFILE) :=
  flat_map (fun e => match e with Sf_close h => [h] | _ => [] end) es.

(** The frames of the columns of a song, in order, when each has a number
    of frames. *)
Fixpoint column_frames {env : Env} (pDriver : DiskWriterDriver) (pSong : Song)
    (patternPosition : Z) (columns : list PatternList) : option (list Z) :=
  match columns with
  | [] => Some []
  | pColumn :: rest =>
      match pattern_length_in_frames (env:=env) pDriver pSong patternPosition pColumn,
            column_frames (env:=env) pDriver pSong (patternPosition + 1) rest with
      | Some frames, Some fs => Some (frames :: fs)
      | _, _ => None
      end
  end.

(** The engine never answers 0. *)
Definition never_ready (env : Env) : Prop :=
  forall n e, fst (processCallback env n e) <> 0.

Definition is_open (e : event) : bool :=
  match e with Sf_open _ _ => true | _ => false end.
Definition is_close (e : event) : bool :=
  match e with Sf_close _ => true | _ => false end.

(** The studio with an engine that never answers 0. *)
Definition deaf_studio : Env := {|
  MAX_NOTES := MAX_NOTES Scenario.studio;
  Engine := Engine Scenario.studio;
  play := play Scenario.studio;
  processCallback := fun _ e => (1, S e);
  m_pOut_L := m_pOut_L Scenario.studio;
  m_pOut_R := m_pOut_R Scenario.studio;
  uninitialised := uninitialised Scenario.studio;
  Files := Files Scenario.studio;
  sf_format_check := sf_format_check Scenario.studio;
  sf_open := sf_open Scenario.studio;
  sf_writef_float := sf_writef_float Scenario.studio;
  sf_close := sf_close Scenario.studio
|}.

(** A song without columns. *)
Definition silence : Song := {|
  patternGroupVector := [];
  getResolution := 48;
  getBpmAtColumn := fun _ => Float.of_int 120
|}.

(** ** The driver object (lines 244-306) *)

From Stdlib Require Import DecimalString.

Module Object.

(** The free store: the arrays of [float] allocated so far, each with its
    length and whether it has been deleted. A [float*] is null ([None]) or
    the place of an array in the store. *)
Record array := {
  array_length : Z;
  deleted : bool
}.

Definition pointer : Type := option nat.

(** [new float[ n ]]. *)
Definition new_array (n : Z) (h : list array) : pointer * list (array) :=
  (Some (length h), h ++ [{| array_length := n; deleted := false |}]).

(** [delete[] p]: nothing for a null pointer; undefined ([None]) for a
    pointer that is not an array of the store, or one deleted before. *)
Definition delete_array (p : pointer) (h : list array) : option (list array) :=
  match p with
  | None => Some h
  | Some a =>
      match h !! a with
      | Some b =>
          if deleted b then None
          else Some (<[ a := {| array_length := array_length b; deleted := true |} ]> h)
      | None => None
      end
  end.

(** What the member functions do to the outside. *)
Inductive call :=
| Infolog (msg : string)
| Pthread_create.

(** The object: the members the thread reads and the two channel
    buffers. *)
Record object := {
  members : DiskWriterDriver;
  m_pOut_L : pointer;
  m_pOut_R : pointer
}.

(** The object, the free store and the calls made so far. *)
Record process := {
  this : object;
  heap : list array;
  calls : list call
}.

(** Lines 244-252: the constructor. The file name is a [QString] the
    constructor does not mention: it starts empty. *)
Definition DiskWriterDriver_DiskWriterDriver (nSamplerate nSampleDepth : Z) : object :=
  {| members := {| m_nSampleRate := nSamplerate;
                   m_sFilename := EmptyString;
                   m_nBufferSize := 0;
                   m_nSampleDepth := nSampleDepth |};
     m_pOut_L := None;
     m_pOut_R := None |}.

Definition set_m_nBufferSize (d : DiskWriterDriver) (n : Z) : DiskWriterDriver :=
  {| m_nSampleRate := m_nSampleRate d;
     m_sFilename := m_sFilename d;
     m_nBufferSize := n;
     m_nSampleDepth := m_nSampleDepth d |}.

(** [QString( ... ).arg( n )] for an unsigned [n]: its decimal digits. *)
Definition arg (n : Z) : string := NilZero.string_of_uint (N.to_uint (Z.to_N n)).

(** Lines 261-268. *)
Definition init (nBufferSize : Z) (s : process) : Z * process :=
  (0, {| this := {| members := set_m_nBufferSize (members (this s)) nBufferSize;
                    m_pOut_L := m_pOut_L (this s);
                    m_pOut_R := m_pOut_R (this s) |};
         heap := heap s;
         calls := calls s ++ [Infolog ("Init, buffer size: " ++ arg nBufferSize)] |}).

(** Lines 275-288. *)
Definition connect (s : process) : Z * process :=
  let '(pL, h1) := new_array (m_nBufferSize (members (this s))) (heap s) in
  let '(pR, h2) := new_array (m_nBufferSize (members (this s))) h1 in
  (0, {| this := {| members := members (this s); m_pOut_L := pL; m_pOut_R := pR |};
         heap := h2;
         calls := calls s ++ [Infolog EmptyString; Pthread_create] |}).

(** Lines 292-301; [None] when a [delete[]] is undefined. *)
Definition disconnect (s : process) : option process :=
  match delete_array (m_pOut_L (this s)) (heap s) with
  | None => None
  | Some h1 =>
      match delete_array (m_pOut_R (this s)) h1 with
      | None => None
      | Some h2 =>
          Some {| this := {| members := members (this s);
                             m_pOut_L := None; m_pOut_R := None |};
                  heap := h2;
                  calls := calls s ++ [Infolog EmptyString] |}
      end
  end.

(** Lines 303-306. *)
Definition getSampleRate (s : process) : Z := m_nSampleRate (members (this s)).

(** The calls a user of the driver may make, in any order. *)
Inductive op :=
| Init (nBufferSize : Z)
| Connect
| Disconnect
| GetSampleRate.

Definition step (o : op) (s : process) : option process :=
  match o with
  | Init n => Some (snd (init n s))
  | Connect => Some (snd (connect s))
  | Disconnect => disconnect s
  | GetSampleRate => Some s
  end.

Fixpoint run (ops : list op) (s : process) : option process :=
  match ops with
  | [] => Some s
  | o :: ops' =>
      match step o s with
      | Some s' => run ops' s'
      | None => None
      end
  end.

(** A new driver next to whatever the program has allocated. *)
Definition start (nSamplerate nSampleDepth : Z) (h0 : list array) : process :=
  {| this := DiskWriterDriver_DiskWriterDriver nSamplerate nSampleDepth; heap := h0; calls := [] |}.

(** The arrays of the store that have not been deleted. *)
Definition live (h : list array) : nat :=
  length (List.filter (fun b => negb (deleted b)) h).

(** The calls of [connect] made on a driver that holds buffers already;
    [connected] tells whether it holds buffers at the start. *)
Fixpoint reconnects (connected : bool) (ops : list op) : nat :=
  match ops with
  | [] => 0
  | Connect :: ops' => (if connected then 1 else 0) + reconnects true ops'
  | Disconnect :: ops' => reconnects false ops'
  | _ :: ops' => reconnects connected ops'
  end.

(** The buffer size after the calls: that of the last [init]. *)
Fixpoint buffer_size (n : Z) (ops : list op) : Z :=
  match ops with
  | [] => n
  | Init m :: ops' => buffer_size m ops'
  | _ :: ops' => buffer_size n ops'
  end.

(** Whether the driver holds buffers. *)
Definition connected (s : process) : bool :=
  match m_pOut_L (this s) with Some _ => true | None => false end.

(** The store still holds the arrays [h0] of the others as they were, and
    the driver holds no buffer or two arrays of its own, of one length and
    not deleted. *)
Definition sound (h0 : list array) (s : process) : Prop :=
  take (length h0) (heap s) = h0
  /\ match m_pOut_L (this s), m_pOut_R (this s) with
     | None, None => True
     | Some l, Some r =>
         l <> r /\ (length h0 <= l)%nat /\ (length h0 <= r)%nat
         /\ exists n,
              heap s !! l = Some {| array_length := n; deleted := false |}
              /\ heap s !! r = Some {| array_length := n; deleted := false |}
     | _, _ => False
     end.

(** The threads started. *)
Definition threads (cs : list call) : nat :=
  length (List.filter (fun c => match c with Pthread_create => true | _ => false end) cs).

Definition connects (ops : list op) : nat :=
  length (List.filter (fun o => match o with Connect => true | _ => false end) ops).

(** What every call keeps. *)
Definition kept (nSamplerate nSampleDepth : Z) (h0 : list array) (s : process) : Prop :=
  sound h0 s
  /\ getSampleRate s = nSamplerate
  /\ m_nSampleDepth (members (this s)) = nSampleDepth
  /\ m_sFilename (members (this s)) = EmptyString.

End Object.

(** ** MIDI actions: [MidiAction.cpp] *)

Module Midi.

(** Lines 70-76: an action, its type and its parameters, all strings. *)
Record Action := {
  getType : string;
  getParameter1 : string;
  getParameter2 : string;
  getParameter3 : string;
  getValue : string
}.

Definition Action_Action (typeString : string) : Action :=
  {| getType := typeString;
     getParameter1 := "0";
     getParameter2 := "0";
     getParameter3 := "0";
     getValue := "0" |}%string.

(** The states of the audio engine the actions tell apart. *)
Inductive State := Ready | Playing | OtherState.

Inductive EventType := EVENT_TEMPO_CHANGED | EVENT_UNDO_REDO.

(** What the actions call: the sequencer, the controller, the song, the
    instruments and their layers, the preferences, the play list, the event
    queue and the log. A floating-point argument is the value of the
    expression of the call. *)
Inductive call (Instrument Layer : Type) :=
| sequencer_play
| sequencer_stop
| locateToColumn (nColumn : Z)
| setMasterIsMuted (b : bool)
| setStripIsMuted (nStrip : Z) (b : bool)
| setStripIsSoloed (nStrip : Z) (b : bool)
| handleBeatCounter
| onTapTempoAccelEvent
| setSelectedPatternNumber (n : Z)
| sequencer_setNextPattern (n : Z)
| sequencer_setOnlyNextPattern (n : Z)
| setSelectedInstrumentNumber (n : Z)
| set_fx_level (pInstr : Instrument) (level : spec_float) (fx_id : Z)
| setVolume (v : spec_float)
| set_volume (pInstr : Instrument) (v : spec_float)
| setPanWithRangeFrom0To1 (pInstr : Instrument) (v : spec_float)
| setPan (pInstr : Instrument) (v : spec_float)
| set_gain (pLayer : Layer) (v : spec_float)
| set_pitch (pLayer : Layer) (v : spec_float)
| refreshInstrumentParameters (n : Z)
| set_filter_active (pInstr : Instrument) (b : bool)
| set_filter_cutoff (pInstr : Instrument) (v : spec_float)
| lock
| unlock
| setBPM (v : spec_float)
| push_event (e : EventType) (n : Z)
| setNextSongByNumber (n : Z)
| setRecordEvents (b : bool)
| set_m_bUseMetronome (b : bool)
| ERRORLOG (msg : string).
Arguments sequencer_play {Instrument Layer}.
Arguments sequencer_stop {Instrument Layer}.
Arguments locateToColumn {Instrument Layer} nColumn.
Arguments setMasterIsMuted {Instrument Layer} b.
Arguments setStripIsMuted {Instrument Layer} nStrip b.
Arguments setStripIsSoloed {Instrument Layer} nStrip b.
Arguments handleBeatCounter {Instrument Layer}.
Arguments onTapTempoAccelEvent {Instrument Layer}.
Arguments setSelectedPatternNumber {Instrument Layer} n.
Arguments sequencer_setNextPattern {Instrument Layer} n.
Arguments sequencer_setOnlyNextPattern {Instrument Layer} n.
Arguments setSelectedInstrumentNumber {Instrument Layer} n.
Arguments set_fx_level {Instrument Layer} pInstr level fx_id.
Arguments setVolume {Instrument Layer} v.
Arguments set_volume {Instrument Layer} pInstr v.
Arguments setPanWithRangeFrom0To1 {Instrument Layer} pInstr v.
Arguments setPan {Instrument Layer} pInstr v.
Arguments set_gain {Instrument Layer} pLayer v.
Arguments set_pitch {Instrument Layer} pLayer v.
Arguments refreshInstrumentParameters {Instrument Layer} n.
Arguments set_filter_active {Instrument Layer} pInstr b.
Arguments set_filter_cutoff {Instrument Layer} pInstr v.
Arguments lock {Instrument Layer}.
Arguments unlock {Instrument Layer}.
Arguments setBPM {Instrument Layer} v.
Arguments push_event {Instrument Layer} e n.
Arguments setNextSongByNumber {Instrument Layer} n.
Arguments setRecordEvents {Instrument Layer} b.
Arguments set_m_bUseMetronome {Instrument Layer} b.
Arguments ERRORLOG {Instrument Layer} msg.

(** What the file uses and does not define: [QString::toInt], and
    everything behind [Hydrogen::get_instance()], [Preferences] and
    [Playlist]: what the actions read there and what a call changes. The
    sizes, indices and numbers are [int]s, the tempo, the volumes and the
    pan are [float]s; a null pointer is [None]. *)
Record Host := {
  Hydrogen : Type;
  Instrument : Type;
  Component : Type;
  Layer : Type;
  toInt : string -> Z;
  getState : Hydrogen -> State;
  getIsMuted : Hydrogen -> bool;
  getInstrumentList_size : Hydrogen -> Z;
  is_valid_index : Hydrogen -> Z -> bool;
  get : Hydrogen -> Z -> option Instrument;
  is_muted : Hydrogen -> Instrument -> bool;
  is_soloed : Hydrogen -> Instrument -> bool;
  get_volume : Hydrogen -> Instrument -> Float.float;
  getPan : Hydrogen -> Instrument -> Float.float;
  get_component : Hydrogen -> Instrument -> Z -> option Component;
  get_layer : Hydrogen -> Component -> Z -> option Layer;
  getPatternList_size : Hydrogen -> Z;
  patternModePlaysSelected : Hydrogen -> bool;
  getSelectedPatternNumber : Hydrogen -> Z;
  getBpm : Hydrogen -> Float.float;
  getVolume : Hydrogen -> Float.float;
  getColumn : Hydrogen -> Z;
  getActiveSongNumber : Hydrogen -> Z;
  Playlist_size : Hydrogen -> Z;
  getRecordEvents : Hydrogen -> bool;
  m_bUseMetronome : Hydrogen -> bool;
  perform : call Instrument Layer -> Hydrogen -> Hydrogen
}.

(** The member functions the action map points to. *)
Inductive action_f :=
| f_play | f_play_stop_pause_toggle | f_stop | f_pause
| f_record_ready | f_record_strobe_toggle | f_record_strobe | f_record_exit
| f_mute | f_unmute | f_mute_toggle | f_strip_mute_toggle | f_strip_solo_toggle
| f_next_bar | f_previous_bar
| f_bpm_increase | f_bpm_decrease | f_bpm_cc_relative | f_bpm_fine_cc_relative
| f_master_volume_relative | f_master_volume_absolute
| f_strip_volume_relative | f_strip_volume_absolute
| f_effect_level_absolute | f_effect_level_relative
| f_gain_level_absolute | f_pitch_level_absolute
| f_select_next_pattern | f_select_only_next_pattern
| f_select_next_pattern_cc_absolute | f_select_next_pattern_relative
| f_select_and_play_pattern
| f_pan_relative | f_pan_absolute | f_filter_cutoff_level_absolute
| f_beatcounter | f_tap_tempo
| f_playlist_song | f_playlist_next_song | f_playlist_previous_song
| f_toggle_metronome | f_select_instrument | f_undo_action | f_redo_action.

(** [std::map<std::string, action_f>]: the keys in ascending order, each
    once. [insert] leaves a key that is there as it is. *)
Fixpoint insert (k : string) (v : action_f) (m : list (string * action_f))
  : list (string * action_f) :=
  match m with
  | [] => [(k, v)]
  | (k', v') :: m' =>
      match String.compare k k' with
      | Lt => (k, v) :: m
      | Eq => m
      | Gt => (k', v') :: insert k v m'
      end
  end.

Fixpoint find (k : string) (m : list (string * action_f)) : option action_f :=
  match m with
  | [] => None
  | (k', v) :: m' => if String.eqb k k' then Some v else find k m'
  end.

(** The manager: the last value of the tempo controller, the action map
    and the two lists of names. *)
Record MidiActionManager := {
  m_nLastBpmChangeCCParameter : Z;
  actionMap : list (string * action_f);
  actionList : list string;
  eventList : list string
}.

(** Lines 93-169: the constructor. First the pairs it inserts in the
    action map, in the order of the source. *)
Definition insertions : list (string * action_f) :=
  [("PLAY", f_play);
     ("PLAY/STOP_TOGGLE", f_play_stop_pause_toggle);
     ("PLAY/PAUSE_TOGGLE", f_play_stop_pause_toggle);
     ("STOP", f_stop);
     ("PAUSE", f_pause);
     ("RECORD_READY", f_record_ready);
     ("RECORD/STROBE_TOGGLE", f_record_strobe_toggle);
     ("RECORD_STROBE", f_record_strobe);
     ("RECORD_EXIT", f_record_exit);
     ("MUTE", f_mute);
     ("UNMUTE", f_unmute);
     ("MUTE_TOGGLE", f_mute_toggle);
     ("STRIP_MUTE_TOGGLE", f_strip_mute_toggle);
     ("STRIP_SOLO_TOGGLE", f_strip_solo_toggle);
     (">>_NEXT_BAR", f_next_bar);
     ("<<_PREVIOUS_BAR", f_previous_bar);
     ("BPM_INCR", f_bpm_increase);
     ("BPM_DECR", f_bpm_decrease);
     ("BPM_CC_RELATIVE", f_bpm_cc_relative);
     ("BPM_FINE_CC_RELATIVE", f_bpm_fine_cc_relative);
     ("MASTER_VOLUME_RELATIVE", f_master_volume_relative);
     ("MASTER_VOLUME_ABSOLUTE", f_master_volume_absolute);
     ("STRIP_VOLUME_RELATIVE", f_strip_volume_relative);
     ("STRIP_VOLUME_ABSOLUTE", f_strip_volume_absolute);
     ("EFFECT_LEVEL_ABSOLUTE", f_effect_level_absolute);
     ("EFFECT_LEVEL_RELATIVE", f_effect_level_relative);
     ("GAIN_LEVEL_ABSOLUTE", f_gain_level_absolute);
     ("PITCH_LEVEL_ABSOLUTE", f_pitch_level_absolute);
     ("SELECT_NEXT_PATTERN", f_select_next_pattern);
     ("SELECT_ONLY_NEXT_PATTERN", f_select_only_next_pattern);
     ("SELECT_NEXT_PATTERN_CC_ABSOLUTE", f_select_next_pattern_cc_absolute);
     ("SELECT_NEXT_PATTERN_RELATIVE", f_select_next_pattern_relative);
     ("SELECT_AND_PLAY_PATTERN", f_select_and_play_pattern);
     ("PAN_RELATIVE", f_pan_relative);
     ("PAN_ABSOLUTE", f_pan_absolute);
     ("FILTER_CUTOFF_LEVEL_ABSOLUTE", f_filter_cutoff_level_absolute);
     ("BEATCOUNTER", f_beatcounter);
     ("TAP_TEMPO", f_tap_tempo);
     ("PLAYLIST_SONG", f_playlist_song);
     ("PLAYLIST_NEXT_SONG", f_playlist_next_song);
     ("PLAYLIST_PREV_SONG", f_playlist_previous_song);
     ("TOGGLE_METRONOME", f_toggle_metronome);
     ("SELECT_INSTRUMENT", f_select_instrument);
     ("UNDO_ACTION", f_undo_action);
     ("REDO_ACTION", f_redo_action)]%string.

Definition MidiActionManager_actionMap : list (string * action_f) :=
  fold_left (fun m kv => insert (fst kv) (snd kv) m) insertions [].

Definition MidiActionManager_MidiActionManager : MidiActionManager :=
  {| m_nLastBpmChangeCCParameter := -1;
     actionMap := MidiActionManager_actionMap;
     actionList := EmptyString :: map fst MidiActionManager_actionMap;
     eventList :=
       [EmptyString; "MMC_PLAY"; "MMC_DEFERRED_PLAY"; "MMC_STOP"; "MMC_FAST_FORWARD";
        "MMC_REWIND"; "MMC_RECORD_STROBE"; "MMC_RECORD_EXIT"; "MMC_RECORD_READY";
        "MMC_PAUSE"; "NOTE"; "CC"; "PROGRAM_CHANGE"]%string |}.

(** [double] arithmetic and the constants of the file. *)
Definition dadd (x y : Float.double) : Float.double :=
  SFadd Float.prec64 Float.emax64 x y.
Definition dsub (x y : Float.double) : Float.double :=
  SFsub Float.prec64 Float.emax64 x y.
Definition ddiv (x y : Float.double) : Float.double :=
  SFdiv Float.prec64 Float.emax64 x y.
Definition fsub (x y : Float.float) : Float.float :=
  SFsub Float.prec32 Float.emax32 x y.
Definition fadd (x y : Float.float) : Float.float :=
  SFadd Float.prec32 Float.emax32 x y.

(** [1.5], [0.05], [0.1], [0.01] and [24.5] as [double]s: the nearest to
    the decimal. *)
Definition d_1_5 : Float.double := ddiv (Float.double_of_int 3) (Float.double_of_int 2).
Definition d_0_05 : Float.double := ddiv (Float.double_of_int 5) (Float.double_of_int 100).
Definition d_0_1 : Float.double := ddiv (Float.double_of_int 1) (Float.double_of_int 10).
Definition d_0_01 : Float.double := ddiv (Float.double_of_int 1) (Float.double_of_int 100).
Definition d_24_5 : Float.double := ddiv (Float.double_of_int 49) (Float.double_of_int 2).

(** [(float) (n / 127.0)]. *)
Definition over_127 (n : Z) : Float.float :=
  Float.of_double (ddiv (Float.double_of_int n) (Float.double_of_int 127)).

(** The calls on a host. *)
Definition Call (host : Host) : Type := call (Instrument host) (Layer host).

Declare Scope midi_scope.
Delimit Scope midi_scope with midi.

Section Manager.
Context {host : Host}.

(** The manager and what lies behind [Hydrogen::get_instance()]. *)
Record World := {
  manager : MidiActionManager;
  hydrogen : Hydrogen host
}.

(** A computation: the calls made, the new state, and the result, [None]
    when an [int] overflows. *)
Definition M (A : Type) : Type := World -> list (Call host) * World * option A.

Definition ret {A} (a : A) : M A := fun w => ([], w, Some a).

Definition bind {A B} (m : M A) (k : A -> M B) : M B :=
  fun w =>
    match m w with
    | (cs, w', Some a) => let '(cs', w'', r) := k a w' in (cs ++ cs', w'', r)
    | (cs, w', None) => (cs, w', None)
    end.

Notation "x <- m ;; k" := (bind m (fun x => k))
  (at level 100, m at next level, right associativity) : midi_scope.
Notation "m ;; k" := (bind m (fun _ => k))
  (at level 100, right associativity) : midi_scope.
Local Open Scope midi_scope.

(** Reading what lies behind. *)
Definition read {A} (f : Hydrogen host -> A) : M A :=
  fun w => ([], w, Some (f (hydrogen w))).

(** A call: it is made and it changes what lies behind. *)
Definition make_call (c : Call host) : M unit :=
  fun w => ([c], {| manager := manager w; hydrogen := perform host c (hydrogen w) |},
            Some tt).

(** An [int] result: undefined outside the range. *)
Definition checked (z : Z) : M Z :=
  fun w => ([], w, if (INT_MIN <=? z) && (z <=? INT_MAX) then Some z else None).

Definition get_m_nLastBpmChangeCCParameter : M Z :=
  fun w => ([], w, Some (m_nLastBpmChangeCCParameter (manager w))).

Definition set_m_nLastBpmChangeCCParameter (z : Z) : M unit :=
  fun w => ([], {| manager := {| m_nLastBpmChangeCCParameter := z;
                                 actionMap := actionMap (manager w);
                                 actionList := actionList (manager w);
                                 eventList := eventList (manager w) |};
                   hydrogen := hydrogen w |}, Some tt).

Definition zero : spec_float := S754_zero false.

(** Lines 183-188. *)
Definition play (_ : Action) : M bool :=
  s <- read (getState host) ;;
  (match s with Ready => make_call sequencer_play | _ => ret tt end) ;;
  ret true.

(** Lines 190-193. *)
Definition pause (_ : Action) : M bool :=
  make_call sequencer_stop ;;
  ret true.

(** Lines 195-199. *)
Definition stop (_ : Action) : M bool :=
  make_call sequencer_stop ;;
  make_call (locateToColumn 0) ;;
  ret true.

(** Lines 201-222. *)
Definition play_stop_pause_toggle (pAction : Action) : M bool :=
  let sActionString := getType pAction in
  s <- read (getState host) ;;
  (match s with
   | Ready => make_call sequencer_play
   | Playing =>
       (if String.eqb sActionString "PLAY/STOP_TOGGLE"
        then make_call (locateToColumn 0) else ret tt) ;;
       make_call sequencer_stop
   | OtherState => make_call (ERRORLOG "[Hydrogen::ActionManager(PLAY): Unhandled case")
   end) ;;
  ret true.

(** Lines 225-238. *)
Definition mute (_ : Action) : M bool :=
  make_call (setMasterIsMuted true) ;;
  ret true.

Definition unmute (_ : Action) : M bool :=
  make_call (setMasterIsMuted false) ;;
  ret true.

Definition mute_toggle (_ : Action) : M bool :=
  b <- read (getIsMuted host) ;;
  make_call (setMasterIsMuted (negb b)) ;;
  ret true.

(** Lines 240-263. *)
Definition strip_mute_toggle (pAction : Action) : M bool :=
  let nLine := toInt host (getParameter1 pAction) in
  valid <- read (fun h => is_valid_index host h nLine) ;;
  if valid then
    pInstr <- read (fun h => get host h nLine) ;;
    match pInstr with
    | Some pInstr =>
        b <- read (fun h => is_muted host h pInstr) ;;
        make_call (setStripIsMuted nLine (negb b)) ;;
        ret true
    | None => ret false
    end
  else ret false.

(** Lines 265-288. *)
Definition strip_solo_toggle (pAction : Action) : M bool :=
  let nLine := toInt host (getParameter1 pAction) in
  valid <- read (fun h => is_valid_index host h nLine) ;;
  if valid then
    pInstr <- read (fun h => get host h nLine) ;;
    match pInstr with
    | Some pInstr =>
        b <- read (fun h => is_soloed host h pInstr) ;;
        make_call (setStripIsSoloed nLine (negb b)) ;;
        ret true
    | None => ret false
    end
  else ret false.

(** Lines 290-298. *)
Definition beatcounter (_ : Action) : M bool :=
  make_call handleBeatCounter ;;
  ret true.

Definition tap_tempo (_ : Action) : M bool :=
  make_call onTapTempoAccelEvent ;;
  ret true.

(** [row > pHydrogen->getSong()->getPatternList()->size() - 1 || row < 0]. *)
Definition no_such_pattern (row : Z) : M bool :=
  size <- read (getPatternList_size host) ;;
  last <- checked (size - 1) ;;
  ret ((last <? row) || (row <? 0)).

(** Lines 300-314. *)
Definition select_next_pattern (pAction : Action) : M bool :=
  let row := toInt host (getParameter1 pAction) in
  out <- no_such_pattern row ;;
  if out then ret false
  else
    selected <- read (patternModePlaysSelected host) ;;
    (if selected then make_call (setSelectedPatternNumber row)
     else make_call (sequencer_setNextPattern row)) ;;
    ret true.

(** Lines 316-330. *)
Definition select_only_next_pattern (pAction : Action) : M bool :=
  let row := toInt host (getParameter1 pAction) in
  out <- no_such_pattern row ;;
  if out then ret false
  else
    selected <- read (patternModePlaysSelected host) ;;
    if selected then ret true
    else
      make_call (sequencer_setOnlyNextPattern row) ;;
      ret true.

(** Lines 332-345. *)
Definition select_next_pattern_relative (pAction : Action) : M bool :=
  selected <- read (patternModePlaysSelected host) ;;
  if negb selected then ret true
  else
    n <- read (getSelectedPatternNumber host) ;;
    row <- checked (n + toInt host (getParameter1 pAction)) ;;
    out <- no_such_pattern row ;;
    if out then ret false
    else
      make_call (setSelectedPatternNumber row) ;;
      ret true.

(** Lines 347-364. *)
Definition select_next_pattern_cc_absolute (pAction : Action) : M bool :=
  let row := toInt host (getValue pAction) in
  out <- no_such_pattern row ;;
  if out then ret false
  else
    selected <- read (patternModePlaysSelected host) ;;
    if selected then
      make_call (setSelectedPatternNumber row) ;;
      ret true
    else ret true.

(** Lines 366-376. *)
Definition select_and_play_pattern (pAction : Action) : M bool :=
  ok <- select_next_pattern pAction ;;
  if negb ok then ret false
  else
    s <- read (getState host) ;;
    (match s with Ready => make_call sequencer_play | _ => ret tt end) ;;
    ret true.

(** Lines 378-391. *)
Definition select_instrument (pAction : Action) : M bool :=
  let nInstrumentNumber := toInt host (getValue pAction) in
  size <- read (getInstrumentList_size host) ;;
  nInstrumentNumber <-
    (if size <? nInstrumentNumber then
       size <- read (getInstrumentList_size host) ;;
       checked (size - 1)
     else if nInstrumentNumber <? 0 then ret 0
     else ret nInstrumentNumber) ;;
  make_call (setSelectedInstrumentNumber nInstrumentNumber) ;;
  ret true.

(** Lines 393-422. *)
Definition effect_level_absolute (pAction : Action) : M bool :=
  let nLine := toInt host (getParameter1 pAction) in
  let fx_param := toInt host (getValue pAction) in
  let fx_id := toInt host (getParameter2 pAction) in
  valid <- read (fun h => is_valid_index host h nLine) ;;
  if valid then
    pInstr <- read (fun h => get host h nLine) ;;
    match pInstr with
    | Some pInstr =>
        (if negb (fx_param =? 0)
         then make_call (set_fx_level pInstr (over_127 fx_param) fx_id)
         else make_call (set_fx_level pInstr zero fx_id)) ;;
        make_call (setSelectedInstrumentNumber nLine) ;;
        ret true
    | None => ret false
    end
  else ret true.

(** Lines 424-427. *)
Definition effect_level_relative (_ : Action) : M bool := ret true.

(** Lines 430-444. *)
Definition master_volume_absolute (pAction : Action) : M bool :=
  let vol_param := toInt host (getValue pAction) in
  (if negb (vol_param =? 0)
   then make_call (setVolume (Float.dmul d_1_5 (Float.to_double (over_127 vol_param))))
   else make_call (setVolume zero)) ;;
  ret true.

(** Lines 447-467. *)
Definition master_volume_relative (pAction : Action) : M bool :=
  let vol_param := toInt host (getValue pAction) in
  (if negb (vol_param =? 0) then
     v <- read (getVolume host) ;;
     if (vol_param =? 1) && Float.ltb (Float.to_double v) d_1_5 then
       v <- read (getVolume host) ;;
       make_call (setVolume (dadd (Float.to_double v) d_0_05))
     else
       v <- read (getVolume host) ;;
       if Float.leb zero (Float.to_double v) then
         v <- read (getVolume host) ;;
         make_call (setVolume (dsub (Float.to_double v) d_0_05))
       else ret tt
   else make_call (setVolume zero)) ;;
  ret true.

(** Lines 470-497. *)
Definition strip_volume_absolute (pAction : Action) : M bool :=
  let nLine := toInt host (getParameter1 pAction) in
  let vol_param := toInt host (getValue pAction) in
  valid <- read (fun h => is_valid_index host h nLine) ;;
  if valid then
    pInstr <- read (fun h => get host h nLine) ;;
    match pInstr with
    | None => ret false
    | Some pInstr =>
        (if negb (vol_param =? 0)
         then make_call (set_volume pInstr
                    (Float.dmul d_1_5 (Float.to_double (over_127 vol_param))))
         else make_call (set_volume pInstr zero)) ;;
        make_call (setSelectedInstrumentNumber nLine) ;;
        ret true
    end
  else ret true.

(** Lines 500-533. *)
Definition strip_volume_relative (pAction : Action) : M bool :=
  let nLine := toInt host (getParameter1 pAction) in
  let vol_param := toInt host (getValue pAction) in
  valid <- read (fun h => is_valid_index host h nLine) ;;
  if valid then
    pInstr <- read (fun h => get host h nLine) ;;
    match pInstr with
    | None => ret false
    | Some pInstr =>
        (if negb (vol_param =? 0) then
           v <- read (fun h => get_volume host h pInstr) ;;
           if (vol_param =? 1) && Float.ltb (Float.to_double v) d_1_5 then
             v <- read (fun h => get_volume host h pInstr) ;;
             make_call (set_volume pInstr (dadd (Float.to_double v) d_0_1))
           else
             v <- read (fun h => get_volume host h pInstr) ;;
             if Float.leb zero (Float.to_double v) then
               v <- read (fun h => get_volume host h pInstr) ;;
               make_call (set_volume pInstr (dsub (Float.to_double v) d_0_1))
             else ret tt
         else make_call (set_volume pInstr zero)) ;;
        make_call (setSelectedInstrumentNumber nLine) ;;
        ret true
    end
  else ret true.

(** Lines 536-560. *)
Definition pan_absolute (pAction : Action) : M bool :=
  let nLine := toInt host (getParameter1 pAction) in
  let pan_param := toInt host (getValue pAction) in
  valid <- read (fun h => is_valid_index host h nLine) ;;
  if valid then
    make_call (setSelectedInstrumentNumber nLine) ;;
    pInstr <- read (fun h => get host h nLine) ;;
    match pInstr with
    | None => ret false
    | Some pInstr =>
        make_call (setPanWithRangeFrom0To1 pInstr
              (Float.div (Float.of_int pan_param) (Float.of_int 127))) ;;
        make_call (setSelectedInstrumentNumber nLine) ;;
        ret true
    end
  else ret true.

(** Lines 564-594. *)
Definition pan_relative (pAction : Action) : M bool :=
  let nLine := toInt host (getParameter1 pAction) in
  let pan_param := toInt host (getValue pAction) in
  valid <- read (fun h => is_valid_index host h nLine) ;;
  if valid then
    make_call (setSelectedInstrumentNumber nLine) ;;
    pInstr <- read (fun h => get host h nLine) ;;
    match pInstr with
    | None => ret false
    | Some pInstr =>
        fPan <- read (fun h => getPan host h pInstr) ;;
        (if (pan_param =? 1) && Float.ltb fPan (Float.of_int 1) then
           make_call (setPan pInstr (dadd (Float.to_double fPan) d_0_1))
         else if negb (pan_param =? 1) && Float.gtb fPan (Float.of_int (-1)) then
           make_call (setPan pInstr (dsub (Float.to_double fPan) d_0_1))
         else ret tt) ;;
        make_call (setSelectedInstrumentNumber nLine) ;;
        ret true
    end
  else ret true.

(** Lines 596-635. *)
Definition gain_level_absolute (pAction : Action) : M bool :=
  let nLine := toInt host (getParameter1 pAction) in
  let gain_param := toInt host (getValue pAction) in
  let component_id := toInt host (getParameter2 pAction) in
  let layer_id := toInt host (getParameter3 pAction) in
  valid <- read (fun h => is_valid_index host h nLine) ;;
  if valid then
    pInstr <- read (fun h => get host h nLine) ;;
    match pInstr with
    | None => ret false
    | Some pInstr =>
        pComponent <- read (fun h => get_component host h pInstr component_id) ;;
        match pComponent with
        | None => ret false
        | Some pComponent =>
            pLayer <- read (fun h => get_layer host h pComponent layer_id) ;;
            match pLayer with
            | None => ret false
            | Some pLayer =>
                (if negb (gain_param =? 0)
                 then make_call (set_gain pLayer
                            (Float.dmul (Float.double_of_int 5)
                               (Float.to_double (over_127 gain_param))))
                 else make_call (set_gain pLayer zero)) ;;
                make_call (setSelectedInstrumentNumber nLine) ;;
                make_call (refreshInstrumentParameters nLine) ;;
                ret true
            end
        end
    end
  else ret true.

(** Lines 637-676. *)
Definition pitch_level_absolute (pAction : Action) : M bool :=
  let nLine := toInt host (getParameter1 pAction) in
  let pitch_param := toInt host (getValue pAction) in
  let component_id := toInt host (getParameter2 pAction) in
  let layer_id := toInt host (getParameter3 pAction) in
  valid <- read (fun h => is_valid_index host h nLine) ;;
  if valid then
    pInstr <- read (fun h => get host h nLine) ;;
    match pInstr with
    | None => ret false
    | Some pInstr =>
        pComponent <- read (fun h => get_component host h pInstr component_id) ;;
        match pComponent with
        | None => ret false
        | Some pComponent =>
            pLayer <- read (fun h => get_layer host h pComponent layer_id) ;;
            match pLayer with
            | None => ret false
            | Some pLayer =>
                (if negb (pitch_param =? 0)
                 then make_call (set_pitch pLayer
                            (dsub (Float.to_double
                                     (Float.mul (Float.of_int 49) (over_127 pitch_param)))
                               d_24_5))
                 else make_call (set_pitch pLayer (SFopp d_24_5))) ;;
                make_call (setSelectedInstrumentNumber nLine) ;;
                make_call (refreshInstrumentParameters nLine) ;;
                ret true
            end
        end
    end
  else ret true.

(** Lines 678-706. *)
Definition filter_cutoff_level_absolute (pAction : Action) : M bool :=
  let nLine := toInt host (getParameter1 pAction) in
  let filter_cutoff_param := toInt host (getValue pAction) in
  valid <- read (fun h => is_valid_index host h nLine) ;;
  if valid then
    pInstr <- read (fun h => get host h nLine) ;;
    match pInstr with
    | None => ret false
    | Some pInstr =>
        make_call (set_filter_active pInstr true) ;;
        (if negb (filter_cutoff_param =? 0)
         then make_call (set_filter_cutoff pInstr (over_127 filter_cutoff_param))
         else make_call (set_filter_cutoff pInstr zero)) ;;
        make_call (setSelectedInstrumentNumber nLine) ;;
        make_call (refreshInstrumentParameters nLine) ;;
        ret true
    end
  else ret true.

(** Lines 713-743. *)
Definition bpm_cc_relative (pAction : Action) : M bool :=
  make_call lock ;;
  let mult := toInt host (getParameter1 pAction) in
  let cc_param := toInt host (getValue pAction) in
  last <- get_m_nLastBpmChangeCCParameter ;;
  (if last =? -1 then set_m_nLastBpmChangeCCParameter cc_param else ret tt) ;;
  last <- get_m_nLastBpmChangeCCParameter ;;
  bpm <- read (getBpm host) ;;
  (if (cc_param <=? last) && Float.ltb bpm (Float.of_int 300) then
     bpm <- read (getBpm host) ;;
     make_call (setBPM (fsub bpm (Float.of_int (1 * mult))))
   else ret tt) ;;
  last <- get_m_nLastBpmChangeCCParameter ;;
  bpm <- read (getBpm host) ;;
  (if (last <? cc_param) && Float.gtb bpm (Float.of_int 40) then
     bpm <- read (getBpm host) ;;
     make_call (setBPM (fadd bpm (Float.of_int (1 * mult))))
   else ret tt) ;;
  set_m_nLastBpmChangeCCParameter cc_param ;;
  make_call unlock ;;
  ret true.

(** Lines 749-778. *)
Definition bpm_fine_cc_relative (pAction : Action) : M bool :=
  make_call lock ;;
  let mult := toInt host (getParameter1 pAction) in
  let cc_param := toInt host (getValue pAction) in
  last <- get_m_nLastBpmChangeCCParameter ;;
  (if last =? -1 then set_m_nLastBpmChangeCCParameter cc_param else ret tt) ;;
  last <- get_m_nLastBpmChangeCCParameter ;;
  bpm <- read (getBpm host) ;;
  (if (cc_param <=? last) && Float.ltb bpm (Float.of_int 300) then
     bpm <- read (getBpm host) ;;
     make_call (setBPM (dsub (Float.to_double bpm)
                   (Float.dmul d_0_01 (Float.double_of_int mult))))
   else ret tt) ;;
  last <- get_m_nLastBpmChangeCCParameter ;;
  bpm <- read (getBpm host) ;;
  (if (last <? cc_param) && Float.gtb bpm (Float.of_int 40) then
     bpm <- read (getBpm host) ;;
     make_call (setBPM (dadd (Float.to_double bpm)
                   (Float.dmul d_0_01 (Float.double_of_int mult))))
   else ret tt) ;;
  set_m_nLastBpmChangeCCParameter cc_param ;;
  make_call unlock ;;
  ret true.

(** Lines 780-794. *)
Definition bpm_increase (pAction : Action) : M bool :=
  make_call lock ;;
  let mult := toInt host (getParameter1 pAction) in
  bpm <- read (getBpm host) ;;
  make_call (setBPM (fadd bpm (Float.of_int (1 * mult)))) ;;
  make_call unlock ;;
  make_call (push_event EVENT_TEMPO_CHANGED (-1)) ;;
  ret true.

(** Lines 796-810. *)
Definition bpm_decrease (pAction : Action) : M bool :=
  make_call lock ;;
  let mult := toInt host (getParameter1 pAction) in
  bpm <- read (getBpm host) ;;
  make_call (setBPM (fsub bpm (Float.of_int (1 * mult)))) ;;
  make_call unlock ;;
  make_call (push_event EVENT_TEMPO_CHANGED (-1)) ;;
  ret true.

(** Lines 812-821. *)
Definition next_bar (_ : Action) : M bool :=
  n <- read (getColumn host) ;;
  n <- checked (n + 1) ;;
  make_call (locateToColumn n) ;;
  ret true.

Definition previous_bar (_ : Action) : M bool :=
  n <- read (getColumn host) ;;
  n <- checked (n - 1) ;;
  make_call (locateToColumn n) ;;
  ret true.

(** Lines 823-829. *)
Definition setSong (songnumber : Z) : M bool :=
  asn <- read (getActiveSongNumber host) ;;
  (if negb (asn =? songnumber) && (0 <=? songnumber) then
     size <- read (Playlist_size host) ;;
     last <- checked (size - 1) ;;
     if songnumber <=? last then make_call (setNextSongByNumber songnumber) else ret tt
   else ret tt) ;;
  ret true.

(** Lines 831-845. *)
Definition playlist_song (pAction : Action) : M bool :=
  let songnumber := toInt host (getParameter1 pAction) in
  setSong songnumber.

Definition playlist_next_song (_ : Action) : M bool :=
  songnumber <- read (getActiveSongNumber host) ;;
  songnumber <- checked (songnumber + 1) ;;
  setSong songnumber.

Definition playlist_previous_song (_ : Action) : M bool :=
  songnumber <- read (getActiveSongNumber host) ;;
  songnumber <- checked (songnumber - 1) ;;
  setSong songnumber.

(** Lines 847-857. *)
Definition record_ready (_ : Action) : M bool :=
  s <- read (getState host) ;;
  (match s with
   | Playing => ret tt
   | _ =>
       b <- read (getRecordEvents host) ;;
       if negb b then make_call (setRecordEvents true) else make_call (setRecordEvents false)
   end) ;;
  ret true.

(** Lines 859-867. *)
Definition record_strobe_toggle (_ : Action) : M bool :=
  b <- read (getRecordEvents host) ;;
  (if negb b then make_call (setRecordEvents true) else make_call (setRecordEvents false)) ;;
  ret true.

(** Lines 869-874. *)
Definition record_strobe (_ : Action) : M bool :=
  b <- read (getRecordEvents host) ;;
  (if negb b then make_call (setRecordEvents true) else ret tt) ;;
  ret true.

(** Lines 876-881. *)
Definition record_exit (_ : Action) : M bool :=
  b <- read (getRecordEvents host) ;;
  (if b then make_call (setRecordEvents false) else ret tt) ;;
  ret true.

(** Lines 883-886. *)
Definition toggle_metronome (_ : Action) : M bool :=
  b <- read (m_bUseMetronome host) ;;
  make_call (set_m_bUseMetronome (negb b)) ;;
  ret true.

(** Lines 888-896. *)
Definition undo_action (_ : Action) : M bool :=
  make_call (push_event EVENT_UNDO_REDO 0) ;;
  ret true.

Definition redo_action (_ : Action) : M bool :=
  make_call (push_event EVENT_UNDO_REDO 1) ;;
  ret true.

(** [(this->*action)(pAction, pHydrogen)]. *)
Definition invoke (action : action_f) : Action -> M bool :=
  match action with
  | f_play => play
  | f_play_stop_pause_toggle => play_stop_pause_toggle
  | f_stop => stop
  | f_pause => pause
  | f_record_ready => record_ready
  | f_record_strobe_toggle => record_strobe_toggle
  | f_record_strobe => record_strobe
  | f_record_exit => record_exit
  | f_mute => mute
  | f_unmute => unmute
  | f_mute_toggle => mute_toggle
  | f_strip_mute_toggle => strip_mute_toggle
  | f_strip_solo_toggle => strip_solo_toggle
  | f_next_bar => next_bar
  | f_previous_bar => previous_bar
  | f_bpm_increase => bpm_increase
  | f_bpm_decrease => bpm_decrease
  | f_bpm_cc_relative => bpm_cc_relative
  | f_bpm_fine_cc_relative => bpm_fine_cc_relative
  | f_master_volume_relative => master_volume_relative
  | f_master_volume_absolute => master_volume_absolute
  | f_strip_volume_relative => strip_volume_relative
  | f_strip_volume_absolute => strip_volume_absolute
  | f_effect_level_absolute => effect_level_absolute
  | f_effect_level_relative => effect_level_relative
  | f_gain_level_absolute => gain_level_absolute
  | f_pitch_level_absolute => pitch_level_absolute
  | f_select_next_pattern => select_next_pattern
  | f_select_only_next_pattern => select_only_next_pattern
  | f_select_next_pattern_cc_absolute => select_next_pattern_cc_absolute
  | f_select_next_pattern_relative => select_next_pattern_relative
  | f_select_and_play_pattern => select_and_play_pattern
  | f_pan_relative => pan_relative
  | f_pan_absolute => pan_absolute
  | f_filter_cutoff_level_absolute => filter_cutoff_level_absolute
  | f_beatcounter => beatcounter
  | f_tap_tempo => tap_tempo
  | f_playlist_song => playlist_song
  | f_playlist_next_song => playlist_next_song
  | f_playlist_previous_song => playlist_previous_song
  | f_toggle_metronome => toggle_metronome
  | f_select_instrument => select_instrument
  | f_undo_action => undo_action
  | f_redo_action => redo_action
  end.

(** Lines 898-918; a null [pAction] is [None]. *)
Definition handleAction (pAction : option Action) : M bool :=
  match pAction with
  | None => ret false
  | Some pAction =>
      let sActionString := getType pAction in
      fun w =>
        match find sActionString (actionMap (manager w)) with
        | Some action => invoke action pAction w
        | None => ret false w
        end
  end.

(** A computation that leaves the manager's map and lists as they are. *)
Definition keeps {A} (m : M A) : Prop :=
  forall w,
    actionMap (manager (snd (fst (m w)))) = actionMap (manager w)
    /\ actionList (manager (snd (fst (m w)))) = actionList (manager w)
    /\ eventList (manager (snd (fst (m w)))) = eventList (manager w).

(** A computation that does not answer [false]. *)
Definition succeeds (m : M bool) : Prop :=
  forall w, snd (m w) <> Some false.

End Manager.

(** The member functions that answer [true] whatever they find. *)
Definition cannot_fail (action : action_f) : bool :=
  match action with
  | f_strip_mute_toggle | f_strip_solo_toggle
  | f_select_next_pattern | f_select_only_next_pattern
  | f_select_next_pattern_cc_absolute | f_select_next_pattern_relative
  | f_select_and_play_pattern
  | f_effect_level_absolute | f_strip_volume_absolute | f_strip_volume_relative
  | f_pan_absolute | f_pan_relative
  | f_gain_level_absolute | f_pitch_level_absolute
  | f_filter_cutoff_level_absolute => false
  | _ => true
  end.

(** Each name is below all that follow it. *)
Fixpoint ascending (l : list string) : bool :=
  match l with
  | [] => true
  | k :: l' => forallb (String.ltb k) l' && ascending l'
  end.

(** A desk to try the actions on: four strips, the last of them without an
    instrument, eight patterns, a play list of three songs; the calls that
    set what the actions read are carried out, the others change
    nothing. *)
Record Desk := {
  state : State;
  tempo : Float.float;
  volume : Float.float;
  pattern : Z;
  song_number : Z;
  recording : bool;
  metronome : bool;
  muted : bool
}.

(** Decimal digits, with a sign; 0 for anything else. *)
Fixpoint digits (s : string) (acc : Z) : option Z :=
  match s with
  | EmptyString => Some acc
  | String c s' =>
      let n := nat_of_ascii c in
      if (48 <=? n)%nat && (n <=? 57)%nat
      then digits s' (10 * acc + Z.of_nat (n - 48))
      else None
  end.

Definition parse (s : string) : Z :=
  match s with
  | EmptyString => 0
  | String "-" s' => match digits s' 0 with Some z => - z | None => 0 end
  | _ => match digits s 0 with Some z => z | None => 0 end
  end.

Definition desk_perform (c : call nat nat) (d : Desk) : Desk :=
  match c with
  | sequencer_play =>
      {| state := Playing; tempo := tempo d; volume := volume d; pattern := pattern d;
         song_number := song_number d; recording := recording d;
         metronome := metronome d; muted := muted d |}
  | sequencer_stop =>
      {| state := Ready; tempo := tempo d; volume := volume d; pattern := pattern d;
         song_number := song_number d; recording := recording d;
         metronome := metronome d; muted := muted d |}
  | setBPM v =>
      {| state := state d; tempo := Float.of_double v; volume := volume d;
         pattern := pattern d; song_number := song_number d; recording := recording d;
         metronome := metronome d; muted := muted d |}
  | setVolume v =>
      {| state := state d; tempo := tempo d; volume := Float.of_double v;
         pattern := pattern d; song_number := song_number d; recording := recording d;
         metronome := metronome d; muted := muted d |}
  | setSelectedPatternNumber n =>
      {| state := state d; tempo := tempo d; volume := volume d; pattern := n;
         song_number := song_number d; recording := recording d;
         metronome := metronome d; muted := muted d |}
  | setNextSongByNumber n =>
      {| state := state d; tempo := tempo d; volume := volume d; pattern := pattern d;
         song_number := n; recording := recording d; metronome := metronome d;
         muted := muted d |}
  | setRecordEvents b =>
      {| state := state d; tempo := tempo d; volume := volume d; pattern := pattern d;
         song_number := song_number d; recording := b; metronome := metronome d;
         muted := muted d |}
  | set_m_bUseMetronome b =>
      {| state := state d; tempo := tempo d; volume := volume d; pattern := pattern d;
         song_number := song_number d; recording := recording d; metronome := b;
         muted := muted d |}
  | setMasterIsMuted b =>
      {| state := state d; tempo := tempo d; volume := volume d; pattern := pattern d;
         song_number := song_number d; recording := recording d;
         metronome := metronome d; muted := b |}
  | _ => d
  end.

Definition desk : Host := {|
  Hydrogen := Desk;
  Instrument := nat;
  Component := nat;
  Layer := nat;
  toInt := parse;
  getState := state;
  getIsMuted := muted;
  getInstrumentList_size := fun _ => 4;
  is_valid_index := fun _ n => (0 <=? n) && (n <? 4);
  get := fun _ n => if (0 <=? n) && (n <? 3) then Some (Z.to_nat n) else None;
  is_muted := fun _ _ => false;
  is_soloed := fun _ _ => false;
  get_volume := fun _ _ => Float.of_int 1;
  getPan := fun _ _ => Float.of_int 0;
  get_component := fun _ _ n => if n =? 0 then Some 0%nat else None;
  get_layer := fun _ _ n => if n =? 0 then Some 0%nat else None;
  getPatternList_size := fun _ => 8;
  patternModePlaysSelected := fun _ => true;
  getSelectedPatternNumber := pattern;
  getBpm := tempo;
  getVolume := volume;
  getColumn := fun _ => 0;
  getActiveSongNumber := song_number;
  Playlist_size := fun _ => 3;
  getRecordEvents := recording;
  m_bUseMetronome := metronome;
  perform := desk_perform
|}.

(** The manager as constructed, the desk at rest at 120 bpm. *)
Definition at_rest : World (host:=desk) :=
  @Build_World desk MidiActionManager_MidiActionManager
    {| state := Ready; tempo := Float.of_int 120; volume := Float.of_int 1;
       pattern := 0; song_number := 0; recording := false;
       metronome := false; muted := false |}.

(** An action of a type with its first parameter and its value. *)
Definition action (type parameter1 value : string) : Action :=
  {| getType := type; getParameter1 := parameter1; getParameter2 := "0";
     getParameter3 := "0"; getValue := value |}%string.

End Midi.

(** * Floating-point arithmetic *)

(** ** Powers of two *)

Lemma bpow_gt_0 e : (0 < bpow e)%R.
Proof. apply powerRZ_lt. lra. Qed.

Lemma bpow_plus a b : bpow (a + b) = (bpow a * bpow b)%R.
Proof. apply powerRZ_add. lra. Qed.

Lemma bpow_0 : bpow 0 = 1%R.
Proof. reflexivity. Qed.

Lemma bpow_1 : bpow 1 = 2%R.
Proof. unfold bpow. simpl. lra. Qed.

Lemma bpow_opp e : bpow (- e) = (/ bpow e)%R.
Proof. apply powerRZ_neg'. Qed.

Lemma bpow_minus a b : bpow (a - b) = (bpow a / bpow b)%R.
Proof. unfold Z.sub, Rdiv. rewrite bpow_plus, bpow_opp. reflexivity. Qed.

Lemma bpow_succ e : bpow (e + 1) = (2 * bpow e)%R.
Proof. rewrite bpow_plus, bpow_1. lra. Qed.

Lemma bpow_ge_1 e : 0 <= e -> (1 <= bpow e)%R.
Proof.
  intros He. pattern e. apply natlike_ind; [rewrite bpow_0; lra| |exact He].
  intros x Hx IH. unfold Z.succ. rewrite bpow_succ. lra.
Qed.

Lemma bpow_le a b : a <= b -> (bpow a <= bpow b)%R.
Proof.
  intros H. replace b with (a + (b - a)) by lia. rewrite bpow_plus.
  pose proof (bpow_ge_1 (b - a) ltac:(lia)). pose proof (bpow_gt_0 a). nra.
Qed.

Lemma bpow_lt a b : a < b -> (bpow a < bpow b)%R.
Proof.
  intros H. replace b with (a + 1 + (b - a - 1)) by lia.
  rewrite bpow_plus, bpow_succ.
  pose proof (bpow_ge_1 (b - a - 1) ltac:(lia)). pose proof (bpow_gt_0 a). nra.
Qed.

Lemma bpow_lt_inv a b : (bpow a < bpow b)%R -> a < b.
Proof.
  intros H. destruct (Z_lt_le_dec a b) as [Hlt|Hle]; [exact Hlt|].
  apply bpow_le in Hle. lra.
Qed.

Lemma bpow_le_inv a b : (bpow a <= bpow b)%R -> a <= b.
Proof.
  intros H. destruct (Z_le_gt_dec a b) as [Hle|Hgt]; [exact Hle|].
  apply Z.gt_lt, bpow_lt in Hgt. lra.
Qed.

Lemma IZR_Zpower e : 0 <= e -> IZR (2 ^ e) = bpow e.
Proof.
  intros He. pattern e. apply natlike_ind; [reflexivity| |exact He].
  intros x Hx IH. rewrite Z.pow_succ_r by exact Hx. rewrite mult_IZR, IH.
  unfold Z.succ. rewrite bpow_succ. reflexivity.
Qed.

(** ** Digits *)

Lemma digits2_pos_size (m : positive) : digits2_pos m = Pos.size m.
Proof. induction m as [m IH|m IH|]; simpl; rewrite ?IH; reflexivity. Qed.

Lemma digits2_bounds (m : positive) :
  2 ^ (Zpos (digits2_pos m) - 1) <= Zpos m < 2 ^ Zpos (digits2_pos m).
Proof.
  rewrite digits2_pos_size. split.
  - pose proof (Pos.size_le m) as H.
    assert (H2 : Zpos (2 ^ Pos.size m) <= Zpos m~0) by exact H.
    rewrite Pos2Z.inj_pow in H2.
    replace (Zpos (Pos.size m)) with (Zpos (Pos.size m) - 1 + 1) in H2 by lia.
    rewrite Z.pow_add_r in H2 by lia. lia.
  - pose proof (Pos.size_gt m) as H.
    assert (H2 : Zpos m < Zpos (2 ^ Pos.size m)) by exact H.
    rewrite Pos2Z.inj_pow in H2. exact H2.
Qed.

Lemma Zdigits2_bounds (m : Z) :
  0 < m -> 2 ^ (Zdigits2 m - 1) <= m < 2 ^ Zdigits2 m.
Proof. destruct m as [|p|p]; try lia. intros _. apply digits2_bounds. Qed.

Lemma Zdigits2_pos (m : Z) : 0 < m -> 0 < Zdigits2 m.
Proof. destruct m; simpl; lia. Qed.

Lemma Zdigits2_unique (m d : Z) :
  2 ^ (d - 1) <= m < 2 ^ d -> 0 < m -> Zdigits2 m = d.
Proof.
  intros [Hlo Hhi] Hm. pose proof (Zdigits2_bounds m Hm) as [Hlo' Hhi'].
  pose proof (Zdigits2_pos m Hm) as Hd.
  assert (0 < d).
  { destruct (Z_lt_le_dec 0 d); [assumption|].
    assert (2 ^ d <= 2 ^ 0) by (destruct (Z.eq_dec d 0) as [->|]; [lia|rewrite Z.pow_neg_r by lia; simpl; lia]).
    simpl in *. lia. }
  destruct (Z.lt_trichotomy (Zdigits2 m) d) as [Hlt|[Heq|Hgt]]; [|exact Heq|].
  - assert (2 ^ Zdigits2 m <= 2 ^ (d - 1)) by (apply Z.pow_le_mono_r; lia). lia.
  - assert (2 ^ d <= 2 ^ (Zdigits2 m - 1)) by (apply Z.pow_le_mono_r; lia). lia.
Qed.

(** ** Shifts and locations *)

Lemma inbetween_bounds m t l : inbetween m t l -> (IZR m <= t < IZR m + 1)%R.
Proof. destruct l as [|[]]; simpl; lra. Qed.

Lemma loc_of_shr_record_of_loc m l :
  loc_of_shr_record (shr_record_of_loc m l) = l.
Proof. destruct l as [|[]]; reflexivity. Qed.

Lemma shr_m_of_loc m l : shr_m (shr_record_of_loc m l) = m.
Proof. destruct l as [|[]]; reflexivity. Qed.

Lemma shr_1_correct (mrs : shr_record) (t : R) :
  0 <= shr_m mrs ->
  inbetween (shr_m mrs) t (loc_of_shr_record mrs) ->
  shr_m (shr_1 mrs) = shr_m mrs / 2
  /\ inbetween (shr_m (shr_1 mrs)) (t / 2) (loc_of_shr_record (shr_1 mrs)).
Proof.
  destruct mrs as [m r s]. simpl shr_m at 1 2. intros Hm H.
  destruct m as [|[p|p|]|p]; try lia; clear Hm.
  - (* 0 *)
    destruct r, s; simpl in *; split; try reflexivity; lra.
  - (* 2p + 1 *)
    assert (Hp : IZR (Zpos p~1) = (2 * IZR (Zpos p) + 1)%R)
      by (rewrite Pos2Z.inj_xI, plus_IZR, mult_IZR; reflexivity).
    assert (Hd : Zpos p~1 / 2 = Zpos p)
      by (rewrite Pos2Z.inj_xI; symmetry; apply (Z.div_unique _ _ _ 1); lia).
    destruct r, s; simpl in *; rewrite ?Hp in H; (split; [symmetry; exact Hd|]); lra.
  - (* 2p *)
    assert (Hp : IZR (Zpos p~0) = (2 * IZR (Zpos p))%R)
      by (rewrite Pos2Z.inj_xO, mult_IZR; reflexivity).
    assert (Hd : Zpos p~0 / 2 = Zpos p)
      by (rewrite Pos2Z.inj_xO; symmetry; apply (Z.div_unique _ _ _ 0); lia).
    destruct r, s; simpl in *; rewrite ?Hp in H; (split; [symmetry; exact Hd|]); lra.
  - (* 1 *)
    destruct r, s; simpl in *; split; try reflexivity; lra.
Qed.

Lemma nat_iter_comm {A} (f : A -> A) (k : nat) (x : A) :
  Nat.iter k f (f x) = f (Nat.iter k f x).
Proof. induction k as [|k IH]; simpl; [reflexivity|]. rewrite IH. reflexivity. Qed.

Lemma iter_pos_nat {A} (f : A -> A) (n : positive) (x : A) :
  SpecFloat.iter_pos f n x = Nat.iter (Pos.to_nat n) f x.
Proof.
  revert x. induction n as [n IH|n IH|]; intros x; cbn [SpecFloat.iter_pos].
  - rewrite !IH, Pos2Nat.inj_xI.
    replace (S (2 * Pos.to_nat n)) with (Pos.to_nat n + S (Pos.to_nat n))%nat by lia.
    rewrite Nat.iter_add. cbn [Nat.iter]. rewrite nat_iter_comm. reflexivity.
  - rewrite !IH, Pos2Nat.inj_xO.
    replace (2 * Pos.to_nat n)%nat with (Pos.to_nat n + Pos.to_nat n)%nat by lia.
    rewrite Nat.iter_add. reflexivity.
  - reflexivity.
Qed.

Lemma iter_shr_1_correct (k : nat) (mrs : shr_record) (t : R) :
  0 <= shr_m mrs ->
  inbetween (shr_m mrs) t (loc_of_shr_record mrs) ->
  shr_m (Nat.iter k shr_1 mrs) = shr_m mrs / 2 ^ Z.of_nat k
  /\ inbetween (shr_m (Nat.iter k shr_1 mrs)) (t / bpow (Z.of_nat k))
       (loc_of_shr_record (Nat.iter k shr_1 mrs)).
Proof.
  intros Hm H. induction k as [|k [IHm IHt]].
  - change (Z.of_nat 0) with 0. change (Nat.iter 0 shr_1 mrs) with mrs.
    rewrite Z.pow_0_r, Z.div_1_r. split; [reflexivity|].
    rewrite bpow_0. replace (t / 1)%R with t by lra. exact H.
  - change (Nat.iter (S k) shr_1 mrs) with (shr_1 (Nat.iter k shr_1 mrs)).
    assert (Hk : 0 <= shr_m (Nat.iter k shr_1 mrs))
      by (rewrite IHm; apply Z.div_pos; lia).
    destruct (shr_1_correct _ _ Hk IHt) as [Hm' Ht'].
    split.
    + rewrite Hm', IHm. rewrite Nat2Z.inj_succ, Z.pow_succ_r by lia.
      rewrite Z.div_div by lia. f_equal. lia.
    + rewrite Nat2Z.inj_succ. unfold Z.succ. rewrite bpow_succ.
      replace (t / (2 * bpow (Z.of_nat k)))%R with (t / bpow (Z.of_nat k) / 2)%R.
      * exact Ht'.
      * pose proof (bpow_gt_0 (Z.of_nat k)). field. lra.
Qed.

(** Shifting a located mantissa right by [n] places. *)
Lemma shr_correct (m : Z) (l : location) (e n : Z) (t : R) :
  0 <= m -> inbetween m t l ->
  let '(mrs', e') := shr (shr_record_of_loc m l) e n in
  e' = e + Z.max n 0
  /\ shr_m mrs' = m / 2 ^ Z.max n 0
  /\ inbetween (shr_m mrs') (t / bpow (Z.max n 0)) (loc_of_shr_record mrs').
Proof.
  intros Hm H. unfold shr.
  assert (Hid : (t / bpow 0)%R = t) by (rewrite bpow_0; lra).
  destruct n as [|p|p].
  - change (Z.max 0 0) with 0.
    rewrite Z.add_0_r, Z.pow_0_r, Z.div_1_r, Hid, shr_m_of_loc,
      loc_of_shr_record_of_loc. auto.
  - rewrite Z.max_l by lia. rewrite iter_pos_nat.
    destruct (iter_shr_1_correct (Pos.to_nat p) (shr_record_of_loc m l) t) as [H1 H2].
    + rewrite shr_m_of_loc. exact Hm.
    + rewrite shr_m_of_loc, loc_of_shr_record_of_loc. exact H.
    + rewrite positive_nat_Z, shr_m_of_loc in *. auto.
  - rewrite Z.max_r by lia.
    rewrite Z.add_0_r, Z.pow_0_r, Z.div_1_r, Hid, shr_m_of_loc,
      loc_of_shr_record_of_loc. auto.
Qed.

Lemma round_nearest_even_correct m t l :
  inbetween m t l -> rne t (round_nearest_even m l).
Proof.
  unfold rne. destruct l as [|[]]; simpl; intros H.
  - split; [lra|]. intros [|]; lra.
  - destruct (Z.even m) eqn:He.
    + split; [lra|]. auto.
    + rewrite plus_IZR. split; [lra|]. intros _.
      rewrite Z.even_add, He. reflexivity.
  - split; [lra|]. intros [|]; lra.
  - rewrite plus_IZR. split; [lra|]. intros [|]; lra.
Qed.

Lemma round_nearest_even_range m l :
  m <= round_nearest_even m l <= m + 1.
Proof. destruct l as [|[]]; simpl; try lia. destruct (Z.even m); lia. Qed.

Lemma rne_monotone t1 t2 z1 z2 :
  (t1 <= t2)%R -> rne t1 z1 -> rne t2 z2 -> z1 <= z2.
Proof.
  intros Ht [[L1 U1] E1] [[L2 U2] E2].
  destruct (Z_le_gt_dec z1 z2) as [Hle|Hgt]; [exact Hle|exfalso].
  assert (Hz : (IZR z2 + 1 <= IZR z1)%R).
  { rewrite <- plus_IZR. apply IZR_le. lia. }
  assert (Ht1 : t1 = (IZR z1 - 1 / 2)%R) by lra.
  assert (Ht2 : t2 = (IZR z2 + 1 / 2)%R) by lra.
  assert (Hz' : IZR z1 = (IZR z2 + 1)%R) by lra.
  rewrite <- plus_IZR in Hz'. apply eq_IZR in Hz'.
  pose proof (E1 (or_introl Ht1)) as Ev1. pose proof (E2 (or_intror Ht2)) as Ev2.
  rewrite Hz', Z.even_add, Ev2 in Ev1. discriminate Ev1.
Qed.

Lemma rne_integer (n z : Z) : rne (IZR n) z -> z = n.
Proof.
  intros [[L U] _].
  assert (H1 : (IZR z - 1 < IZR n)%R) by lra.
  assert (H2 : (IZR n < IZR z + 1)%R) by lra.
  rewrite <- minus_IZR in H1. rewrite <- plus_IZR in H2.
  apply lt_IZR in H1, H2. lia.
Qed.

(** ** Rounding a located mantissa *)

Lemma Zdigits2_div_pow (m n : Z) :
  0 < m -> 0 <= n < Zdigits2 m -> Zdigits2 (m / 2 ^ n) = Zdigits2 m - n.
Proof.
  intros Hm Hn. pose proof (Zdigits2_bounds m Hm) as [Hlo Hhi].
  assert (Hp : 0 < 2 ^ n) by (apply Z.pow_pos_nonneg; lia).
  assert (H1 : 2 ^ (Zdigits2 m - n - 1) <= m / 2 ^ n).
  { apply Z.div_le_lower_bound; [exact Hp|].
    rewrite <- Z.pow_add_r by lia.
    replace (n + (Zdigits2 m - n - 1)) with (Zdigits2 m - 1) by lia. exact Hlo. }
  assert (H2 : m / 2 ^ n < 2 ^ (Zdigits2 m - n)).
  { apply Z.div_lt_upper_bound; [exact Hp|].
    rewrite <- Z.pow_add_r by lia.
    replace (n + (Zdigits2 m - n)) with (Zdigits2 m) by lia. exact Hhi. }
  apply Zdigits2_unique; [lia|].
  assert (0 < 2 ^ (Zdigits2 m - n - 1)) by (apply Z.pow_pos_nonneg; lia). lia.
Qed.

Lemma Zdigits2_pow (n : Z) : 0 <= n -> Zdigits2 (2 ^ n) = n + 1.
Proof.
  intros Hn. apply Zdigits2_unique.
  - replace (n + 1 - 1) with n by lia. split; [lia|].
    apply Z.pow_lt_mono_r; lia.
  - apply Z.pow_pos_nonneg; lia.
Qed.

Lemma Zdigits2_mul_pow (m n : Z) :
  0 < m -> 0 <= n -> Zdigits2 (m * 2 ^ n) = Zdigits2 m + n.
Proof.
  intros Hm Hn. pose proof (Zdigits2_bounds m Hm) as [Hlo Hhi].
  pose proof (Zdigits2_pos m Hm).
  assert (Hp : 0 < 2 ^ n) by (apply Z.pow_pos_nonneg; lia).
  apply Zdigits2_unique; [|nia].
  replace (Zdigits2 m + n - 1) with ((Zdigits2 m - 1) + n) by lia.
  rewrite !Z.pow_add_r by lia. nia.
Qed.

Lemma iter_xO (m d : positive) : Zpos (Pos.iter xO m d) = Zpos m * 2 ^ Zpos d.
Proof.
  induction d as [|d IH] using Pos.peano_ind.
  - simpl. lia.
  - rewrite Pos.iter_succ, Pos2Z.inj_xO, IH, Pos2Z.inj_succ, Z.pow_succ_r by lia. lia.
Qed.

Lemma mag_is_unique y k1 k2 : mag_is y k1 -> mag_is y k2 -> k1 = k2.
Proof.
  intros [L1 U1] [L2 U2].
  assert (H1 : k1 - 1 < k2) by (apply bpow_lt_inv; lra).
  assert (H2 : k2 - 1 < k1) by (apply bpow_lt_inv; lra).
  lia.
Qed.

Lemma mag_of_mantissa (m : Z) (t : R) (e : Z) :
  0 < m -> (IZR m <= t < IZR m + 1)%R ->
  mag_is (t * bpow e) (Zdigits2 m + e).
Proof.
  intros Hm Ht. pose proof (Zdigits2_bounds m Hm) as [Hlo Hhi].
  pose proof (Zdigits2_pos m Hm) as Hd.
  assert (Hlo' : (bpow (Zdigits2 m - 1) <= IZR m)%R)
    by (rewrite <- IZR_Zpower by lia; apply IZR_le; exact Hlo).
  assert (Hhi' : (IZR m + 1 <= bpow (Zdigits2 m))%R)
    by (rewrite <- IZR_Zpower, <- plus_IZR by lia; apply IZR_le; lia).
  unfold mag_is.
  replace (Zdigits2 m + e - 1) with ((Zdigits2 m - 1) + e) by lia.
  rewrite !bpow_plus. pose proof (bpow_gt_0 e). split; nra.
Qed.

Section Round.
Variables prec emax : Z.
Hypothesis prec_gt_0 : 0 < prec.

Let emin := 3 - emax - prec.

Lemma fexp_normal k : emin <= k - prec -> fexp prec emax k = k - prec.
Proof. unfold fexp, SpecFloat.emin. fold emin. lia. Qed.

(** The core of every operation: a located mantissa with enough digits is
    rounded to nearest even and comes back normal. *)
Lemma binary_round_aux_correct (sx : bool) (mx ex : Z) (lx : location) (t : R) :
  0 < mx -> inbetween mx t lx ->
  emin <= Zdigits2 mx + ex - prec -> Zdigits2 mx + ex < emax ->
  ex <= Zdigits2 mx + ex - prec ->
  exists m e,
    binary_round_aux prec emax sx mx ex lx = S754_finite sx m e
    /\ Zpos (digits2_pos m) = prec
    /\ rounds_to prec (t * bpow ex) (IZR (Zpos m) * bpow e).
Proof.
  intros Hmx Ht Hmin Hmax Hex.
  set (k := Zdigits2 mx + ex) in *. set (E := k - prec) in *.
  unfold binary_round_aux.
  (* the first shift *)
  unfold shr_fexp at 1. fold k. rewrite (fexp_normal k Hmin). fold E.
  pose proof (shr_correct mx lx ex (E - ex) t ltac:(lia) Ht) as H1.
  destruct (shr (shr_record_of_loc mx lx) ex (E - ex)) as [mrs1 e1].
  rewrite Z.max_l in H1 by lia. destruct H1 as (He1 & Hm1 & Ht1).
  replace (ex + (E - ex)) with E in He1 by lia. subst e1.
  set (m1 := shr_m mrs1) in *. set (l1 := loc_of_shr_record mrs1) in *.
  set (t1 := (t / bpow (E - ex))%R) in *.
  assert (Hd1 : Zdigits2 m1 = prec).
  { rewrite Hm1, Zdigits2_div_pow; [unfold E, k; lia|exact Hmx|].
    pose proof (Zdigits2_pos mx Hmx). unfold E, k in *. lia. }
  assert (Hm1pos : 0 < m1).
  { destruct (Z_lt_le_dec 0 m1) as [|Hle]; [assumption|].
    assert (0 <= m1) by (rewrite Hm1; apply Z.div_pos; [lia|apply Z.pow_pos_nonneg; lia]).
    replace m1 with 0 in Hd1 by lia. simpl in Hd1. lia. }
  pose proof (Zdigits2_bounds m1 Hm1pos) as Hb1. rewrite Hd1 in Hb1.
  assert (Hy : (t * bpow ex = t1 * bpow E)%R).
  { unfold t1. replace E with ((E - ex) + ex) at 2 by lia. rewrite bpow_plus.
    pose proof (bpow_gt_0 (E - ex)). field. lra. }
  (* rounding *)
  pose proof (round_nearest_even_correct m1 t1 l1 Ht1) as Hrne.
  pose proof (round_nearest_even_range m1 l1) as Hrange.
  set (mr := round_nearest_even m1 l1) in *.
  assert (Hround : rounds_to prec (t * bpow ex) (IZR mr * bpow E)).
  { exists k, mr. split; [|split].
    - rewrite Hy. replace k with (Zdigits2 m1 + E) by (rewrite Hd1; unfold E; lia).
      apply mag_of_mantissa; [exact Hm1pos|]. apply (inbetween_bounds _ _ _ Ht1).
    - rewrite Hy. replace (prec - k) with (- E) by (unfold E; lia).
      rewrite Rmult_assoc, <- bpow_plus, Z.add_opp_diag_r, bpow_0, Rmult_1_r.
      exact Hrne.
    - reflexivity. }
  (* the second shift *)
  unfold shr_fexp.
  destruct (Z.eq_dec mr (2 ^ prec)) as [Hcarry|Hnocarry].
  - rewrite Hcarry, Zdigits2_pow by lia.
    rewrite fexp_normal by (unfold E in *; lia).
    replace (prec + 1 + E - prec - E) with 1 by lia.
    pose proof (shr_correct (2 ^ prec) loc_Exact E 1 (IZR (2 ^ prec))
                  ltac:(lia) eq_refl) as H2.
    destruct (shr (shr_record_of_loc (2 ^ prec) loc_Exact) E 1) as [mrs2 e2].
    rewrite Z.max_l in H2 by lia. destruct H2 as (He2 & Hm2 & _).
    assert (Hm2' : shr_m mrs2 = 2 ^ (prec - 1)).
    { rewrite Hm2. replace prec with ((prec - 1) + 1) at 1 by lia.
      rewrite Z.pow_add_r by lia. simpl (2 ^ 1). apply Z.div_mul. lia. }
    rewrite Hm2', He2.
    assert (Hpp : 0 < 2 ^ (prec - 1)) by (apply Z.pow_pos_nonneg; lia).
    destruct (2 ^ (prec - 1)) as [|p|p] eqn:Hp; try lia.
    replace (E + 1 <=? emax - prec) with true
      by (symmetry; apply Z.leb_le; unfold E; lia).
    exists p, (E + 1). split; [reflexivity|]. split.
    + change (Zpos (digits2_pos p)) with (Zdigits2 (Zpos p)).
      rewrite <- Hp, Zdigits2_pow by lia. lia.
    + replace (IZR (Zpos p) * bpow (E + 1))%R with (IZR mr * bpow E)%R; [exact Hround|].
      rewrite Hcarry, <- Hp, !IZR_Zpower, <- !bpow_plus by lia. f_equal. lia.
  - assert (Hdr : Zdigits2 mr = prec) by (apply Zdigits2_unique; lia).
    rewrite Hdr. rewrite fexp_normal by (unfold E in *; lia).
    replace (prec + E - prec - E) with 0 by lia.
    unfold shr. rewrite shr_m_of_loc.
    destruct mr as [|p|p] eqn:Hp; try lia.
    replace (E <=? emax - prec) with true
      by (symmetry; apply Z.leb_le; unfold E; lia).
    exists p, E. split; [reflexivity|]. split; [exact Hdr|exact Hround].
Qed.

End Round.

(** ** The rounding relation *)

Section RoundsTo.
Variable prec : Z.
Hypothesis prec_gt_0 : 0 < prec.

Lemma scaled_bounds y k :
  mag_is y k ->
  (bpow (prec - 1) <= y * bpow (prec - k) < bpow prec)%R.
Proof.
  intros [Hlo Hhi]. pose proof (bpow_gt_0 (prec - k)) as Hp.
  assert (E1 : bpow (prec - 1) = (bpow (k - 1) * bpow (prec - k))%R)
    by (rewrite <- bpow_plus; f_equal; lia).
  assert (E2 : bpow prec = (bpow k * bpow (prec - k))%R)
    by (rewrite <- bpow_plus; f_equal; lia).
  rewrite E1, E2. split.
  - apply Rmult_le_compat_r; lra.
  - apply Rmult_lt_compat_r; lra.
Qed.

Lemma rne_scaled_bounds y k z :
  mag_is y k -> rne (y * bpow (prec - k)) z -> 2 ^ (prec - 1) <= z <= 2 ^ prec.
Proof.
  intros Hk [[L U] _]. destruct (scaled_bounds y k Hk) as [Hlo Hhi].
  rewrite <- (IZR_Zpower (prec - 1)) in Hlo by lia.
  rewrite <- (IZR_Zpower prec) in Hhi by lia.
  split.
  - assert (H : (IZR (2 ^ (prec - 1)) - 1 < IZR z)%R) by lra.
    rewrite <- minus_IZR in H. apply lt_IZR in H. lia.
  - assert (H : (IZR z < IZR (2 ^ prec) + 1)%R) by lra.
    rewrite <- plus_IZR in H. apply lt_IZR in H. lia.
Qed.

(** A rounded value stays in the binade of the number. *)
Lemma rounds_to_binade y v k :
  rounds_to prec y v -> mag_is y k -> (bpow (k - 1) <= v <= bpow k)%R.
Proof.
  intros (k' & z & Hk' & Hz & ->) Hk.
  rewrite <- (mag_is_unique y k' k Hk' Hk) in *. clear Hk.
  destruct (rne_scaled_bounds y k' z Hk' Hz) as [Hlo Hhi].
  apply IZR_le in Hlo, Hhi.
  rewrite (IZR_Zpower (prec - 1)) in Hlo by lia.
  rewrite (IZR_Zpower prec) in Hhi by lia.
  pose proof (bpow_gt_0 (k' - prec)) as Hp.
  assert (E1 : bpow (k' - 1) = (bpow (prec - 1) * bpow (k' - prec))%R)
    by (rewrite <- bpow_plus; f_equal; lia).
  assert (E2 : bpow k' = (bpow prec * bpow (k' - prec))%R)
    by (rewrite <- bpow_plus; f_equal; lia).
  rewrite E1, E2. split; apply Rmult_le_compat_r; lra.
Qed.

Lemma rounds_to_monotone y1 y2 v1 v2 :
  (y1 <= y2)%R -> rounds_to prec y1 v1 -> rounds_to prec y2 v2 -> (v1 <= v2)%R.
Proof.
  intros Hy H1 H2.
  destruct H1 as (k1 & z1 & Hk1 & Hz1 & Hv1).
  destruct H2 as (k2 & z2 & Hk2 & Hz2 & Hv2).
  assert (Hk : k1 <= k2).
  { destruct Hk1 as [L1 _], Hk2 as [_ U2].
    assert (k1 - 1 < k2) by (apply bpow_lt_inv; lra). lia. }
  destruct (Z.eq_dec k1 k2) as [<-|Hne].
  - subst v1 v2. pose proof (bpow_gt_0 (k1 - prec)) as Hp.
    pose proof (bpow_gt_0 (prec - k1)) as Hq.
    assert (Hz : z1 <= z2).
    { apply (rne_monotone (y1 * bpow (prec - k1)) (y2 * bpow (prec - k1)));
        [apply Rmult_le_compat_r; lra|assumption|assumption]. }
    apply IZR_le in Hz. nra.
  - assert (H1 : (v1 <= bpow k1)%R).
    { apply (rounds_to_binade y1 v1 k1); [exists k1, z1; auto|exact Hk1]. }
    assert (H2 : (bpow (k2 - 1) <= v2)%R).
    { apply (rounds_to_binade y2 v2 k2); [exists k2, z2; auto|exact Hk2]. }
    assert (H3 : (bpow k1 <= bpow (k2 - 1))%R) by (apply bpow_le; lia).
    lra.
Qed.

Lemma rounds_to_unique y v1 v2 :
  rounds_to prec y v1 -> rounds_to prec y v2 -> v1 = v2.
Proof.
  intros H1 H2.
  pose proof (rounds_to_monotone y y v1 v2 ltac:(lra) H1 H2).
  pose proof (rounds_to_monotone y y v2 v1 ltac:(lra) H2 H1). lra.
Qed.

(** A number that fits [prec] bits is its own rounding. *)
Lemma rounds_to_exact (n e : Z) v :
  0 < n -> Zdigits2 n <= prec ->
  rounds_to prec (IZR n * bpow e) v -> v = (IZR n * bpow e)%R.
Proof.
  intros Hn Hd (k & z & Hk & Hz & ->).
  pose proof (mag_of_mantissa n (IZR n) e Hn ltac:(lra)) as Hk'.
  rewrite (mag_is_unique _ _ _ Hk Hk') in *. clear Hk Hk'.
  set (d := Zdigits2 n) in *.
  assert (Ht : (IZR n * bpow e * bpow (prec - (d + e)) = IZR (n * 2 ^ (prec - d)))%R).
  { rewrite mult_IZR, IZR_Zpower by lia.
    rewrite Rmult_assoc, <- bpow_plus. do 2 f_equal. lia. }
  rewrite Ht in Hz. apply rne_integer in Hz. subst z.
  rewrite mult_IZR, IZR_Zpower by lia.
  rewrite Rmult_assoc, <- bpow_plus. do 2 f_equal. lia.
Qed.

Lemma rounds_to_bounds y v a b :
  rounds_to prec y v -> (bpow a <= y <= bpow b)%R -> (bpow a <= v <= bpow b)%R.
Proof.
  intros Hr [Ha Hb].
  destruct Hr as (k & z & Hk & Hz & Hv).
  assert (Hr : rounds_to prec y v) by (exists k, z; auto).
  pose proof (rounds_to_binade y v k Hr Hk) as [Hlo Hhi].
  destruct Hk as [L U].
  assert (a < k) by (apply bpow_lt_inv; lra).
  assert (Hkb : k - 1 <= b) by (apply bpow_le_inv; lra).
  split.
  - assert (bpow a <= bpow (k - 1))%R by (apply bpow_le; lia). lra.
  - destruct (Z.eq_dec (k - 1) b) as [Heq|Hne].
    + (* y is the power of two itself *)
      assert (Hy : y = (IZR 1 * bpow b)%R) by (rewrite <- Heq in *; lra).
      rewrite Hy in Hr.
      rewrite (rounds_to_exact 1 b v ltac:(lia) ltac:(simpl; lia) Hr). lra.
    + assert (bpow k <= bpow b)%R by (apply bpow_le; lia). lra.
Qed.

End RoundsTo.

(** ** The operations *)

Lemma Zdigits2_ge (m p : Z) : 0 < m -> 2 ^ (p - 1) <= m -> p <= Zdigits2 m.
Proof.
  intros Hm Hp. pose proof (Zdigits2_bounds m Hm) as [_ Hhi].
  pose proof (Zdigits2_pos m Hm).
  destruct (Z_le_gt_dec p (Zdigits2 m)) as [|Hgt]; [assumption|].
  assert (2 ^ Zdigits2 m <= 2 ^ (p - 1)) by (apply Z.pow_le_mono_r; lia). lia.
Qed.

Lemma inbetween_shift (q : Z) (t : R) (l : location) :
  inbetween 0 t l -> inbetween q (IZR q + t) l.
Proof. destruct l as [|[]]; simpl; lra. Qed.

Lemma new_location_correct (nb k : Z) :
  0 < nb -> 0 <= k < nb -> inbetween 0 (IZR k / IZR nb) (new_location nb k).
Proof.
  intros Hnb Hk.
  assert (Hnb' : (0 < IZR nb)%R) by (apply IZR_lt; exact Hnb).
  assert (Hk0 : (0 <= IZR k)%R) by (apply IZR_le; lia).
  assert (Hk1 : (IZR k < IZR nb)%R) by (apply IZR_lt; lia).
  assert (Hlt : forall a b : Z, a < b -> (IZR a < IZR b)%R) by (intros; apply IZR_lt; assumption).
  assert (Hdiv : forall c : R, (c * IZR nb < IZR k -> c < IZR k / IZR nb)%R).
  { intros c Hc. apply Rmult_lt_reg_r with (IZR nb); [exact Hnb'|].
    unfold Rdiv. rewrite Rmult_assoc, Rinv_l by lra. lra. }
  assert (Hdiv' : forall c : R, (IZR k < c * IZR nb -> IZR k / IZR nb < c)%R).
  { intros c Hc. apply Rmult_lt_reg_r with (IZR nb); [exact Hnb'|].
    unfold Rdiv. rewrite Rmult_assoc, Rinv_l by lra. lra. }
  unfold new_location.
  destruct (Z.even nb) eqn:Hev; [unfold new_location_even|unfold new_location_odd];
    (destruct (Z.eqb_spec k 0) as [->|Hk']; [simpl; unfold Rdiv; lra|]).
  - assert (Hkpos : (0 < IZR k)%R) by (apply IZR_lt; lia).
    destruct (Z.compare_spec (2 * k) nb) as [Heq|Hl|Hg]; simpl.
    + rewrite <- Heq, mult_IZR. field. lra.
    + apply Hlt in Hl. rewrite mult_IZR in Hl. split; [apply Hdiv; lra|apply Hdiv'; lra].
    + apply Hlt in Hg. rewrite mult_IZR in Hg. split; [apply Hdiv; lra|apply Hdiv'; lra].
  - assert (Hkpos : (0 < IZR k)%R) by (apply IZR_lt; lia).
    assert (Hodd : 2 * k <> nb).
    { intros <-. rewrite Z.even_mul in Hev. discriminate Hev. }
    destruct (Z.compare_spec (2 * k + 1) nb) as [Heq|Hl|Hg]; simpl.
    + assert (Hl : 2 * k < nb) by lia. apply Hlt in Hl. rewrite mult_IZR in Hl.
      split; [apply Hdiv; lra|apply Hdiv'; lra].
    + assert (Hl' : 2 * k < nb) by lia. apply Hlt in Hl'. rewrite mult_IZR in Hl'.
      split; [apply Hdiv; lra|apply Hdiv'; lra].
    + assert (Hg' : nb < 2 * k) by lia. apply Hlt in Hg'. rewrite mult_IZR in Hg'.
      split; [apply Hdiv; lra|apply Hdiv'; lra].
Qed.

Lemma shifted_mantissa (m s : Z) :
  0 < s ->
  match s with
  | Zpos _ => Z.shiftl m s
  | Z0 => m
  | Zneg _ => 0
  end = m * 2 ^ s.
Proof. intros Hs. destruct s; try lia. apply Z.shiftl_mul_pow2. lia. Qed.

Section Operations.
Variables prec emax : Z.
Hypothesis prec_gt_0 : 0 < prec.

Lemma round_correct (mx ex : Z) (lx : location) (t : R) :
  0 < mx -> inbetween mx t lx -> prec <= Zdigits2 mx ->
  in_range emax (t * bpow ex) ->
  exists v,
    finite_pos prec (binary_round_aux prec emax false mx ex lx) v
    /\ rounds_to prec (t * bpow ex) v.
Proof.
  intros Hmx Ht Hd [Hlo Hhi].
  pose proof (mag_of_mantissa mx t ex Hmx (inbetween_bounds _ _ _ Ht)) as [L U].
  assert (3 - emax < Zdigits2 mx + ex) by (apply bpow_lt_inv; lra).
  assert (Zdigits2 mx + ex - 1 < emax - 1) by (apply bpow_lt_inv; lra).
  destruct (binary_round_aux_correct prec emax prec_gt_0 false mx ex lx t)
    as (m & e & Heq & Hdig & Hround); try assumption; try lia.
  exists (IZR (Zpos m) * bpow e)%R. split; [|exact Hround].
  exists m, e. auto.
Qed.

Lemma binary_round_correct (mx : positive) (ex : Z) :
  in_range emax (IZR (Zpos mx) * bpow ex) ->
  exists v,
    finite_pos prec (binary_round prec emax false mx ex) v
    /\ rounds_to prec (IZR (Zpos mx) * bpow ex) v.
Proof.
  intros Hr. unfold binary_round.
  pose proof Hr as [Hlo Hhi].
  pose proof (mag_of_mantissa (Zpos mx) (IZR (Zpos mx)) ex ltac:(lia) ltac:(lra))
    as [L U].
  change (Zdigits2 (Zpos mx)) with (Zpos (digits2_pos mx)) in L, U.
  set (d := Zpos (digits2_pos mx)) in *.
  assert (3 - emax < d + ex) by (apply bpow_lt_inv; lra).
  rewrite (fexp_normal prec emax) by lia.
  unfold shl_align.
  destruct (d + ex - prec - ex) as [|p|p] eqn:Hs.
  - apply (round_correct (Zpos mx) ex loc_Exact (IZR (Zpos mx)));
      [lia|reflexivity|change (Zdigits2 (Zpos mx)) with d; lia|exact Hr].
  - apply (round_correct (Zpos mx) ex loc_Exact (IZR (Zpos mx)));
      [lia|reflexivity|change (Zdigits2 (Zpos mx)) with d; lia|exact Hr].
  - assert (Hv : (IZR (Zpos mx) * bpow ex
                  = IZR (Zpos (Pos.iter xO mx p)) * bpow (d + ex - prec))%R).
    { rewrite iter_xO, mult_IZR, IZR_Zpower by lia.
      rewrite Rmult_assoc, <- bpow_plus. do 2 f_equal. lia. }
    rewrite Hv in *.
    apply (round_correct (Zpos (Pos.iter xO mx p)) (d + ex - prec) loc_Exact
             (IZR (Zpos (Pos.iter xO mx p)))); [lia|reflexivity| |exact Hr].
    rewrite iter_xO, Zdigits2_mul_pow by lia.
    change (Zdigits2 (Zpos mx)) with d. lia.
Qed.

Lemma finite_pos_mantissa x v :
  finite_pos prec x v ->
  exists m e, x = S754_finite false m e /\ v = (IZR (Zpos m) * bpow e)%R
              /\ 2 ^ (prec - 1) <= Zpos m < 2 ^ prec.
Proof.
  intros (m & e & -> & Hd & ->). exists m, e. split; [reflexivity|].
  split; [reflexivity|]. rewrite <- Hd. apply digits2_bounds.
Qed.

Lemma mul_correct x y vx vy :
  finite_pos prec x vx -> finite_pos prec y vy -> in_range emax (vx * vy) ->
  exists v,
    finite_pos prec (SFmul prec emax x y) v /\ rounds_to prec (vx * vy) v.
Proof.
  intros Hx Hy Hr.
  destruct (finite_pos_mantissa x vx Hx) as (mx & ex & -> & -> & Hmx).
  destruct (finite_pos_mantissa y vy Hy) as (my & ey & -> & -> & Hmy).
  cbn [SFmul xorb].
  assert (Hp : 0 < 2 ^ (prec - 1)) by (apply Z.pow_pos_nonneg; lia).
  assert (Hv : (IZR (Zpos mx) * bpow ex * (IZR (Zpos my) * bpow ey)
                = IZR (Zpos (mx * my)) * bpow (ex + ey))%R).
  { rewrite Pos2Z.inj_mul, mult_IZR, bpow_plus. ring. }
  rewrite Hv in *.
  apply (round_correct (Zpos (mx * my)) (ex + ey) loc_Exact (IZR (Zpos (mx * my))));
    [lia|reflexivity| |exact Hr].
  apply Zdigits2_ge; [lia|]. rewrite Pos2Z.inj_mul. nia.
Qed.

Lemma div_correct x y vx vy :
  finite_pos prec x vx -> finite_pos prec y vy -> in_range emax (vx / vy) ->
  exists v,
    finite_pos prec (SFdiv prec emax x y) v /\ rounds_to prec (vx / vy) v.
Proof.
  intros Hx Hy Hr.
  destruct Hx as (m1 & e1 & -> & Hd1 & ->).
  destruct Hy as (m2 & e2 & -> & Hd2 & ->).
  pose proof (digits2_bounds m1) as Hb1. pose proof (digits2_bounds m2) as Hb2.
  rewrite Hd1 in Hb1. rewrite Hd2 in Hb2.
  assert (Hp : 0 < 2 ^ (prec - 1)) by (apply Z.pow_pos_nonneg; lia).
  assert (Hpp : 2 ^ prec = 2 * 2 ^ (prec - 1)).
  { replace prec with ((prec - 1) + 1) at 1 by lia. rewrite Z.pow_add_r by lia. lia. }
  cbn [SFdiv xorb]. unfold SFdiv_core_binary.
  change (Zdigits2 (Zpos m1)) with (Zpos (digits2_pos m1)).
  change (Zdigits2 (Zpos m2)) with (Zpos (digits2_pos m2)).
  rewrite Hd1, Hd2.
  replace (prec + e1 - (prec + e2)) with (e1 - e2) by lia.
  (* the quotient lies in the binades [e1 - e2] and [e1 - e2 + 1] *)
  set (y := (IZR (Zpos m1) * bpow e1 / (IZR (Zpos m2) * bpow e2))%R) in *.
  assert (Hm1 : (IZR (2 ^ (prec - 1)) <= IZR (Zpos m1) < IZR (2 ^ prec))%R)
    by (split; [apply IZR_le|apply IZR_lt]; lia).
  assert (Hm2 : (IZR (2 ^ (prec - 1)) <= IZR (Zpos m2) < IZR (2 ^ prec))%R)
    by (split; [apply IZR_le|apply IZR_lt]; lia).
  assert (Hpr : IZR (2 ^ prec) = (2 * IZR (2 ^ (prec - 1)))%R)
    by (rewrite Hpp, mult_IZR; reflexivity).
  assert (Hp' : (0 < IZR (2 ^ (prec - 1)))%R) by (apply IZR_lt; exact Hp).
  assert (Hy : y = (IZR (Zpos m1) / IZR (Zpos m2) * bpow (e1 - e2))%R).
  { unfold y. rewrite bpow_minus. pose proof (bpow_gt_0 e2). field. lra. }
  assert (Hyhi : (y < bpow (e1 - e2 + 1))%R).
  { rewrite Hy, bpow_succ. pose proof (bpow_gt_0 (e1 - e2)).
    assert (IZR (Zpos m1) / IZR (Zpos m2) < 2)%R.
    { apply Rmult_lt_reg_r with (IZR (Zpos m2)); [lra|].
      unfold Rdiv. rewrite Rmult_assoc, Rinv_l by lra. lra. }
    nra. }
  destruct Hr as [Hlo Hhi].
  assert (3 - emax < e1 - e2 + 1) by (apply bpow_lt_inv; lra).
  rewrite (fexp_normal prec emax) by lia.
  rewrite Z.min_l by lia.
  replace (e1 - e2 - (e1 - e2 - prec)) with prec by lia.
  rewrite shifted_mantissa by lia.
  pose proof (Z_div_mod (Zpos m1 * 2 ^ prec) (Zpos m2) ltac:(lia)) as Hdm.
  destruct (Z.div_eucl (Zpos m1 * 2 ^ prec) (Zpos m2)) as [q r].
  destruct Hdm as [Hdiv Hrem].
  assert (Hq : 2 ^ (prec - 1) <= q).
  { assert (2 ^ (prec - 1) * Zpos m2 <= Zpos m1 * 2 ^ prec) by nia.
    destruct (Z_le_gt_dec (2 ^ (prec - 1)) q) as [|Hgt]; [assumption|]. nia. }
  set (t := (IZR q + IZR r / IZR (Zpos m2))%R).
  assert (Ht : inbetween q t (new_location (Zpos m2) r))
    by (apply inbetween_shift, new_location_correct; lia).
  assert (Hty : (t * bpow (e1 - e2 - prec))%R = y).
  { rewrite Hy. unfold t.
    replace (IZR q + IZR r / IZR (Zpos m2))%R
      with (IZR (Zpos m1 * 2 ^ prec) / IZR (Zpos m2))%R.
    - rewrite mult_IZR, IZR_Zpower by lia.
      replace (e1 - e2) with (prec + (e1 - e2 - prec)) at 2 by lia.
      rewrite (bpow_plus prec). field. lra.
    - rewrite Hdiv, plus_IZR, mult_IZR. field. lra. }
  rewrite <- Hty.
  apply (round_correct q (e1 - e2 - prec) _ t); [lia|exact Ht| |].
  - apply Zdigits2_ge; lia.
  - rewrite Hty. split; assumption.
Qed.

End Operations.

(** ** Dropping the fraction *)

Lemma trunc_floor (m : positive) (e : Z) :
  exists z, Float.trunc (S754_finite false m e) = Some z
            /\ 0 <= z
            /\ (IZR z <= IZR (Zpos m) * bpow e < IZR z + 1)%R.
Proof.
  unfold Float.trunc. cbn [cond_Zopp].
  destruct (Z.leb_spec 0 e) as [He|He].
  - exists (Zpos m * 2 ^ e). split; [reflexivity|].
    assert (0 < 2 ^ e) by (apply Z.pow_pos_nonneg; lia).
    split; [lia|].
    rewrite mult_IZR, IZR_Zpower by lia. lra.
  - exists (Zpos m / 2 ^ (- e)). split; [reflexivity|].
    assert (Hp : 0 < 2 ^ (- e)) by (apply Z.pow_pos_nonneg; lia).
    split; [apply Z.div_pos; lia|].
    pose proof (Z.mul_div_le (Zpos m) (2 ^ (- e)) Hp) as H1.
    pose proof (Z.mul_succ_div_gt (Zpos m) (2 ^ (- e)) Hp) as H2.
    apply IZR_le in H1. apply IZR_lt in H2.
    unfold Z.succ in H2. rewrite mult_IZR in H1, H2. rewrite plus_IZR in H2.
    rewrite IZR_Zpower in H1, H2 by lia.
    pose proof (bpow_gt_0 (- e)) as Hb.
    set (v := (IZR (Zpos m) * bpow e)%R).
    assert (Hv : (v * bpow (- e))%R = IZR (Zpos m)).
    { unfold v. rewrite Rmult_assoc, <- bpow_plus, Z.add_opp_diag_r, bpow_0. lra. }
    rewrite <- Hv in H1, H2. split; nra.
Qed.

(** ** The percentage of line 228 *)

Lemma bpow_nonneg_val (n : Z) : 0 <= n -> bpow n = IZR (2 ^ n).
Proof. intros. symmetry. apply IZR_Zpower. assumption. Qed.

Lemma bpow_neg_val (n : Z) : 0 <= n -> bpow (- n) = (/ IZR (2 ^ n))%R.
Proof. intros. rewrite bpow_opp, bpow_nonneg_val by assumption. reflexivity. Qed.

Lemma in_range_32 (y : R) : (bpow (-125) <= y < bpow 127)%R -> in_range Float.emax32 y.
Proof. intros H. exact H. Qed.

Lemma in_range_64 (y : R) : (bpow (-1021) <= y < bpow 1023)%R -> in_range Float.emax64 y.
Proof. intros H. exact H. Qed.

Lemma of_int_correct (i : Z) :
  1 <= i <= INT_MAX ->
  exists v, finite_pos Float.prec32 (Float.of_int i) v
            /\ rounds_to Float.prec32 (IZR i) v
            /\ (1 <= v <= bpow 31)%R.
Proof.
  intros Hi. destruct i as [|p|p]; try lia.
  assert (Hb : (bpow 0 <= IZR (Zpos p) <= bpow 31)%R).
  { rewrite bpow_0, (bpow_nonneg_val 31) by lia.
    split; apply IZR_le; unfold INT_MAX in Hi; [lia|]. change (2 ^ 31) with 2147483648. lia. }
  destruct (binary_round_correct Float.prec32 Float.emax32 ltac:(reflexivity) p 0)
    as (v & Hf & Hr).
  - apply in_range_32. rewrite bpow_0, Rmult_1_r.
    pose proof (bpow_le (-125) 0 ltac:(lia)). pose proof (bpow_lt 31 127 ltac:(lia)).
    lra.
  - rewrite bpow_0, Rmult_1_r in Hr.
    exists v. split; [exact Hf|]. split; [exact Hr|].
    rewrite <- bpow_0. apply (rounds_to_bounds Float.prec32 ltac:(reflexivity) _ _ _ _ Hr Hb).
Qed.

Lemma hundred_correct : finite_pos Float.prec64 (Float.double_of_int 100) 100.
Proof.
  exists 7036874417766400%positive, (-46). split; [reflexivity|]. split; [reflexivity|].
  change (Zpos 7036874417766400) with (100 * 2 ^ 46).
  rewrite mult_IZR, IZR_Zpower by lia.
  rewrite Rmult_assoc, <- bpow_plus. change (46 + -46) with 0. rewrite bpow_0. lra.
Qed.

Lemma to_double_correct (x : Float.float) (v : R) :
  finite_pos Float.prec32 x v -> (bpow (-1021) <= v < bpow 1023)%R ->
  finite_pos Float.prec64 (Float.to_double x) v.
Proof.
  intros (m & e & -> & Hd & ->) Hv. cbn [Float.to_double].
  destruct (binary_round_correct Float.prec64 Float.emax64 ltac:(reflexivity) m e
              (in_range_64 _ Hv)) as (v' & Hf & Hr).
  assert (Hv' : v' = (IZR (Zpos m) * bpow e)%R).
  { assert (Hd' : Zdigits2 (Zpos m) <= Float.prec64).
    { change (Zdigits2 (Zpos m)) with (Zpos (digits2_pos m)). rewrite Hd.
      unfold Float.prec32, Float.prec64. lia. }
    exact (rounds_to_exact Float.prec64 (Zpos m) e v' eq_refl Hd' Hr). }
  rewrite <- Hv'. exact Hf.
Qed.

Lemma of_double_correct (x : Float.double) (v : R) :
  finite_pos Float.prec64 x v -> (bpow (-125) <= v < bpow 127)%R ->
  exists v', finite_pos Float.prec32 (Float.of_double x) v'
             /\ rounds_to Float.prec32 v v'.
Proof.
  intros (m & e & -> & Hd & ->) Hv. cbn [Float.of_double].
  apply (binary_round_correct Float.prec32 Float.emax32 ltac:(reflexivity) m e
           (in_range_32 _ Hv)).
Qed.

Lemma fPercent_correct (i N : Z) :
  1 <= i <= INT_MAX -> 1 <= N <= INT_MAX ->
  exists F, finite_pos Float.prec32 (fPercent i N) F /\ percent_value i N F.
Proof.
  intros Hi HN. unfold fPercent.
  destruct (of_int_correct i Hi) as (A & HfA & HrA & HbA).
  destruct (of_int_correct N HN) as (B & HfB & HrB & HbB).
  pose proof (bpow_gt_0 31) as H31.
  assert (Hquot : (bpow (-31) <= A / B <= bpow 31)%R).
  { replace (bpow (-31)) with (/ bpow 31)%R by (symmetry; exact (bpow_opp 31)).
    split.
    - apply Rmult_le_reg_r with B; [lra|].
      unfold Rdiv. rewrite Rmult_assoc, Rinv_l by lra.
      apply Rmult_le_reg_l with (bpow 31); [lra|].
      rewrite <- Rmult_assoc, Rinv_r by lra. nra.
    - apply Rmult_le_reg_r with B; [lra|].
      unfold Rdiv. rewrite Rmult_assoc, Rinv_l by lra. nra. }
  pose proof (bpow_le (-125) (-31) ltac:(lia)) as E1.
  pose proof (bpow_lt 31 127 ltac:(lia)) as E2.
  pose proof (bpow_le (-1021) (-31) ltac:(lia)) as E3.
  pose proof (bpow_lt 38 1023 ltac:(lia)) as E4.
  pose proof (bpow_lt 38 127 ltac:(lia)) as E5.
  pose proof (bpow_lt 31 38 ltac:(lia)) as E6.
  pose proof (bpow_gt_0 (-31)) as E7.
  destruct (div_correct Float.prec32 Float.emax32 ltac:(reflexivity)
              (Float.of_int i) (Float.of_int N) A B HfA HfB)
    as (Q & HfQ & HrQ); [apply in_range_32; lra|].
  pose proof (rounds_to_bounds Float.prec32 ltac:(reflexivity) _ _ _ _ HrQ Hquot) as HbQ.
  assert (HfD : finite_pos Float.prec64
                  (Float.to_double (Float.div (Float.of_int i) (Float.of_int N))) Q)
    by (apply to_double_correct; [exact HfQ|lra]).
  assert (H38 : bpow 38 = (bpow 31 * 128)%R).
  { replace 38 with (31 + 7) by lia. rewrite bpow_plus. f_equal.
    rewrite (bpow_nonneg_val 7) by lia. reflexivity. }
  assert (Hprod : (bpow (-31) <= Q * 100 <= bpow 38)%R) by (rewrite H38; nra).
  destruct (mul_correct Float.prec64 Float.emax64 ltac:(reflexivity) _ _ Q 100
              HfD hundred_correct)
    as (P & HfP & HrP); [apply in_range_64; lra|].
  pose proof (rounds_to_bounds Float.prec64 ltac:(reflexivity) _ _ _ _ HrP Hprod) as HbP.
  destruct (of_double_correct _ P HfP) as (F & HfF & HrF); [lra|].
  exists F. split; [exact HfF|].
  exists A, B, Q, P. repeat split; try assumption; lra.
Qed.

Lemma Zdigits2_le (m p : Z) : 0 < m -> m < 2 ^ p -> Zdigits2 m <= p.
Proof.
  intros Hm Hp. pose proof (Zdigits2_bounds m Hm) as [Hlo _].
  pose proof (Zdigits2_pos m Hm).
  destruct (Z_le_gt_dec (Zdigits2 m) p) as [|Hgt]; [assumption|].
  assert (0 <= p).
  { destruct (Z_lt_le_dec p 0); [|assumption]. rewrite Z.pow_neg_r in Hp by lia. lia. }
  assert (2 ^ p <= 2 ^ (Zdigits2 m - 1)) by (apply Z.pow_le_mono_r; lia). lia.
Qed.

Lemma rounds_to_representable (prec n e : Z) :
  0 < n -> Zdigits2 n <= prec ->
  rounds_to prec (IZR n * bpow e) (IZR n * bpow e).
Proof.
  intros Hn Hd. exists (Zdigits2 n + e), (n * 2 ^ (prec - Zdigits2 n)).
  split; [apply mag_of_mantissa; [exact Hn|lra]|].
  assert (Ht : (IZR n * bpow e * bpow (prec - (Zdigits2 n + e))
                = IZR (n * 2 ^ (prec - Zdigits2 n)))%R).
  { rewrite mult_IZR, IZR_Zpower by lia.
    rewrite Rmult_assoc, <- bpow_plus. do 2 f_equal. lia. }
  split.
  - rewrite Ht. split; [lra|]. intros [|]; lra.
  - rewrite mult_IZR, IZR_Zpower by lia.
    rewrite Rmult_assoc, <- bpow_plus. do 2 f_equal. lia.
Qed.

Lemma rounds_to_integer (prec n : Z) (v : R) :
  0 < n -> Zdigits2 n <= prec -> rounds_to prec (IZR n) v -> v = IZR n.
Proof.
  intros Hn Hd Hr.
  replace (IZR n) with (IZR n * bpow 0)%R in * by (rewrite bpow_0; lra).
  apply rounds_to_exact with prec; assumption.
Qed.

Lemma rounds_to_le_integer (prec n : Z) (y v : R) :
  0 < prec -> 0 < n -> Zdigits2 n <= prec ->
  (y <= IZR n)%R -> rounds_to prec y v -> (v <= IZR n)%R.
Proof.
  intros Hp Hn Hd Hy Hr.
  apply (rounds_to_monotone prec Hp y (IZR n) v (IZR n) Hy Hr).
  replace (IZR n) with (IZR n * bpow 0)%R by (rewrite bpow_0; lra).
  apply rounds_to_representable; assumption.
Qed.

Section Percent.
Variables i N : Z.
Hypothesis Hi : 1 <= i <= N.
Hypothesis HN : N <= INT_MAX.

Lemma percent_value_le_100 F : percent_value i N F -> (F <= 100)%R.
Proof.
  intros (A & B & Q & P & HA & HB & HbA & HbB & HQ & HP & HF).
  assert (HAB : (A <= B)%R).
  { apply (rounds_to_monotone Float.prec32 eq_refl (IZR i) (IZR N)); try assumption.
    apply IZR_le. lia. }
  assert (Hq : (A / B <= 1)%R).
  { apply Rmult_le_reg_r with B; [lra|].
    unfold Rdiv. rewrite Rmult_assoc, Rinv_l by lra. lra. }
  assert (HQ1 : (Q <= 1)%R).
  { apply (rounds_to_le_integer Float.prec32 1 (A / B));
      [reflexivity|reflexivity|vm_compute; discriminate|exact Hq|exact HQ]. }
  assert (HP1 : (P <= 100)%R).
  { apply (rounds_to_le_integer Float.prec64 100 (Q * 100));
      [reflexivity|reflexivity|vm_compute; discriminate|lra|exact HP]. }
  apply (rounds_to_le_integer Float.prec32 100 P);
    [reflexivity|reflexivity|vm_compute; discriminate|exact HP1|exact HF].
Qed.

Lemma percent_value_final F : percent_value N N F -> F = 100%R.
Proof.
  intros (A & B & Q & P & HA & HB & HbA & HbB & HQ & HP & HF).
  assert (HAB : A = B) by (apply (rounds_to_unique Float.prec32 eq_refl (IZR N)); assumption).
  subst B.
  replace (A / A)%R with (IZR 1) in HQ by (field; lra).
  apply (rounds_to_integer Float.prec32 1) in HQ;
    [|reflexivity|vm_compute; discriminate].
  subst Q. replace (1 * 100)%R with (IZR 100) in HP by lra.
  apply (rounds_to_integer Float.prec64 100) in HP;
    [|reflexivity|vm_compute; discriminate].
  subst P.
  apply (rounds_to_integer Float.prec32 100) in HF;
    [exact HF|reflexivity|vm_compute; discriminate].
Qed.

End Percent.

Lemma percent_value_monotone (i j N : Z) (F1 F2 : R) :
  1 <= i <= j -> percent_value i N F1 -> percent_value j N F2 -> (F1 <= F2)%R.
Proof.
  intros Hij (A1 & B1 & Q1 & P1 & HA1 & HB1 & HbA1 & HbB1 & HQ1 & HP1 & HF1)
             (A2 & B2 & Q2 & P2 & HA2 & HB2 & HbA2 & HbB2 & HQ2 & HP2 & HF2).
  assert (HB : B1 = B2) by (apply (rounds_to_unique Float.prec32 eq_refl (IZR N)); assumption).
  subst B2.
  assert (HA : (A1 <= A2)%R).
  { apply (rounds_to_monotone Float.prec32 eq_refl (IZR i) (IZR j)); try assumption.
    apply IZR_le. lia. }
  assert (Hq : (A1 / B1 <= A2 / B1)%R).
  { unfold Rdiv. apply Rmult_le_compat_r; [|exact HA].
    apply Rlt_le, Rinv_0_lt_compat. lra. }
  assert (HQ : (Q1 <= Q2)%R)
    by (apply (rounds_to_monotone Float.prec32 eq_refl _ _ _ _ Hq); assumption).
  assert (HP : (P1 <= P2)%R)
    by (apply (rounds_to_monotone Float.prec64 eq_refl (Q1 * 100) (Q2 * 100));
        [lra|assumption|assumption]).
  apply (rounds_to_monotone Float.prec32 eq_refl _ _ _ _ HP); assumption.
Qed.

Lemma rounds_to_of_small_int (n : Z) (v : R) :
  1 <= n <= 2 ^ 24 -> rounds_to Float.prec32 (IZR n) v -> v = IZR n.
Proof.
  intros Hn Hr. destruct (Z.eq_dec n (2 ^ 24)) as [->|Hne].
  - change (IZR (2 ^ 24)) with (IZR 16777216) in *.
    replace (IZR 16777216) with (IZR 1 * bpow 24)%R in *
      by (rewrite (bpow_nonneg_val 24) by lia; change (2 ^ 24) with 16777216; lra).
    apply (rounds_to_exact Float.prec32 1 24); [reflexivity|vm_compute; discriminate|exact Hr].
  - apply (rounds_to_integer Float.prec32 n); [lia| |exact Hr].
    apply Zdigits2_le; [lia|]. unfold Float.prec32. lia.
Qed.

(** Before the last of at most 2^24 columns the value stays under 100. *)
Lemma percent_value_lt_100 (i N : Z) (F : R) :
  1 <= i < N -> N <= 2 ^ 24 -> percent_value i N F -> (F < 100)%R.
Proof.
  intros Hi HN (A & B & Q & P & HA & HB & HbA & HbB & HQ & HP & HF).
  apply rounds_to_of_small_int in HA; [|lia]. apply rounds_to_of_small_int in HB; [|lia].
  subst A B.
  assert (HiN : (IZR i + 1 <= IZR N)%R) by (rewrite <- plus_IZR; apply IZR_le; lia).
  assert (HN' : (IZR N <= 16777216)%R) by (apply IZR_le; change (2 ^ 24) with 16777216 in HN; lia).
  assert (Hi' : (1 <= IZR i)%R) by (apply IZR_le; lia).
  assert (E24 : bpow (-24) = (/ 16777216)%R) by (exact (bpow_neg_val 24 ltac:(lia))).
  assert (E17 : bpow (-17) = (/ 131072)%R) by (exact (bpow_neg_val 17 ltac:(lia))).
  (* the quotient *)
  assert (Hq : (IZR i / IZR N <= IZR 16777215 * bpow (-24))%R).
  { rewrite E24. apply Rmult_le_reg_r with (IZR N); [lra|].
    unfold Rdiv. rewrite Rmult_assoc, Rinv_l by lra. lra. }
  assert (HQ1 : (Q <= IZR 16777215 * bpow (-24))%R).
  { apply (rounds_to_monotone Float.prec32 eq_refl _ _ _ _ Hq HQ).
    apply rounds_to_representable; [reflexivity|vm_compute; discriminate]. }
  (* the product with 100 *)
  assert (HP1 : (P <= IZR 1677721500 * bpow (-24))%R).
  { apply (rounds_to_monotone Float.prec64 eq_refl (Q * 100) (IZR 1677721500 * bpow (-24)));
      [rewrite E24 in *; lra|exact HP|].
    apply rounds_to_representable; [reflexivity|vm_compute; discriminate]. }
  (* back to single precision *)
  assert (HF1 : (F <= IZR 13107199 * bpow (-17))%R).
  { apply (rounds_to_monotone Float.prec32 eq_refl _ _ _ _ HP1 HF).
    exists 7, 13107199. split; [|split].
    - unfold mag_is. change (7 - 1) with 6.
      rewrite (bpow_nonneg_val 6), (bpow_nonneg_val 7), E24 by lia.
      change (2 ^ 6) with 64. change (2 ^ 7) with 128. lra.
    - change (Float.prec32 - 7) with 17.
      rewrite (bpow_nonneg_val 17), E24 by lia. change (2 ^ 17) with 131072.
      split; [lra|]. intros [|]; lra.
    - reflexivity. }
  rewrite E17 in HF1. lra.
Qed.

(** ** The percentage pushed after a column *)

Lemma progress_percent_floor (patternPosition nColumns : Z) :
  0 <= patternPosition < nColumns -> nColumns <= INT_MAX ->
  exists (p : Z) (F : R),
    progress_percent patternPosition nColumns = Some p
    /\ percent_value (patternPosition + 1) nColumns F
    /\ (IZR p <= F < IZR p + 1)%R
    /\ 0 <= p <= 100.
Proof.
  intros Hpos Hmax.
  destruct (fPercent_correct (patternPosition + 1) nColumns ltac:(lia) ltac:(lia))
    as (F & (m & e & Hx & _ & HF) & Hv).
  pose proof (percent_value_le_100 (patternPosition + 1) nColumns ltac:(lia) F Hv) as H100.
  destruct (trunc_floor m e) as (p & Ht & Hp0 & Hp).
  rewrite <- HF in Hp.
  assert (Hp100 : p <= 100).
  { assert (H : (IZR p < IZR 101)%R) by lra. apply lt_IZR in H. lia. }
  exists p, F. split; [|auto].
  unfold progress_percent. fold (fPercent (patternPosition + 1) nColumns).
  rewrite Hx. unfold Float.to_int. rewrite Ht.
  replace ((INT_MIN <=? p) && (p <=? INT_MAX)) with true; [reflexivity|].
  symmetry. apply andb_true_iff. unfold INT_MIN, INT_MAX. split; apply Z.leb_le; lia.
Qed.
(** * The format selector against its tables *)

Example format_selector_flac24 :
  format_selector "song.flac" 24 = (Some FLAC, Some PCM_24).
Proof. reflexivity. Qed.

Ltac split_depth d :=
  destruct (Z.eqb_spec d 8); [subst d|];
  [|destruct (Z.eqb_spec d 16); [subst d|];
    [|destruct (Z.eqb_spec d 24); [subst d|];
      [|destruct (Z.eqb_spec d 32); [subst d|]]]].

(** C3, as amended: for every file name and depth the thread's format word
    stands for the container and the encoding of the tables, an extension
    being matched in lower case or upper case only ([.ogg] giving Vorbis
    whatever the depth, then [.flac], then [.aiff], WAV otherwise), depths
    16, 24 and 32 giving signed PCM of that width, depth 8 giving unsigned
    8-bit for [.wav] and signed 8-bit for [.aiff], and 16-bit PCM in every
    other case. *)
Theorem format_selector_tables (filename : string) (depth : Z) :
  format_selector filename depth
  = (Some (code_container filename), Some (code_encoding filename depth)).
Proof.
  unfold format_selector, soundInfo_format, code_container, code_encoding,
    has_extension.
  destruct (endsWith filename ".ogg"), (endsWith filename ".OGG"),
    (endsWith filename ".flac"), (endsWith filename ".FLAC"),
    (endsWith filename ".aiff"), (endsWith filename ".AIFF"),
    (endsWith filename ".wav"), (endsWith filename ".WAV");
    split_depth depth; try reflexivity;
    repeat match goal with
           | H : ?d <> ?k |- context [?d =? ?k] =>
               rewrite (proj2 (Z.eqb_neq d k) H)
           end; reflexivity.
Qed.

(** C3 as stated fails: an extension in mixed case is not recognised, and
    depth 8 gives an 8-bit encoding for [.wav] and [.aiff] only. *)
Lemma format_selector_not_spec :
  format_selector "take.Aiff" 16 = (Some WAV, Some PCM_16)
  /\ spec_format_selector "take.Aiff" 16 = (Some AIFF, Some PCM_16)
  /\ format_selector "take.flac" 8 = (Some FLAC, Some PCM_16)
  /\ spec_format_selector "take.flac" 8 = (Some FLAC, Some PCM_U8).
Proof. repeat split; reflexivity. Qed.

(** * The sample conditioner *)

Section Conditioner.

Lemma SFcompare_antisym (x y : spec_float) :
  SFcompare y x = option_map CompOpp (SFcompare x y).
Proof.
  destruct x as [sx|sx| |sx mx ex], y as [sy|sy| |sy my ey]; simpl;
    try reflexivity;
    try (destruct sx; reflexivity); try (destruct sy; reflexivity);
    try (destruct sx, sy; reflexivity).
  destruct sx, sy; simpl; try reflexivity.
  - rewrite (Z.compare_antisym ey ex).
    destruct (ey ?= ex); simpl; try reflexivity.
    rewrite CompOpp_involutive. f_equal.
    exact (Pos.compare_cont_antisym my mx Eq).
  - rewrite (Z.compare_antisym ey ex).
    destruct (ey ?= ex); simpl; try reflexivity.
    f_equal. symmetry. exact (Pos.compare_cont_antisym mx my Eq).
Qed.

Lemma clip_above x : Float.gtb x (Float.of_int 1) = true -> clip x = Float.of_int 1.
Proof. unfold clip. intros ->. reflexivity. Qed.

Lemma clip_below x :
  Float.ltb x (Float.of_int (-1)) = true -> clip x = Float.of_int (-1).
Proof.
  unfold clip. intros H. rewrite H.
  replace (Float.gtb x (Float.of_int 1)) with false; [reflexivity|].
  destruct x as [s|s| |s m e]; try destruct s; try discriminate H; reflexivity.
Qed.

Lemma clip_within x :
  Float.leb (Float.of_int (-1)) x = true -> Float.leb x (Float.of_int 1) = true ->
  clip x = x.
Proof.
  unfold clip, Float.leb, Float.gtb, Float.ltb, SFleb, SFltb. intros H1 H2.
  rewrite (SFcompare_antisym x (Float.of_int 1)).
  rewrite (SFcompare_antisym (Float.of_int (-1)) x).
  destruct (SFcompare x (Float.of_int 1)) as [[]|]; try discriminate H2;
  destruct (SFcompare (Float.of_int (-1)) x) as [[]|]; try discriminate H1;
  reflexivity.
Qed.

Lemma frame_index (i : nat) :
  Z.of_nat i <= INT_MAX ->
  Z.to_nat (to_unsigned (Z.of_nat i * 2)) = (2 * i)%nat
  /\ Z.to_nat (to_unsigned (Z.of_nat i * 2 + 1)) = (2 * i + 1)%nat.
Proof.
  unfold INT_MAX, to_unsigned. intros H.
  rewrite !Z.mod_small by lia. lia.
Qed.

Variables pData_L pData_R : nat -> Float.float.

(** The buffer after the first [k] rounds of the loop. *)
Let conditioned (k : nat) (pData : list Float.float) : list Float.float :=
  fold_left (condition_frame pData_L pData_R) (seq 0 k) pData.

Lemma conditioned_S k pData :
  conditioned (S k) pData
  = condition_frame pData_L pData_R (conditioned k pData) k.
Proof. unfold conditioned. rewrite seq_S, fold_left_app. reflexivity. Qed.

Lemma conditioned_length k pData : length (conditioned k pData) = length pData.
Proof.
  induction k as [|k IH]; [reflexivity|].
  rewrite conditioned_S. unfold condition_frame. rewrite !length_insert. exact IH.
Qed.

Lemma conditioned_lookup k pData :
  Z.of_nat k <= INT_MAX + 1 -> (2 * k <= length pData)%nat ->
  (forall i, (i < k)%nat ->
     conditioned k pData !! (2 * i)%nat = Some (clip (pData_L i))
     /\ conditioned k pData !! (2 * i + 1)%nat = Some (clip (pData_R i)))
  /\ (forall j, (2 * k <= j)%nat -> conditioned k pData !! j = pData !! j).
Proof.
  induction k as [|k IH]; intros Hk Hlen.
  - split; [lia|reflexivity].
  - destruct IH as [IHin IHout]; [lia|lia|].
    rewrite conditioned_S. unfold condition_frame.
    destruct (frame_index k) as [-> ->]; [lia|].
    pose proof (conditioned_length k pData) as Hl.
    split.
    + intros i Hi. destruct (decide (i = k)) as [->|Hne].
      * split.
        -- rewrite list_lookup_insert_ne by lia.
           apply list_lookup_insert_eq. lia.
        -- apply list_lookup_insert_eq. rewrite length_insert. lia.
      * rewrite !list_lookup_insert_ne by lia. apply IHin. lia.
    + intros j Hj. rewrite !list_lookup_insert_ne by lia. apply IHout. lia.
Qed.

Lemma interleaved_length n : length (interleaved pData_L pData_R n) = (2 * n)%nat.
Proof.
  unfold interleaved. induction n as [|n IH]; [reflexivity|].
  rewrite seq_S, flat_map_app, length_app, IH. simpl. lia.
Qed.

Lemma interleaved_lookup n i :
  (i < n)%nat ->
  interleaved pData_L pData_R n !! (2 * i)%nat = Some (clip (pData_L i))
  /\ interleaved pData_L pData_R n !! (2 * i + 1)%nat = Some (clip (pData_R i)).
Proof.
  unfold interleaved. induction n as [|n IH]; [lia|]. intros Hi.
  rewrite seq_S, flat_map_app.
  assert (Hlast : flat_map (fun i => [clip (pData_L i); clip (pData_R i)]) [(0 + n)%nat]
                  = [clip (pData_L n); clip (pData_R n)]) by reflexivity.
  rewrite Hlast. clear Hlast.
  pose proof (interleaved_length n) as Hl. unfold interleaved in Hl.
  destruct (decide (i = n)) as [->|Hne].
  - split.
    + rewrite lookup_app_r by lia. rewrite Hl.
      replace (2 * n - 2 * n)%nat with 0%nat by lia. reflexivity.
    + rewrite lookup_app_r by lia. rewrite Hl.
      replace (2 * n + 1 - 2 * n)%nat with 1%nat by lia. reflexivity.
  - destruct IH as [IH1 IH2]; [lia|].
    split; rewrite lookup_app_l by lia; assumption.
Qed.

Lemma condition_lookup usedBuffer pData :
  0 <= usedBuffer <= INT_MAX -> 2 * usedBuffer <= Z.of_nat (length pData) ->
  forall i, (i < Z.to_nat usedBuffer)%nat ->
    condition pData_L pData_R usedBuffer pData !! (2 * i)%nat
    = Some (clip (pData_L i))
    /\ condition pData_L pData_R usedBuffer pData !! (2 * i + 1)%nat
       = Some (clip (pData_R i)).
Proof.
  intros Hn Hlen. unfold condition, to_unsigned.
  rewrite Z.mod_small by (unfold INT_MAX in Hn; lia).
  apply (conditioned_lookup (Z.to_nat usedBuffer) pData); lia.
Qed.

Lemma condition_length usedBuffer pData :
  length (condition pData_L pData_R usedBuffer pData) = length pData.
Proof. apply conditioned_length. Qed.

Lemma take_condition usedBuffer pData :
  0 <= usedBuffer <= INT_MAX -> 2 * usedBuffer <= Z.of_nat (length pData) ->
  take (Z.to_nat (2 * usedBuffer)) (condition pData_L pData_R usedBuffer pData)
  = interleaved pData_L pData_R (Z.to_nat usedBuffer).
Proof.
  intros Hn Hlen. apply list_eq. intros j.
  pose proof (condition_lookup usedBuffer pData Hn Hlen) as Hin.
  destruct (decide (j < 2 * Z.to_nat usedBuffer)%nat) as [Hj|Hj].
  - rewrite lookup_take_lt by lia.
    destruct (Nat.Even_or_Odd j) as [[i ->]|[i ->]].
    + rewrite (proj1 (Hin i ltac:(lia))).
      symmetry. apply interleaved_lookup. lia.
    + rewrite (proj2 (Hin i ltac:(lia))).
      symmetry. apply interleaved_lookup. lia.
  - rewrite lookup_take_ge by lia.
    symmetry. apply lookup_ge_None. rewrite interleaved_length. lia.
Qed.

End Conditioner.

(** * The loops of the thread *)

Section Loops.
Context {env : Env}.



Lemma bind_eq {A B} (m : M env A) (k : A -> M env B) w es w' a es' w'' r :
  m w = (es, w', Done a) -> k a w' = (es', w'', r) ->
  bind m k w = (es ++ es', w'', r).
Proof. intros Hm Hk. unfold bind. rewrite Hm, Hk. reflexivity. Qed.

Lemma bind_done {A B} (m : M env A) (k : A -> M env B) w es w'' b :
  bind m k w = (es, w'', Done b) ->
  exists es1 w' a es2,
    m w = (es1, w', Done a) /\ k a w' = (es2, w'', Done b) /\ es = es1 ++ es2.
Proof.
  unfold bind. destruct (m w) as [[es1 w'] [a| |]]; try discriminate.
  destruct (k a w') as [[es2 w2] r] eqn:Hk. intros [= <- <- ->].
  exists es1, w', a, es2. auto.
Qed.

Lemma retry_trace fuel n r (w : World env) es w' res :
  retry fuel n r w = (es, w', res) ->
  exists k, es = replicate k (ProcessCallback n) /\ files w' = files w.
Proof.
  revert r w es w' res. induction fuel as [|fuel IH]; intros r w es w' res; simpl.
  - destruct (r =? 0); intros [= <- <- <-]; exists 0%nat; auto.
  - destruct (r =? 0); [intros [= <- <- <-]; exists 0%nat; auto|].
    unfold bind, call_processCallback.
    destruct (processCallback env n (engine w)) as [r' e'].
    destruct (retry fuel n r' _) as [[es2 w2] r2] eqn:Hr.
    destruct (IH _ _ _ _ _ Hr) as [k [-> Hf]].
    destruct r2; intros [= <- <- <-]; exists (S k); (split; [reflexivity|exact Hf]).
Qed.

Lemma retry_more fuel fuel' n r (w : World env) es w' :
  retry fuel n r w = (es, w', Done tt) -> (fuel <= fuel')%nat ->
  retry fuel' n r w = (es, w', Done tt).
Proof.
  revert fuel' r w es w'. induction fuel as [|fuel IH]; intros fuel' r w es w'; simpl.
  - destruct (r =? 0) eqn:Hr; [|discriminate]. intros H _.
    destruct fuel'; simpl; rewrite Hr; exact H.
  - destruct (r =? 0) eqn:Hr.
    + intros H _. destruct fuel'; simpl; rewrite Hr; exact H.
    + intros H Hle. destruct fuel' as [|fuel']; [lia|]. simpl. rewrite Hr.
      revert H. unfold bind.
      destruct (call_processCallback n w) as [[es1 w1] [r1| |]]; try discriminate.
      destruct (retry fuel n r1 w1) as [[es2 w2] [[]| |]] eqn:H2; try discriminate.
      rewrite (IH fuel' _ _ _ _ H2) by lia. auto.
Qed.

Lemma pull_trace fuel n (w : World env) es w' res :
  pull fuel n w = (es, w', res) ->
  exists k, es = replicate (S k) (ProcessCallback n) /\ files w' = files w.
Proof.
  unfold pull, bind, call_processCallback.
  destruct (processCallback env n (engine w)) as [r e].
  destruct (retry fuel n r _) as [[es2 w2] r2] eqn:Hr.
  destruct (retry_trace _ _ _ _ _ _ _ Hr) as [k [-> Hf]].
  intros [= <- <- <-]. exists k. split; [reflexivity|exact Hf].
Qed.

Lemma pull_more fuel fuel' n (w : World env) es w' :
  pull fuel n w = (es, w', Done tt) -> (fuel <= fuel')%nat ->
  pull fuel' n w = (es, w', Done tt).
Proof.
  unfold pull, bind. intros H Hle.
  destruct (call_processCallback n w) as [[es1 w1] [r1| |]]; try discriminate.
  destruct (retry fuel n r1 w1) as [[es2 w2] [[]| |]] eqn:H2; try discriminate.
  rewrite (retry_more _ fuel' _ _ _ _ _ H2 Hle). exact H.
Qed.

Lemma render_chunk_done fuel m_file n pData (w : World env) es1 w1 :
  pull fuel n w = (es1, w1, Done tt) ->
  render_chunk fuel m_file n pData w
  = (es1 ++ events (chunk_written m_file n pData w1),
     world (chunk_written m_file n pData w1),
     Done (condition (m_pOut_L env (engine w1)) (m_pOut_R env (engine w1)) n pData)).
Proof.
  intros Hp. unfold render_chunk.
  unfold bind at 1. rewrite Hp.
  unfold bind, get_engine, call_sf_writef_float, chunk_written, events, world, emit, ret.
  simpl.
  destruct (sf_writef_float env m_file _ n (files w1)) as [res f]. simpl.
  destruct (negb (to_int res =? n)); simpl; rewrite ?app_nil_r; reflexivity.
Qed.


Lemma used_buffer_min (pDriver : DiskWriterDriver) frames frameNumber :
  0 <= m_nBufferSize pDriver <= INT_MAX ->
  0 <= frameNumber <= frames -> frames <= UINT_MAX ->
  used_buffer pDriver frames frameNumber
  = Z.min (m_nBufferSize pDriver) (frames - frameNumber).
Proof.
  unfold used_buffer, to_int, to_unsigned, INT_MAX, UINT_MAX. intros HB Hf Hmax.
  rewrite (Z.mod_small (frames - frameNumber)) by lia.
  destruct (Z.ltb_spec (frames - frameNumber) (m_nBufferSize pDriver)).
  - rewrite Z.mod_small by lia. lia.
  - rewrite Z.mod_small by lia. lia.
Qed.

Lemma chunk_plan_0 B : 0 < B -> chunk_plan B 0 = [].
Proof. intros HB. unfold chunk_plan. rewrite Z.div_0_l, Z.mod_0_l by lia. reflexivity. Qed.

Lemma chunk_plan_step B rem :
  0 < B -> 0 < rem ->
  chunk_plan B rem = Z.min B rem :: chunk_plan B (rem - Z.min B rem).
Proof.
  intros HB Hrem. unfold chunk_plan.
  destruct (Z.le_gt_cases B rem) as [Hle|Hgt].
  - rewrite Z.min_l by lia.
    assert (Hd : rem / B = (rem - B) / B + 1).
    { replace rem with ((rem - B) + 1 * B) at 1 by lia. apply Z.div_add. lia. }
    assert (Hm : rem mod B = (rem - B) mod B).
    { replace rem with ((rem - B) + 1 * B) at 1 by lia. apply Z.mod_add. lia. }
    assert (0 <= (rem - B) / B) by (apply Z.div_pos; lia).
    rewrite Hd, Hm, Z2Nat.inj_add by lia. rewrite Nat.add_comm. reflexivity.
  - rewrite Z.min_r by lia. rewrite Z.sub_diag.
    rewrite Z.div_small, Z.mod_small by lia.
    rewrite Z.div_0_l, Z.mod_0_l by lia.
    destruct (Z.eqb_spec rem 0); [lia|]. reflexivity.
Qed.

Lemma render_chunks_done fuel n (pDriver : DiskWriterDriver) m_file frames frameNumber
    pData (w : World env) es w' out :
  0 < m_nBufferSize pDriver <= INT_MAX ->
  0 <= frameNumber <= frames -> frames <= UINT_MAX ->
  render_chunks fuel n pDriver m_file frames frameNumber pData w = (es, w', Done out) ->
  exists ess,
    es = concat ess
    /\ Forall2 (chunk_trace m_file)
               (chunk_plan (m_nBufferSize pDriver) (frames - frameNumber)) ess.
Proof.
  intros HB. revert frameNumber pData w es.
  induction n as [|n IH]; intros frameNumber pData w es Hf Hmax; simpl.
  - destruct (Z.ltb_spec frameNumber frames); [discriminate|].
    intros [= <- <- <-]. exists []. replace (frames - frameNumber) with 0 by lia.
    rewrite chunk_plan_0 by lia. split; [reflexivity|constructor].
  - destruct (Z.ltb_spec frameNumber frames) as [Hlt|Hge].
    + rewrite used_buffer_min by lia.
      set (c := Z.min (m_nBufferSize pDriver) (frames - frameNumber)).
      assert (Hc : 0 < c <= frames - frameNumber) by (unfold c; lia).
      replace (to_unsigned (frameNumber + c)) with (frameNumber + c)
        by (unfold to_unsigned, UINT_MAX in *; rewrite Z.mod_small; lia).
      intros H. apply bind_done in H.
      destruct H as (es1 & w1 & pData1 & es2 & Hchunk & Hrest & ->).
      apply IH in Hrest; [|lia|lia].
      destruct Hrest as (ess & -> & Hall).
      exists (es1 :: ess). split; [reflexivity|].
      rewrite chunk_plan_step by lia. fold c.
      replace (frames - frameNumber - c) with (frames - (frameNumber + c)) by lia.
      constructor; [|exact Hall].
      destruct (pull fuel c w) as [[esp wp] [[]| |]] eqn:Hp.
      * rewrite (render_chunk_done _ _ _ _ _ _ _ Hp) in Hchunk.
        injection Hchunk as <- <- <-.
        destruct (pull_trace _ _ _ _ _ _ Hp) as [k [-> _]].
        unfold chunk_written, events; simpl.
        eexists k, _, _. split; [reflexivity|].
        destruct (negb _); auto.
      * unfold render_chunk, bind in Hchunk. rewrite Hp in Hchunk. discriminate.
      * unfold render_chunk, bind in Hchunk. rewrite Hp in Hchunk. discriminate.
    + intros [= <- <- <-]. exists []. replace (frames - frameNumber) with 0 by lia.
      rewrite chunk_plan_0 by lia. split; [reflexivity|constructor].
Qed.



Lemma render_chunks_terminates k fuel n (pDriver : DiskWriterDriver) m_file frames
    frameNumber pData (w : World env) :
  0 < m_nBufferSize pDriver <= INT_MAX ->
  0 <= frameNumber <= frames -> frames <= UINT_MAX ->
  ready_within env k -> (k <= fuel)%nat ->
  frames - frameNumber <= Z.of_nat n * m_nBufferSize pDriver ->
  exists es w' out,
    render_chunks fuel n pDriver m_file frames frameNumber pData w = (es, w', Done out).
Proof.
  intros HB Hf Hmax Hready Hk. revert frameNumber pData w Hf.
  induction n as [|n IH]; intros frameNumber pData w Hf Hn; simpl.
  - destruct (Z.ltb_spec frameNumber frames) as [Hlt|Hge]; [lia|unfold ret; eauto].
  - destruct (Z.ltb_spec frameNumber frames) as [Hlt|Hge]; [|unfold ret; eauto].
    rewrite used_buffer_min by lia.
    set (c := Z.min (m_nBufferSize pDriver) (frames - frameNumber)).
    assert (Hc : 0 < c <= frames - frameNumber) by (unfold c; lia).
    replace (to_unsigned (frameNumber + c)) with (frameNumber + c)
      by (unfold to_unsigned, UINT_MAX in *; rewrite Z.mod_small; lia).
    specialize (Hready c w). unfold result in Hready.
    destruct (pull k c w) as [[esp wp] rp] eqn:Hp. simpl in Hready. subst rp.
    apply (pull_more _ fuel) in Hp; [|exact Hk].
    pose proof (render_chunk_done fuel m_file c pData w _ _ Hp) as Hchunk.
    destruct (IH (frameNumber + c)
                (condition (m_pOut_L env (engine wp)) (m_pOut_R env (engine wp)) c pData)
                (world (chunk_written m_file c pData wp)))
      as (es2 & w2 & out & Hrest); [lia| |].
    + unfold c. nia.
    + eexists _, _, _. eapply bind_eq; [exact Hchunk|exact Hrest].
Qed.

End Loops.

(** ** The chunk sizes *)

Lemma chunk_plan_ind (P : Z -> list Z -> Prop) (B : Z) :
  0 < B ->
  P 0 [] ->
  (forall f, 0 < f ->
     P (f - Z.min B f) (chunk_plan B (f - Z.min B f)) ->
     P f (Z.min B f :: chunk_plan B (f - Z.min B f))) ->
  forall f, 0 <= f -> P f (chunk_plan B f).
Proof.
  intros HB H0 Hstep f Hf.
  assert (H : forall m : nat, forall f, 0 <= f -> (Z.to_nat f <= m)%nat -> P f (chunk_plan B f)).
  { induction m as [|m IH]; intros g Hg Hm.
    - replace g with 0 by lia. rewrite chunk_plan_0 by lia. exact H0.
    - destruct (Z.eq_dec g 0) as [->|Hne].
      + rewrite chunk_plan_0 by lia. exact H0.
      + rewrite chunk_plan_step by lia. apply Hstep; [lia|]. apply IH; lia. }
  apply (H (Z.to_nat f)); [exact Hf|lia].
Qed.

Lemma chunk_plan_sum B f : 0 < B -> 0 <= f -> sum (chunk_plan B f) = f.
Proof.
  intros HB. apply (chunk_plan_ind (fun f cs => sum cs = f)); [exact HB|reflexivity|].
  intros g Hg IH. simpl. rewrite IH. lia.
Qed.

Lemma chunk_plan_positive B f :
  0 < B -> 0 <= f -> Forall (fun c => 0 < c) (chunk_plan B f).
Proof.
  intros HB. apply (chunk_plan_ind (fun _ cs => Forall (fun c => 0 < c) cs));
    [exact HB|constructor|].
  intros g Hg IH. constructor; [lia|exact IH].
Qed.

Lemma chunk_plan_nonempty B f : 0 < B -> 0 < f -> chunk_plan B f <> [].
Proof. intros HB Hf. rewrite chunk_plan_step by lia. discriminate. Qed.

Lemma chunk_plan_min B f :
  0 < B -> 0 <= f ->
  forall i c, chunk_plan B f !! i = Some c ->
    c = Z.min B (f - sum (take i (chunk_plan B f))).
Proof.
  intros HB.
  apply (chunk_plan_ind (fun f cs =>
    forall i c, cs !! i = Some c -> c = Z.min B (f - sum (take i cs))));
    [exact HB|intros i c H; discriminate|].
  intros g Hg IH [|i] c; simpl.
  - intros [= <-]. f_equal. lia.
  - intros H. rewrite (IH i c H). f_equal. lia.
Qed.

Lemma chunk_plan_full B f :
  0 < B -> 0 <= f ->
  forall i c, chunk_plan B f !! i = Some c ->
    (S i < length (chunk_plan B f))%nat -> c = B.
Proof.
  intros HB.
  apply (chunk_plan_ind (fun f cs =>
    forall i c, cs !! i = Some c -> (S i < length cs)%nat -> c = B));
    [exact HB|intros i c H; discriminate|].
  intros g Hg IH [|i] c; simpl.
  - intros [= <-] Hlen.
    destruct (Z.le_gt_cases B g); [lia|].
    rewrite Z.min_r in Hlen by lia. rewrite Z.sub_diag, chunk_plan_0 in Hlen by lia.
    simpl in Hlen. lia.
  - intros H Hlen. apply (IH i c H). lia.
Qed.

Lemma chunk_plan_last B f :
  0 < B -> 0 < f ->
  last (chunk_plan B f) = Some (if f mod B =? 0 then B else f mod B).
Proof.
  intros HB Hf. generalize Hf.
  apply (chunk_plan_ind (fun f cs =>
    0 < f -> last cs = Some (if f mod B =? 0 then B else f mod B)) B HB);
    [intros; lia| |lia].
  intros g Hg IH _.
  destruct (Z.le_gt_cases g B) as [Hle|Hgt].
  - rewrite Z.min_r by lia. rewrite Z.sub_diag, chunk_plan_0 by lia. simpl.
    f_equal. destruct (Z.eq_dec g B) as [->|Hne].
    + rewrite Z.mod_same by lia. reflexivity.
    + rewrite Z.mod_small by lia. destruct (Z.eqb_spec g 0); [lia|reflexivity].
  - rewrite Z.min_l in * by lia.
    pose proof (chunk_plan_nonempty B (g - B) HB ltac:(lia)) as Hne.
    destruct (chunk_plan B (g - B)) as [|c cs] eqn:Hcs; [contradiction|].
    rewrite last_cons_cons. rewrite IH by lia.
    assert (Hm : g mod B = (g - B) mod B).
    { replace g with ((g - B) + 1 * B) at 1 by lia. apply Z.mod_add. lia. }
    rewrite Hm. reflexivity.
Qed.

Lemma offsets_increasing (cs : list Z) :
  Forall (fun c => 0 < c) cs ->
  forall i, (S i <= length cs)%nat -> sum (take i cs) < sum (take (S i) cs).
Proof.
  induction 1 as [|c cs Hc Hcs IH]; intros i Hi; simpl in Hi; [lia|].
  destruct i as [|i]; simpl.
  - lia.
  - specialize (IH i ltac:(lia)). simpl in IH. lia.
Qed.

Section Depth.
Context {env : Env}.

Lemma bind_ext {A B} (m : M env A) (k1 k2 : A -> M env B) (w : World env) :
  (forall a w', k1 a w' = k2 a w') -> bind m k1 w = bind m k2 w.
Proof.
  intros H. unfold bind. destruct (m w) as [[es w'] [a| |]]; try reflexivity.
  rewrite H. reflexivity.
Qed.

(** The loop over the chunks does not look at the sample depth. *)
Lemma render_chunks_depth fuel n (pDriver : DiskWriterDriver) depth m_file frames
    frameNumber pData (w : World env) :
  render_chunks fuel n (with_depth pDriver depth) m_file frames frameNumber pData w
  = render_chunks fuel n pDriver m_file frames frameNumber pData w.
Proof.
  revert frameNumber pData w. induction n as [|n IH]; intros frameNumber pData w.
  - reflexivity.
  - simpl. destruct (frameNumber <? frames); [|reflexivity].
    apply bind_ext. intros a w'. apply IH.
Qed.

End Depth.

(** * Short writes *)

Section Short.
Context (env : Env).
Let env' := always_written env.

Lemma without_write_errors_app es1 es2 :
  without_write_errors (es1 ++ es2)
  = without_write_errors es1 ++ without_write_errors es2.
Proof. apply List.filter_app. Qed.

Lemma sim_bind {A B} (m : M env A) (m' : M env' A) (k : A -> M env B)
    (k' : A -> M env' B) (w : World env) :
  sim (m w) (m' w) -> (forall a w1, sim (k a w1) (k' a w1)) ->
  sim (bind m k w) (bind m' k' w).
Proof.
  unfold sim, bind, events, world, result.
  destruct (m w) as [[es w1] r], (m' w) as [[es' w1'] r']. simpl.
  intros (He & Hw & Hr) Hk. subst es' w1' r'.
  destruct r as [a| |]; simpl; auto.
  specialize (Hk a w1).
  destruct (k a w1) as [[es2 w2] r2], (k' a w1) as [[es2' w2'] r2']. simpl in *.
  destruct Hk as (-> & -> & ->).
  rewrite without_write_errors_app. auto.
Qed.

Lemma sim_same {A} (m : M env A) (w : World env) :
  without_write_errors (events (m w)) = events (m w) -> sim (m w) (m w).
Proof. intros H. unfold sim. rewrite H. auto. Qed.

Lemma retry_same fuel n r (w : World env) :
  retry (env:=env') fuel n r w = retry (env:=env) fuel n r w.
Proof. reflexivity. Qed.

Lemma without_write_errors_pulls k n :
  without_write_errors (replicate k (ProcessCallback n))
  = replicate k (ProcessCallback n).
Proof.
  unfold without_write_errors.
  induction k as [|k IH]; [reflexivity|]. simpl. rewrite IH. reflexivity.
Qed.

Lemma sim_pull fuel n (w : World env) :
  sim (pull (env:=env) fuel n w) (pull (env:=env') fuel n w).
Proof.
  change (pull (env:=env') fuel n w) with (pull (env:=env) fuel n w).
  apply sim_same.
  destruct (pull fuel n w) as [[es w'] r] eqn:Hp.
  destruct (pull_trace _ _ _ _ _ _ Hp) as [k [-> _]].
  apply without_write_errors_pulls.
Qed.

Lemma sim_ret {A} (a : A) (w : World env) :
  sim (ret (env:=env) a w) (ret (env:=env') a w).
Proof. repeat split. Qed.

Lemma to_int_idem z : to_int (to_int z) = to_int z.
Proof.
  unfold to_int.
  replace ((z + 2147483648) mod 4294967296 - 2147483648 + 2147483648)
    with ((z + 2147483648) mod 4294967296) by lia.
  rewrite Z.mod_mod by lia. reflexivity.
Qed.

Lemma used_buffer_int (pDriver : DiskWriterDriver) frames frameNumber :
  to_int (used_buffer pDriver frames frameNumber)
  = used_buffer pDriver frames frameNumber.
Proof. unfold used_buffer. destruct (_ <? _); apply to_int_idem. Qed.

Lemma sim_render_chunk fuel m_file n pData (w : World env) :
  to_int n = n ->
  sim (render_chunk (env:=env) fuel m_file n pData w)
      (render_chunk (env:=env') fuel m_file n pData w).
Proof.
  intros Hn. unfold render_chunk.
  apply sim_bind; [apply sim_pull|]. intros _ w1.
  apply sim_bind; [repeat split|]. intros e w2.
  unfold bind, call_sf_writef_float, env'.
  cbn [sf_writef_float always_written m_pOut_L m_pOut_R Engine Files].
  set (out := condition _ _ n pData).
  destruct (sf_writef_float env m_file _ n (files w2)) as [res f]. cbn [snd].
  rewrite Hn, Z.eqb_refl. cbn [negb].
  destruct (negb (to_int res =? n)); repeat split.
Qed.

Lemma sim_render_chunks fuel n (pDriver : DiskWriterDriver) m_file frames frameNumber
    pData (w : World env) :
  sim (render_chunks (env:=env) fuel n pDriver m_file frames frameNumber pData w)
      (render_chunks (env:=env') fuel n pDriver m_file frames frameNumber pData w).
Proof.
  revert frameNumber pData w. induction n as [|n IH]; intros frameNumber pData w;
    simpl; (destruct (frameNumber <? frames); [|apply sim_ret]).
  - repeat split.
  - apply sim_bind; [apply sim_render_chunk, used_buffer_int|].
    intros a w1. apply IH.
Qed.

Lemma sim_defined {A} (o : option A) (w : World env) :
  sim (defined (env:=env) o w) (defined (env:=env') o w).
Proof. destruct o; repeat split. Qed.

Lemma sim_progress p (w : World env) :
  sim (emit (env:=env) (EVENT_PROGRESS p) w) (emit (env:=env') (EVENT_PROGRESS p) w).
Proof. repeat split. Qed.

Lemma sim_render_column fuel (pDriver : DiskWriterDriver) pSong m_file nColumns
    patternPosition pData (w : World env) :
  sim (render_column (env:=env) fuel pDriver pSong m_file nColumns patternPosition pData w)
      (render_column (env:=env') fuel pDriver pSong m_file nColumns patternPosition pData w).
Proof.
  unfold render_column.
  apply sim_bind; [apply sim_defined|]. intros pColumn w1.
  apply sim_bind; [apply sim_defined|]. intros frames w2.
  apply sim_bind; [apply sim_render_chunks|]. intros pData' w3.
  apply sim_bind; [apply sim_defined|]. intros p w4.
  apply sim_bind; [apply sim_progress|]. intros _ w5.
  apply sim_ret.
Qed.

Lemma sim_render_columns fuel (pDriver : DiskWriterDriver) pSong m_file nColumns n
    patternPosition pData (w : World env) :
  sim (render_columns (env:=env) fuel pDriver pSong m_file nColumns n patternPosition pData w)
      (render_columns (env:=env') fuel pDriver pSong m_file nColumns n patternPosition pData w).
Proof.
  revert patternPosition pData w. induction n as [|n IH]; intros pos pData w; simpl.
  - apply sim_ret.
  - apply sim_bind; [apply sim_render_column|]. intros a w1. apply IH.
Qed.

Lemma sim_thread fuel (pDriver : DiskWriterDriver) pSong (w : World env) :
  sim (diskWriterDriver_thread env fuel pDriver pSong w)
      (diskWriterDriver_thread env' fuel pDriver pSong w).
Proof.
  unfold diskWriterDriver_thread.
  apply sim_bind; [repeat split|]. intros _ w1.
  apply sim_bind; [repeat split|]. intros _ w2.
  apply sim_bind; [repeat split|]. intros _ w3.
  change (sf_format_check env' (sound_info pDriver))
    with (sf_format_check env (sound_info pDriver)).
  destruct (negb (sf_format_check env (sound_info pDriver))); [repeat split|].
  apply sim_bind.
  { unfold sim, call_sf_open, events, world, result, env'.
    cbn [sf_open always_written Engine Files].
    destruct (sf_open env _ _ (files w3)); repeat split. }
  intros m_file w4.
  apply sim_bind; [apply sim_render_columns|]. intros pData w5.
  apply sim_bind; [repeat split|]. intros _ w6.
  repeat split.
Qed.

End Short.

(** * The thread as a whole *)

Section Whole.
Context {env : Env}.

Lemma bind_out_of_fuel {A B} (m : M env A) (k : A -> M env B) (w : World env) :
  result (m w) = OutOfFuel -> result (bind m k w) = OutOfFuel.
Proof.
  unfold result, bind. destruct (m w) as [[es w'] [a| |]]; simpl; try discriminate.
  reflexivity.
Qed.

Lemma bind_result {A B} (m : M env A) (k : A -> M env B) (w : World env) es w' a :
  m w = (es, w', Done a) -> result (bind m k w) = result (k a w').
Proof.
  intros H. unfold result, bind. rewrite H. destruct (k a w') as [[es2 w2] r].
  reflexivity.
Qed.

Lemma bind_events {A B} (m : M env A) (k : A -> M env B) (w : World env) es w' a :
  m w = (es, w', Done a) -> events (bind m k w) = es ++ events (k a w').
Proof.
  intros H. unfold events, bind. rewrite H. destruct (k a w') as [[es2 w2] r].
  reflexivity.
Qed.

Lemma retry_result fuel n r (w : World env) :
  result (retry fuel n r w) = Done tt \/ result (retry fuel n r w) = OutOfFuel.
Proof.
  revert r w. induction fuel as [|fuel IH]; intros r w; simpl.
  - destruct (r =? 0); [left|right]; reflexivity.
  - destruct (r =? 0); [left; reflexivity|].
    unfold bind, call_processCallback.
    destruct (processCallback env n (engine w)) as [r' e'].
    specialize (IH r' {| engine := e'; files := files w |}).
    unfold result in *.
    destruct (retry fuel n r' _) as [[es2 w2] r2]. exact IH.
Qed.

Lemma pull_result fuel n (w : World env) :
  result (pull fuel n w) = Done tt \/ result (pull fuel n w) = OutOfFuel.
Proof.
  unfold pull, bind, call_processCallback.
  destruct (processCallback env n (engine w)) as [r' e'].
  pose proof (retry_result fuel n r' {| engine := e'; files := files w |}) as H.
  unfold result in *.
  destruct (retry fuel n r' _) as [[es2 w2] r2]. exact H.
Qed.

Lemma render_chunk_result fuel m_file n pData (w : World env) :
  (exists out, result (render_chunk fuel m_file n pData w) = Done out)
  \/ result (render_chunk fuel m_file n pData w) = OutOfFuel.
Proof.
  destruct (pull fuel n w) as [[es1 w1] r1] eqn:Hp.
  destruct (pull_result fuel n w) as [H|H]; rewrite Hp in H; unfold result in H;
    simpl in H; subst r1.
  - left. rewrite (render_chunk_done _ _ _ _ _ _ _ Hp). eexists. reflexivity.
  - right. unfold render_chunk. apply bind_out_of_fuel. rewrite Hp. reflexivity.
Qed.

(** With a buffer of no frames the loop over the chunks of a column that has
    frames never ends. *)
Lemma zero_buffer_spins fuel n (pDriver : DiskWriterDriver) m_file frames frameNumber
    pData (w : World env) :
  m_nBufferSize pDriver = 0 -> 0 <= frameNumber < frames -> frames <= UINT_MAX ->
  result (render_chunks fuel n pDriver m_file frames frameNumber pData w) = OutOfFuel.
Proof.
  intros HB Hf Hmax. revert pData w.
  induction n as [|n IH]; intros pData w; simpl.
  - destruct (Z.ltb_spec frameNumber frames); [reflexivity|lia].
  - destruct (Z.ltb_spec frameNumber frames) as [_|Hge]; [|lia].
    assert (Hu : used_buffer pDriver frames frameNumber = 0).
    { unfold used_buffer, to_unsigned. rewrite HB.
      destruct (Z.ltb_spec ((frames - frameNumber) mod 4294967296) 0) as [Hlt|_];
        [|reflexivity].
      pose proof (Z.mod_pos_bound (frames - frameNumber) 4294967296 ltac:(lia)). lia. }
    rewrite Hu.
    replace (to_unsigned (frameNumber + 0)) with frameNumber
      by (unfold to_unsigned, UINT_MAX in *; rewrite Z.mod_small; lia).
    destruct (render_chunk fuel m_file 0 pData w) as [[es1 w1] r1] eqn:Hc.
    destruct (render_chunk_result fuel m_file 0 pData w) as [[out Hr]|Hr];
      rewrite Hc in Hr; unfold result in Hr; simpl in Hr; subst r1.
    + rewrite (bind_result _ _ _ _ _ _ Hc). apply IH.
    + apply bind_out_of_fuel. rewrite Hc. reflexivity.
Qed.


Lemma thread_format_unsupported fuel (pDriver : DiskWriterDriver) pSong (w : World env) :
  sf_format_check env (sound_info pDriver) = false ->
  diskWriterDriver_thread env fuel pDriver pSong w
  = ([EVENT_PROGRESS 0; INFOLOG "DiskWriterDriver thread start"; AudioEngine_play;
      ERRORLOG "Error in soundInfo"],
     {| engine := play env (engine w); files := files w |}, Done tt).
Proof.
  intros H. unfold diskWriterDriver_thread. rewrite H. reflexivity.
Qed.

End Whole.


(** * A render that goes through *)

Lemma to_unsigned_range (x : spec_float) (z : Z) :
  Float.to_unsigned x = Some z -> 0 <= z <= UINT_MAX.
Proof.
  unfold Float.to_unsigned. destruct (Float.trunc x) as [t|]; [|discriminate].
  destruct (Z.leb_spec 0 t); [|discriminate].
  destruct (Z.leb_spec t UINT_MAX); [|discriminate].
  simpl. intros [= <-]. lia.
Qed.

Section Render.
Context {env : Env}.
Variables (k fuel : nat) (pDriver : DiskWriterDriver) (pSong : Song).
Variable m_file : option SNDFILE.
Hypothesis HB : 0 < m_nBufferSize pDriver <= INT_MAX.
Hypothesis Hready : ready_within env k.
Hypothesis Hk : (k <= fuel)%nat.
Hypothesis Hcolumns : Z.of_nat (length (patternGroupVector pSong)) <= INT_MAX.
Hypothesis Hrenderable : renderable env fuel pDriver pSong.

Let nColumns := Z.of_nat (length (patternGroupVector pSong)).

Lemma bind_ret {A B} (a : A) (f : A -> M env B) (w : World env) :
  bind (ret a) f w = f a w.
Proof. unfold bind, ret. destruct (f a w) as [[es w'] r]. reflexivity. Qed.

Lemma render_column_renders (pos : nat) pColumn pData (w : World env) :
  patternGroupVector pSong !! pos = Some pColumn ->
  exists frames p es w' out,
    render_column fuel pDriver pSong m_file nColumns (Z.of_nat pos) pData w
    = (es, w', Done out)
    /\ pattern_length_in_frames (env:=env) pDriver pSong (Z.of_nat pos) pColumn
       = Some frames
    /\ progress_percent (Z.of_nat pos) nColumns = Some p
    /\ column_trace m_file (m_nBufferSize pDriver) frames p es.
Proof.
  intros Hcol.
  destruct (Hrenderable pos pColumn Hcol) as (frames & Hframes & Hfuel).
  pose proof (to_unsigned_range _ _ Hframes) as Hrange.
  assert (Hpos : (pos < length (patternGroupVector pSong))%nat)
    by (apply lookup_lt_is_Some; eauto).
  destruct (progress_percent_floor (Z.of_nat pos) nColumns)
    as (p & F & Hp & _); [unfold nColumns; lia|exact Hcolumns|].
  destruct (render_chunks_terminates k fuel fuel pDriver m_file frames 0 pData w)
    as (es & w' & out & Hrun); try assumption; try lia.
  destruct (render_chunks_done fuel fuel pDriver m_file frames 0 pData w es w' out)
    as (ess & -> & Hall); try assumption; try lia.
  rewrite Z.sub_0_r in Hall.
  exists frames, p, (concat ess ++ [EVENT_PROGRESS p]), w', out.
  split; [|split; [exact Hframes|split; [exact Hp|exists ess; auto]]].
  unfold render_column. rewrite Nat2Z.id, Hcol. cbn [defined].
  rewrite bind_ret, Hframes. cbn [defined]. rewrite bind_ret.
  erewrite bind_eq; [reflexivity|exact Hrun|].
  rewrite Hp. cbn [defined]. rewrite bind_ret. reflexivity.
Qed.

Lemma render_columns_renders (n pos : nat) pData (w : World env) :
  (pos + n)%nat = length (patternGroupVector pSong) ->
  exists es w' out,
    render_columns fuel pDriver pSong m_file nColumns n (Z.of_nat pos) pData w
    = (es, w', Done out)
    /\ columns_trace (env:=env) pDriver pSong m_file nColumns (Z.of_nat pos)
         (drop pos (patternGroupVector pSong)) es.
Proof.
  revert pos pData w. induction n as [|n IH]; intros pos pData w Hlen.
  - exists [], w, pData. split; [reflexivity|].
    rewrite drop_ge by lia. reflexivity.
  - destruct (lookup_lt_is_Some_2 (patternGroupVector pSong) pos ltac:(lia))
      as [pColumn Hcol].
    destruct (render_column_renders pos pColumn pData w Hcol)
      as (frames & p & es1 & w1 & out1 & Hrun1 & Hframes & Hp & Htrace).
    destruct (IH (S pos) out1 w1 ltac:(lia)) as (es2 & w2 & out2 & Hrun2 & Hrest).
    exists (es1 ++ es2), w2, out2. split.
    + cbn [render_columns]. eapply bind_eq; [exact Hrun1|].
      replace (Z.of_nat pos + 1) with (Z.of_nat (S pos)) by lia. exact Hrun2.
    + rewrite (drop_S _ _ _ Hcol). cbn [columns_trace].
      exists frames, p, es1, es2. repeat split; try assumption.
      replace (Z.of_nat pos + 1) with (Z.of_nat (S pos)) by lia. exact Hrest.
Qed.

End Render.

Lemma to_int_small (z : Z) : INT_MIN <= z <= INT_MAX -> to_int z = z.
Proof.
  unfold to_int, INT_MIN, INT_MAX. intros H. rewrite Z.mod_small by lia. lia.
Qed.

(** A render whose needs are met runs to its end: it opens the file, renders
    the columns in order, closes the file. *)
Lemma thread_renders (env : Env) (k fuel : nat) (pDriver : DiskWriterDriver)
    (pSong : Song) (w : World env) :
  can_render env k fuel pDriver pSong ->
  let m_file := fst (sf_open env (m_sFilename pDriver) (sound_info pDriver) (files w)) in
  exists es w',
    diskWriterDriver_thread env fuel pDriver pSong w
    = ([EVENT_PROGRESS 0; INFOLOG "DiskWriterDriver thread start"; AudioEngine_play;
        Sf_open (m_sFilename pDriver) (sound_info pDriver)]
         ++ es ++ [Sf_close m_file; INFOLOG "DiskWriterDriver thread end"],
       w', Done tt)
    /\ columns_trace (env:=env) pDriver pSong m_file
         (Z.of_nat (length (patternGroupVector pSong))) 0
         (patternGroupVector pSong) es.
Proof.
  intros (Hfmt & HB & HN & Hready & Hk & Hrend) m_file.
  unfold diskWriterDriver_thread. rewrite Hfmt. cbn [negb].
  rewrite to_int_small by (unfold INT_MIN; lia). rewrite Nat2Z.id.
  set (w1 := {| engine := play env (engine w); files := files w |}).
  destruct (sf_open env (m_sFilename pDriver) (sound_info pDriver) (files w))
    as [h f] eqn:Hopen.
  set (w2 := {| engine := play env (engine w); files := f |} : World env).
  destruct (render_columns_renders k fuel pDriver pSong h HB Hready Hk HN Hrend
              (length (patternGroupVector pSong)) 0 (new_pData (env:=env) pDriver) w2 eq_refl)
    as (es & w3 & out & Hrun & Htrace).
  rewrite drop_0 in Htrace.
  exists es, {| engine := engine w3; files := sf_close env h (files w3) |}.
  split; [|exact Htrace].
  change ([EVENT_PROGRESS 0; INFOLOG "DiskWriterDriver thread start"; AudioEngine_play;
           Sf_open (m_sFilename pDriver) (sound_info pDriver)]
            ++ es ++ [Sf_close m_file; INFOLOG "DiskWriterDriver thread end"])
    with ([EVENT_PROGRESS 0] ++ [INFOLOG "DiskWriterDriver thread start"]
            ++ [AudioEngine_play]
            ++ [Sf_open (m_sFilename pDriver) (sound_info pDriver)]
            ++ es ++ [Sf_close h] ++ [INFOLOG "DiskWriterDriver thread end"]).
  eapply bind_eq; [reflexivity|].
  eapply bind_eq; [reflexivity|].
  eapply bind_eq; [reflexivity|].
  eapply bind_eq; [unfold call_sf_open; cbn [files]; rewrite Hopen; reflexivity|].
  eapply bind_eq; [exact Hrun|].
  eapply bind_eq; [reflexivity|]. reflexivity.
Qed.

(** * Reading the traces *)

Lemma binary_round_aux_sign prec emax sx mx ex lx :
  match binary_round_aux prec emax sx mx ex lx with
  | S754_finite s _ _ => s = sx
  | _ => True
  end.
Proof.
  unfold binary_round_aux.
  destruct (shr_fexp prec emax mx ex lx) as [mrs' e'].
  destruct (shr_fexp prec emax _ e' loc_Exact) as [mrs'' e''].
  destruct (shr_m mrs''); try exact I.
  destruct (e'' <=? emax - prec); [reflexivity|exact I].
Qed.

Lemma binary_round_sign prec emax sx mx ex :
  match binary_round prec emax sx mx ex with
  | S754_finite s _ _ => s = sx
  | _ => True
  end.
Proof.
  unfold binary_round. destruct (shl_align mx ex _) as [mz ez].
  apply binary_round_aux_sign.
Qed.

Lemma not_negative_round_aux prec emax mx ex lx :
  not_negative (binary_round_aux prec emax false mx ex lx) = true.
Proof.
  pose proof (binary_round_aux_sign prec emax false mx ex lx) as H.
  destruct (binary_round_aux prec emax false mx ex lx) as [| | |[] m e];
    try reflexivity. discriminate H.
Qed.

Lemma not_negative_of_int (z : Z) : 0 <= z -> not_negative (Float.of_int z) = true.
Proof.
  intros Hz. destruct z as [|p|p]; try lia; [reflexivity|].
  unfold Float.of_int, binary_normalize.
  pose proof (binary_round_sign Float.prec32 Float.emax32 false p 0) as H.
  destruct (binary_round Float.prec32 Float.emax32 false p 0) as [| | |[] m e];
    try reflexivity. discriminate H.
Qed.

Lemma not_negative_mul (x y : Float.float) :
  not_negative x = true -> not_negative y = true ->
  not_negative (Float.mul x y) = true.
Proof.
  destruct x as [sx|sx| |[] mx ex], y as [sy|sy| |[] my ey];
    try discriminate; try reflexivity; intros _ _.
  apply not_negative_round_aux.
Qed.

Lemma not_negative_div (x y : Float.float) :
  not_negative x = true -> not_negative y = true ->
  not_negative (Float.div x y) = true.
Proof.
  destruct x as [sx|sx| |[] mx ex], y as [sy|sy| |[] my ey];
    try discriminate; try reflexivity; intros _ _.
  unfold Float.div, SFdiv.
  destruct (SFdiv_core_binary _ _ _ _ _ _) as [[mz ez] lz].
  apply not_negative_round_aux.
Qed.

Lemma not_negative_computeTickSize nSampleRate fBpm nResolution :
  0 <= nSampleRate -> 0 <= nResolution -> not_negative fBpm = true ->
  not_negative (computeTickSize nSampleRate fBpm nResolution) = true.
Proof.
  intros Hr Hres Hb. unfold computeTickSize.
  apply not_negative_div; apply not_negative_mul;
    try apply not_negative_of_int; try assumption; lia.
Qed.

(** The integral part of a number that is not negative is its floor. *)
Lemma trunc_is_floor (x : spec_float) (z : Z) :
  not_negative x = true -> Float.trunc x = Some z ->
  (IZR z <= Float.to_R x < IZR z + 1)%R.
Proof.
  destruct x as [s|s| |[] m e]; try discriminate.
  - intros _ [= <-]. simpl. lra.
  - intros _ Ht. destruct (trunc_floor m e) as (z' & Ht' & _ & Hz').
    rewrite Ht in Ht'. injection Ht' as ->. exact Hz'.
Qed.

Lemma to_unsigned_trunc (x : spec_float) (z : Z) :
  Float.to_unsigned x = Some z -> Float.trunc x = Some z.
Proof.
  unfold Float.to_unsigned. destruct (Float.trunc x) as [t|]; [|discriminate].
  destruct ((0 <=? t) && (t <=? UINT_MAX)); [auto|discriminate].
Qed.

Lemma longest_pattern_length_max (p : Z) (ps : list Z) :
  In (fold_left Z.max ps p) (p :: ps)
  /\ (forall l, In l (p :: ps) -> l <= fold_left Z.max ps p).
Proof.
  revert p. induction ps as [|q ps IH]; intros p; simpl.
  - split; [auto|]. intros l [Hl|[]]. lia.
  - destruct (IH (Z.max p q)) as [Hin Hmax]. split.
    + destruct Hin as [Heq|Hin]; [|auto].
      rewrite <- Heq. destruct (Z.max_spec p q) as [[_ ->]|[_ ->]]; auto.
    + intros l [Hl|[Hl|Hl]].
      * specialize (Hmax (Z.max p q) (or_introl eq_refl)). lia.
      * specialize (Hmax (Z.max p q) (or_introl eq_refl)). lia.
      * apply Hmax. right. exact Hl.
Qed.

Lemma progress_events_app es1 es2 :
  progress_events (es1 ++ es2) = progress_events es1 ++ progress_events es2.
Proof. apply flat_map_app. Qed.

Lemma writes_app es1 es2 : writes (es1 ++ es2) = writes es1 ++ writes es2.
Proof. apply flat_map_app. Qed.

Lemma chunk_trace_projections m_file c es :
  chunk_trace m_file c es -> progress_events es = [] /\ writes es = [(m_file, c)].
Proof.
  intros (r & data & errs & -> & Herrs).
  rewrite progress_events_app, writes_app.
  assert (Hp : progress_events (replicate (S r) (ProcessCallback c)) = []
               /\ writes (replicate (S r) (ProcessCallback c)) = []).
  { induction (S r) as [|n [IH1 IH2]]; [split; reflexivity|].
    split; simpl; assumption. }
  destruct Hp as [-> ->]. destruct Herrs as [-> | ->]; split; reflexivity.
Qed.

Lemma chunks_projections m_file cs ess :
  Forall2 (chunk_trace m_file) cs ess ->
  progress_events (concat ess) = []
  /\ writes (concat ess) = map (fun c => (m_file, c)) cs.
Proof.
  induction 1 as [|c es cs ess Hc _ [IH1 IH2]]; [split; reflexivity|].
  destruct (chunk_trace_projections _ _ _ Hc) as [H1 H2].
  cbn [concat]. rewrite progress_events_app, writes_app, H1, H2, IH1, IH2.
  split; reflexivity.
Qed.

Lemma column_trace_projections m_file B frames p es :
  0 < B -> 0 <= frames -> column_trace m_file B frames p es ->
  progress_events es = [p]
  /\ sum (map snd (writes es)) = frames
  /\ Forall (fun hw => fst hw = m_file) (writes es).
Proof.
  intros HB Hf (ess & -> & Hall).
  destruct (chunks_projections _ _ _ Hall) as [H1 H2].
  rewrite progress_events_app, writes_app, H1, H2. cbn.
  rewrite app_nil_r. split; [reflexivity|]. split.
  - rewrite map_map. cbn. rewrite map_id. apply chunk_plan_sum; lia.
  - apply List.Forall_forall. intros hw Hin. apply in_map_iff in Hin.
    destruct Hin as (c & <- & _). reflexivity.
Qed.

Section Columns.
Context {env : Env}.
Variables (pDriver : DiskWriterDriver) (pSong : Song) (m_file : option SNDFILE).
Variable nColumns : Z.
Hypothesis HB : 0 < m_nBufferSize pDriver.

Lemma columns_trace_progress (columns : list PatternList) :
  forall (pos : Z) (es : list event),
    columns_trace (env:=env) pDriver pSong m_file nColumns pos columns es ->
    length (progress_events es) = length columns
    /\ (forall (i : nat) p, progress_events es !! i = Some p ->
          progress_percent (pos + Z.of_nat i) nColumns = Some p).
Proof.
  induction columns as [|pColumn rest IH]; intros pos es; cbn [columns_trace].
  - intros ->. split; [reflexivity|]. intros i p H. discriminate H.
  - intros (frames & p & es1 & es2 & Hframes & Hp & Hcol & Hrest & ->).
    pose proof (to_unsigned_range _ _ Hframes) as Hrange.
    destruct (column_trace_projections m_file (m_nBufferSize pDriver) frames p es1
                HB (proj1 Hrange) Hcol) as (Hp1 & _ & _).
    destruct (IH _ _ Hrest) as [Hlen Hat].
    rewrite progress_events_app, Hp1. cbn [app length]. split; [lia|].
    intros [|i] q; cbn.
    + intros [= <-]. rewrite Z.add_0_r. exact Hp.
    + intros Hq. rewrite <- (Hat i q Hq). f_equal. lia.
Qed.

End Columns.

Lemma render_column_frames {env : Env} (fuel : nat) (pDriver : DiskWriterDriver)
    (pSong : Song) (m_file : option SNDFILE) (nColumns patternPosition : Z)
    (pColumn : PatternList) (frames : Z) pData (w : World env) es w' out :
  0 < m_nBufferSize pDriver <= INT_MAX ->
  patternGroupVector pSong !! Z.to_nat patternPosition = Some pColumn ->
  pattern_length_in_frames (env:=env) pDriver pSong patternPosition pColumn
  = Some frames ->
  render_column fuel pDriver pSong m_file nColumns patternPosition pData w
  = (es, w', Done out) ->
  sum (map snd (writes es)) = frames.
Proof.
  intros HB Hcol Hframes. unfold render_column.
  rewrite Hcol. cbn [defined]. rewrite bind_ret, Hframes. cbn [defined].
  rewrite bind_ret. intros Hrun.
  pose proof (to_unsigned_range _ _ Hframes) as Hrange.
  apply bind_done in Hrun.
  destruct Hrun as (es1 & w1 & pData1 & es2 & Hchunks & Hrest & ->).
  destruct (render_chunks_done fuel fuel pDriver m_file frames 0 pData w es1 w1 pData1)
    as (ess & -> & Hall); try assumption; try lia.
  rewrite Z.sub_0_r in Hall.
  destruct (chunks_projections _ _ _ Hall) as [_ Hw].
  assert (Hes2 : writes es2 = []).
  { destruct (progress_percent patternPosition nColumns) as [p|];
      cbn [defined] in Hrest.
    - rewrite bind_ret in Hrest. injection Hrest as <- _ _. reflexivity.
    - discriminate Hrest. }
  rewrite writes_app, Hw, Hes2, app_nil_r, map_map. cbn. rewrite map_id.
  apply chunk_plan_sum; lia.
Qed.

Lemma progress_percent_final (nColumns : Z) :
  1 <= nColumns <= INT_MAX -> progress_percent (nColumns - 1) nColumns = Some 100.
Proof.
  intros HN.
  destruct (progress_percent_floor (nColumns - 1) nColumns ltac:(lia) ltac:(lia))
    as (p & F & Hp & Hv & HF & _).
  replace (nColumns - 1 + 1) with nColumns in Hv by lia.
  apply percent_value_final in Hv. subst F. rewrite Hp. f_equal.
  assert (H1 : (IZR p < IZR 101)%R) by lra. assert (H2 : (IZR 99 < IZR p)%R) by lra.
  apply lt_IZR in H1, H2. lia.
Qed.

Lemma progress_percent_monotone (pos pos' nColumns p q : Z) :
  0 <= pos <= pos' -> pos' < nColumns -> nColumns <= INT_MAX ->
  progress_percent pos nColumns = Some p -> progress_percent pos' nColumns = Some q ->
  p <= q.
Proof.
  intros Hpos Hlt HN Hp Hq.
  destruct (progress_percent_floor pos nColumns ltac:(lia) HN)
    as (p1 & F1 & Hp1 & Hv1 & HF1 & _).
  destruct (progress_percent_floor pos' nColumns ltac:(lia) HN)
    as (q1 & F2 & Hq1 & Hv2 & HF2 & _).
  rewrite Hp in Hp1. injection Hp1 as <-. rewrite Hq in Hq1. injection Hq1 as <-.
  pose proof (percent_value_monotone (pos + 1) (pos' + 1) nColumns F1 F2
                ltac:(lia) Hv1 Hv2) as HF.
  assert (H : (IZR p < IZR (q + 1))%R) by (rewrite plus_IZR; lra).
  apply lt_IZR in H. lia.
Qed.

Lemma progress_percent_range (pos nColumns p : Z) :
  0 <= pos < nColumns -> nColumns <= INT_MAX ->
  progress_percent pos nColumns = Some p -> 0 <= p <= 100.
Proof.
  intros Hpos HN Hp.
  destruct (progress_percent_floor pos nColumns Hpos HN) as (p1 & F & Hp1 & _ & _ & Hr).
  rewrite Hp in Hp1. injection Hp1 as <-. exact Hr.
Qed.

Lemma progress_percent_early (pos nColumns p : Z) :
  0 <= pos -> pos + 1 < nColumns -> nColumns <= 2 ^ 24 ->
  progress_percent pos nColumns = Some p -> p < 100.
Proof.
  intros Hpos Hlt HN Hp.
  destruct (progress_percent_floor pos nColumns ltac:(lia)
              ltac:(unfold INT_MAX; change (2 ^ 24) with 16777216 in HN; lia))
    as (p1 & F & Hp1 & Hv & HF & _).
  rewrite Hp in Hp1. injection Hp1 as <-.
  pose proof (percent_value_lt_100 (pos + 1) nColumns F ltac:(lia) HN Hv) as H100.
  assert (H : (IZR p < IZR 100)%R) by lra. apply lt_IZR in H. exact H.
Qed.

(** What every render that goes through pushes as progress. *)
Lemma thread_progress (env : Env) (k fuel : nat) (pDriver : DiskWriterDriver)
    (pSong : Song) (w : World env) :
  can_render env k fuel pDriver pSong ->
  let N := Z.of_nat (length (patternGroupVector pSong)) in
  exists es w' ps,
    diskWriterDriver_thread env fuel pDriver pSong w = (es, w', Done tt)
    /\ progress_events es = 0 :: ps
    /\ length ps = length (patternGroupVector pSong)
    /\ (forall (i : nat) p, ps !! i = Some p ->
          progress_percent (Z.of_nat i) N = Some p).
Proof.
  intros Hcan N.
  destruct (thread_renders env k fuel pDriver pSong w Hcan) as (es & w' & Hrun & Htrace).
  destruct Hcan as (_ & HB & _).
  destruct (columns_trace_progress pDriver pSong _ N ltac:(lia) _ _ _ Htrace)
    as [Hlen Hat].
  eexists _, w', (progress_events es). split; [exact Hrun|].
  split; [|split; [exact Hlen|exact Hat]].
  rewrite progress_events_app, progress_events_app. cbn. rewrite app_nil_r. reflexivity.
Qed.

(** The trace of the columns, column by column. *)
Lemma columns_trace_segments {env : Env} (pDriver : DiskWriterDriver) (pSong : Song)
    m_file nColumns (columns : list PatternList) :
  forall pos es,
    columns_trace (env:=env) pDriver pSong m_file nColumns pos columns es ->
    exists segs,
      es = concat segs /\ length segs = length columns
      /\ forall (i : nat) pColumn,
           columns !! i = Some pColumn ->
           exists seg frames p,
             segs !! i = Some seg
             /\ pattern_length_in_frames (env:=env) pDriver pSong (pos + Z.of_nat i) pColumn
                = Some frames
             /\ progress_percent (pos + Z.of_nat i) nColumns = Some p
             /\ column_trace m_file (m_nBufferSize pDriver) frames p seg.
Proof.
  induction columns as [|pColumn rest IH]; intros pos es Htrace.
  - cbn in Htrace. subst es. exists []. split; [reflexivity|]. split; [reflexivity|].
    intros i c Hc. discriminate Hc.
  - cbn [columns_trace] in Htrace.
    destruct Htrace as (frames & p & es1 & es2 & Hframes & Hp & Hcol & Hrest & ->).
    destruct (IH _ _ Hrest) as (segs & -> & Hlen & Hsegs).
    exists (es1 :: segs). split; [reflexivity|]. split; [cbn; rewrite Hlen; reflexivity|].
    intros [|i] c Hc; cbn in Hc.
    + injection Hc as <-. exists es1, frames, p. rewrite Z.add_0_r.
      repeat split; assumption.
    + destruct (Hsegs i c Hc) as (seg & f & q & H1 & H2 & H3 & H4).
      exists seg, f, q.
      replace (pos + Z.of_nat (S i)) with (pos + 1 + Z.of_nat i) by lia.
      repeat split; assumption.
Qed.
(** * What every run does *)

Lemma clip_in_unit x : in_unit (clip x) = true.
Proof.
  unfold in_unit, clip.
  destruct (Float.gtb x (Float.of_int 1)) eqn:H1; [reflexivity|].
  destruct (Float.ltb x (Float.of_int (-1))) eqn:H2; [reflexivity|].
  rewrite H1, H2. reflexivity.
Qed.

Lemma interleaved_in_unit pData_L pData_R n :
  Forall (fun x => in_unit x = true) (interleaved pData_L pData_R n).
Proof.
  unfold interleaved. apply List.Forall_forall. intros x Hin.
  apply in_flat_map in Hin. destruct Hin as (i & _ & [<-|[<-|[]]]); apply clip_in_unit.
Qed.

Section Safety.
Context {env : Env}.

Lemma events_bind {A B} (m : M env A) (k : A -> M env B) (w : World env) :
  events (bind m k w)
  = events (m w)
    ++ match m w with
       | (_, w', Done a) => events (k a w')
       | _ => []
       end.
Proof.
  unfold events, bind. destruct (m w) as [[es w'] [a| |]]; simpl;
    rewrite ?app_nil_r; try reflexivity.
  destruct (k a w') as [[es2 w2] r]. reflexivity.
Qed.

Lemma bind_Forall {A B} (P : event -> Prop) (m : M env A) (k : A -> M env B)
    (w : World env) :
  Forall P (events (m w)) ->
  (forall es w' a, m w = (es, w', Done a) -> Forall P (events (k a w'))) ->
  Forall P (events (bind m k w)).
Proof.
  intros Hm Hk. rewrite events_bind. apply Forall_app. split; [exact Hm|].
  destruct (m w) as [[es w'] [a| |]] eqn:E; [eapply Hk; reflexivity|constructor..].
Qed.

Variables (B : Z) (m_file : option SNDFILE).
Hypothesis HB : 0 <= B <= INT_MAX.

Lemma chunk_loop_event e : chunk_event B m_file e -> loop_event B m_file e.
Proof. destruct e; cbn; auto. Qed.

Lemma pull_chunk_event fuel n (w : World env) :
  0 <= n <= B -> (0 < B -> 0 < n) ->
  Forall (chunk_event B m_file) (events (pull fuel n w)).
Proof.
  intros Hn Hpos. destruct (pull fuel n w) as [[es w'] r] eqn:Hp.
  destruct (pull_trace _ _ _ _ _ _ Hp) as (k & -> & _). unfold events. simpl fst.
  change (Forall (chunk_event B m_file) (replicate (S k) (ProcessCallback n))).
  apply Forall_replicate. split; assumption.
Qed.

Lemma render_chunk_chunk_event fuel n pData (w : World env) :
  0 <= n <= B -> (0 < B -> 0 < n) -> Z.of_nat (length pData) = 2 * B ->
  Forall (chunk_event B m_file) (events (render_chunk fuel m_file n pData w))
  /\ (forall es w' out, render_chunk fuel m_file n pData w = (es, w', Done out) ->
        length out = length pData).
Proof.
  intros Hn Hpos Hlen.
  destruct (pull fuel n w) as [[es1 w1] r1] eqn:Hp.
  pose proof (pull_chunk_event fuel n w Hn Hpos) as Hpull. rewrite Hp in Hpull.
  unfold events in Hpull. simpl in Hpull.
  destruct (pull_result fuel n w) as [H|H]; rewrite Hp in H; unfold result in H;
    simpl in H; subst r1.
  - rewrite (render_chunk_done _ _ _ _ _ _ _ Hp). split.
    + unfold events at 1. cbn [fst]. apply Forall_app. split; [exact Hpull|].
      unfold chunk_written, events. cbn [fst].
      apply Forall_app. split.
      * constructor; [|constructor]. cbn [chunk_event].
        rewrite take_condition by (unfold INT_MAX in *; lia).
        split; [reflexivity|]. split; [exact Hn|]. split; [exact Hpos|].
        split; [rewrite interleaved_length; lia|apply interleaved_in_unit].
      * destruct (negb _); [constructor; [reflexivity|constructor]|constructor].
    + intros es w' out [= _ _ <-]. apply condition_length.
  - split.
    + unfold render_chunk. rewrite events_bind, Hp. unfold events. cbn [fst].
      rewrite app_nil_r. exact Hpull.
    + intros es w' out Hrun. exfalso.
      assert (Hr : result (render_chunk fuel m_file n pData w) = OutOfFuel)
        by (unfold render_chunk; apply bind_out_of_fuel; rewrite Hp; reflexivity).
      rewrite Hrun in Hr. discriminate Hr.
Qed.

Variable pDriver : DiskWriterDriver.
Hypothesis HBd : m_nBufferSize pDriver = B.

Lemma render_chunks_chunk_event fuel n frames frameNumber pData (w : World env) :
  0 <= frameNumber <= frames -> frames <= UINT_MAX ->
  Z.of_nat (length pData) = 2 * B ->
  Forall (chunk_event B m_file)
    (events (render_chunks fuel n pDriver m_file frames frameNumber pData w))
  /\ (forall es w' out,
        render_chunks fuel n pDriver m_file frames frameNumber pData w
        = (es, w', Done out) -> length out = length pData).
Proof.
  revert frameNumber pData w. induction n as [|n IH]; intros frameNumber pData w Hf Hmax Hlen;
    cbn [render_chunks].
  - destruct (Z.ltb_spec frameNumber frames).
    + split; [constructor|discriminate].
    + split; [constructor|]. intros es w' out [= _ _ <-]. reflexivity.
  - destruct (Z.ltb_spec frameNumber frames) as [Hlt|Hge].
    2:{ split; [constructor|]. intros es w' out [= _ _ <-]. reflexivity. }
    pose proof (used_buffer_min pDriver frames frameNumber ltac:(rewrite HBd; exact HB)
                  Hf Hmax) as Hu.
    rewrite HBd in Hu. rewrite Hu.
    set (c := Z.min B (frames - frameNumber)).
    assert (Hc : 0 <= c <= B) by (unfold c; lia).
    assert (Hcpos : 0 < B -> 0 < c) by (unfold c; lia).
    assert (Hnext : to_unsigned (frameNumber + c) = frameNumber + c).
    { unfold to_unsigned, UINT_MAX in *. apply Z.mod_small. unfold c. lia. }
    rewrite Hnext.
    destruct (render_chunk_chunk_event fuel c pData w Hc Hcpos Hlen) as [Hev Hout].
    split.
    + apply bind_Forall; [exact Hev|]. intros es w' out Hrun.
      apply IH; [unfold c; lia|exact Hmax|].
      rewrite (Hout _ _ _ Hrun). exact Hlen.
    + intros es w' out Hrun. apply bind_done in Hrun.
      destruct Hrun as (es1 & w1 & out1 & es2 & H1 & H2 & _).
      destruct (IH (frameNumber + c) out1 w1) as [_ Hlen2];
        [unfold c; lia|exact Hmax|rewrite (Hout _ _ _ H1); exact Hlen|].
      rewrite (Hlen2 _ _ _ H2). apply (Hout _ _ _ H1).
Qed.

Variable pSong : Song.

Lemma defined_events {A} (o : option A) (w : World env) : events (defined o w) = [].
Proof. destruct o; reflexivity. Qed.

Lemma defined_done {A} (o : option A) (w : World env) es w' a :
  defined o w = (es, w', Done a) -> o = Some a /\ es = [] /\ w' = w.
Proof. destruct o; cbn; [intros [= <- <- <-]; auto|discriminate]. Qed.

Lemma render_column_loop_event fuel nColumns pos pData (w : World env) :
  Z.of_nat (length pData) = 2 * B ->
  Forall (loop_event B m_file)
    (events (render_column fuel pDriver pSong m_file nColumns pos pData w))
  /\ (forall es w' out,
        render_column fuel pDriver pSong m_file nColumns pos pData w
        = (es, w', Done out) -> length out = length pData).
Proof.
  intros Hlen. unfold render_column. split.
  - apply bind_Forall; [rewrite defined_events; constructor|].
    intros es1 w1 pColumn H1. apply defined_done in H1. destruct H1 as (_ & _ & ->).
    apply bind_Forall; [rewrite defined_events; constructor|].
    intros es2 w2 frames H2. apply defined_done in H2. destruct H2 as (Hframes & _ & ->).
    pose proof (to_unsigned_range _ _ Hframes) as Hrange.
    destruct (render_chunks_chunk_event fuel fuel frames 0 pData w ltac:(lia)
                ltac:(lia) Hlen) as [Hev _].
    apply bind_Forall; [eapply Forall_impl; [exact Hev|exact chunk_loop_event]|].
    intros es3 w3 out _.
    apply bind_Forall; [rewrite defined_events; constructor|].
    intros es4 w4 p _.
    apply bind_Forall; [constructor; [exact I|constructor]|].
    intros. constructor.
  - intros es w' out Hrun.
    apply bind_done in Hrun. destruct Hrun as (es1 & w1 & pColumn & r1 & H1 & Hrun & _).
    apply defined_done in H1. destruct H1 as (_ & _ & ->).
    apply bind_done in Hrun. destruct Hrun as (es2 & w2 & frames & r2 & H2 & Hrun & _).
    apply defined_done in H2. destruct H2 as (Hframes & _ & ->).
    pose proof (to_unsigned_range _ _ Hframes) as Hrange.
    apply bind_done in Hrun. destruct Hrun as (es3 & w3 & out3 & r3 & H3 & Hrun & _).
    destruct (render_chunks_chunk_event fuel fuel frames 0 pData w ltac:(lia)
                ltac:(lia) Hlen) as [_ Hout].
    rewrite <- (Hout _ _ _ H3).
    apply bind_done in Hrun. destruct Hrun as (es4 & w4 & p & r4 & _ & Hrun & _).
    apply bind_done in Hrun. destruct Hrun as (es5 & w5 & [] & r5 & _ & Hrun & _).
    injection Hrun as _ _ <-. reflexivity.
Qed.

Lemma render_columns_loop_event fuel nColumns n pos pData (w : World env) :
  Z.of_nat (length pData) = 2 * B ->
  Forall (loop_event B m_file)
    (events (render_columns fuel pDriver pSong m_file nColumns n pos pData w)).
Proof.
  revert pos pData w. induction n as [|n IH]; intros pos pData w Hlen;
    cbn [render_columns]; [constructor|].
  destruct (render_column_loop_event fuel nColumns pos pData w Hlen) as [Hev Hout].
  apply bind_Forall; [exact Hev|]. intros es w' out Hrun.
  apply IH. rewrite (Hout _ _ _ Hrun). exact Hlen.
Qed.

End Safety.

Lemma new_pData_length {env : Env} (pDriver : DiskWriterDriver) :
  0 <= m_nBufferSize pDriver <= INT_MAX ->
  Z.of_nat (length (new_pData (env:=env) pDriver)) = 2 * m_nBufferSize pDriver.
Proof.
  intros HB. unfold new_pData, to_unsigned, INT_MAX in *.
  rewrite length_map, length_seq, Z.mod_small by lia. lia.
Qed.

Lemma result_bind {env : Env} {A B} (m : M env A) (k : A -> M env B) (w : World env) :
  result (bind m k w)
  = match m w with
    | (_, w', Done a) => result (k a w')
    | (_, _, OutOfFuel) => OutOfFuel
    | (_, _, Undefined) => Undefined
    end.
Proof.
  unfold result, bind. destruct (m w) as [[es w'] [a| |]]; try reflexivity.
  destruct (k a w') as [[es2 w2] r]. reflexivity.
Qed.

(** The shape of every run on a format that libsndfile accepts. *)
Lemma thread_shape (env : Env) (fuel : nat) (pDriver : DiskWriterDriver)
    (pSong : Song) (w : World env) :
  0 <= m_nBufferSize pDriver <= INT_MAX ->
  sf_format_check env (sound_info pDriver) = true ->
  let r := diskWriterDriver_thread env fuel pDriver pSong w in
  let m_file := fst (sf_open env (m_sFilename pDriver) (sound_info pDriver) (files w)) in
  exists body tail,
    events r
    = [EVENT_PROGRESS 0; INFOLOG "DiskWriterDriver thread start"; AudioEngine_play;
       Sf_open (m_sFilename pDriver) (sound_info pDriver)] ++ body ++ tail
    /\ Forall (loop_event (m_nBufferSize pDriver) m_file) body
    /\ (result r = Done tt ->
        tail = [Sf_close m_file; INFOLOG "DiskWriterDriver thread end"])
    /\ (result r <> Done tt -> tail = []).
Proof.
  intros HB Hfmt r m_file. unfold r, diskWriterDriver_thread.
  rewrite Hfmt. cbn [negb].
  assert (Hopen : call_sf_open (m_sFilename pDriver) (sound_info pDriver)
                    {| engine := play env (engine w); files := files w |}
                  = ([Sf_open (m_sFilename pDriver) (sound_info pDriver)],
                     {| engine := play env (engine w);
                        files := snd (sf_open env (m_sFilename pDriver)
                                        (sound_info pDriver) (files w)) |},
                     Done m_file)).
  { unfold call_sf_open, m_file. cbn [files engine].
    destruct (sf_open env _ _ _) as [h f]. reflexivity. }
  set (w2 := {| engine := play env (engine w);
                files := snd (sf_open env (m_sFilename pDriver)
                                (sound_info pDriver) (files w)) |} : World env) in *.
  set (N := to_int (Z.of_nat (length (patternGroupVector pSong)))).
  erewrite !bind_events by reflexivity.
  erewrite !bind_result by reflexivity.
  erewrite (bind_events (call_sf_open _ _)) by exact Hopen.
  erewrite (bind_result (call_sf_open _ _)) by exact Hopen.
  pose proof (render_columns_loop_event (m_nBufferSize pDriver) m_file HB pDriver eq_refl
                pSong fuel N (Z.to_nat N) 0 (new_pData (env:=env) pDriver) w2
                (new_pData_length pDriver HB)) as Hev.
  rewrite events_bind, result_bind.
  destruct (render_columns fuel pDriver pSong m_file N (Z.to_nat N) 0
              (new_pData (env:=env) pDriver) w2) as [[es3 w3] [out| |]] eqn:Hrun;
    unfold events in Hev; cbn [fst] in Hev.
  - exists es3, [Sf_close m_file; INFOLOG "DiskWriterDriver thread end"].
    split; [reflexivity|]. split; [exact Hev|]. split; [reflexivity|].
    intros Hne. exfalso. apply Hne. reflexivity.
  - exists es3, []. split; [cbn; rewrite !app_nil_r; reflexivity|].
    split; [exact Hev|]. split; [discriminate|reflexivity].
  - exists es3, []. split; [cbn; rewrite !app_nil_r; reflexivity|].
    split; [exact Hev|]. split; [discriminate|reflexivity].
Qed.

(** Where an event of a run on an accepted format comes from. *)
Lemma thread_event_cases (env : Env) (fuel : nat) (pDriver : DiskWriterDriver)
    (pSong : Song) (w : World env) (e : event) :
  0 <= m_nBufferSize pDriver <= INT_MAX ->
  In e (events (diskWriterDriver_thread env fuel pDriver pSong w)) ->
  let m_file := fst (sf_open env (m_sFilename pDriver) (sound_info pDriver) (files w)) in
  In e [EVENT_PROGRESS 0; INFOLOG "DiskWriterDriver thread start"; AudioEngine_play;
        ERRORLOG "Error in soundInfo";
        Sf_open (m_sFilename pDriver) (sound_info pDriver);
        Sf_close m_file; INFOLOG "DiskWriterDriver thread end"]
  \/ loop_event (m_nBufferSize pDriver) m_file e.
Proof.
  intros HB Hin m_file.
  destruct (sf_format_check env (sound_info pDriver)) eqn:Hfmt.
  - destruct (thread_shape env fuel pDriver pSong w HB Hfmt)
      as (body & tail & Hev & Hbody & Hdone & Hnot).
    rewrite Hev in Hin. apply in_app_or in Hin. destruct Hin as [Hin|Hin].
    { left. cbn in Hin. cbn. tauto. }
    apply in_app_or in Hin. destruct Hin as [Hin|Hin].
    { right. rewrite List.Forall_forall in Hbody. apply Hbody. exact Hin. }
    left.
    destruct (result (diskWriterDriver_thread env fuel pDriver pSong w)) as [[]| |] eqn:Hr.
    + rewrite (Hdone eq_refl) in Hin. cbn in Hin. cbn. fold m_file. tauto.
    + rewrite Hnot in Hin by discriminate. destruct Hin.
    + rewrite Hnot in Hin by discriminate. destruct Hin.
  - rewrite (thread_format_unsupported fuel pDriver pSong w Hfmt) in Hin.
    left. cbn in Hin. cbn. tauto.
Qed.

Lemma plays_app es1 es2 : plays (es1 ++ es2) = (plays es1 + plays es2)%nat.
Proof. unfold plays. rewrite List.filter_app, length_app. reflexivity. Qed.

Lemma opens_app es1 es2 : opens (es1 ++ es2) = opens es1 ++ opens es2.
Proof. apply flat_map_app. Qed.

Lemma closes_app es1 es2 : closes (es1 ++ es2) = closes es1 ++ closes es2.
Proof. apply flat_map_app. Qed.

Lemma pulls_app es1 es2 : pulls (es1 ++ es2) = pulls es1 ++ pulls es2.
Proof. apply flat_map_app. Qed.

Lemma loop_events_calls B m_file es :
  Forall (loop_event B m_file) es ->
  plays es = 0%nat /\ opens es = [] /\ closes es = [].
Proof.
  induction 1 as [|e es He _ (IH1 & IH2 & IH3)]; [repeat split|].
  change (e :: es) with ([e] ++ es). rewrite plays_app, opens_app, closes_app, IH1, IH2, IH3.
  destruct e; cbn in He; try contradiction; repeat split.
Qed.

Lemma chunk_events_progress B m_file es :
  Forall (chunk_event B m_file) es -> progress_events es = [].
Proof.
  induction 1 as [|e es He _ IH]; [reflexivity|].
  change (e :: es) with ([e] ++ es). rewrite progress_events_app, IH.
  destruct e; cbn in He; try contradiction; reflexivity.
Qed.

(** The one place of a call in a trace that holds it once. *)
Lemma split_at_unique (P : event -> bool) (l1 l2 es1 es2 : list event) (x y : event) :
  forallb (fun e => negb (P e)) l1 = true -> P x = true -> P y = true ->
  forallb (fun e => negb (P e)) l2 = true ->
  l1 ++ x :: l2 = es1 ++ y :: es2 -> l1 = es1 /\ x = y /\ l2 = es2.
Proof.
  intros H1 Hx Hy H2. revert es1. induction l1 as [|a l1 IH]; intros es1 Heq.
  - destruct es1 as [|b es1]; cbn in Heq.
    + injection Heq as <- <-. auto.
    + injection Heq as <- ->. rewrite forallb_app in H2. cbn in H2.
      rewrite Hy in H2. cbn in H2. rewrite andb_false_r in H2. discriminate.
  - cbn in H1. apply andb_prop in H1. destruct H1 as [Ha H1].
    destruct es1 as [|b es1]; cbn in Heq.
    + injection Heq as -> _. rewrite Hy in Ha. discriminate.
    + injection Heq as <- Heq. destruct (IH H1 es1 Heq) as (-> & -> & ->). auto.
Qed.

Lemma loop_events_no_open_close B m_file es :
  Forall (loop_event B m_file) es ->
  forallb (fun e => negb (is_open e)) es = true
  /\ forallb (fun e => negb (is_close e)) es = true.
Proof.
  induction 1 as [|e es He _ [IH1 IH2]]; [split; reflexivity|].
  cbn. rewrite IH1, IH2. destruct e; cbn in He; try contradiction; split; reflexivity.
Qed.

Lemma chunk_plan_length B f :
  0 < B -> 0 <= f -> Z.of_nat (length (chunk_plan B f)) = (f + B - 1) / B.
Proof.
  intros HB Hf. unfold chunk_plan. rewrite length_app, length_replicate.
  pose proof (Z.div_mod f B ltac:(lia)) as Hdm.
  pose proof (Z.mod_pos_bound f B HB) as Hm.
  pose proof (Z.div_pos f B Hf HB) as Hq.
  destruct (Z.eqb_spec (f mod B) 0) as [H0|Hne]; cbn [length].
  - rewrite <- (Z.div_unique (f + B - 1) B (f / B) (B - 1)) by lia. lia.
  - rewrite <- (Z.div_unique (f + B - 1) B (f / B + 1) (f mod B - 1)) by lia. lia.
Qed.

Lemma sum_app l1 l2 : sum (l1 ++ l2) = sum l1 + sum l2.
Proof. unfold sum. induction l1 as [|a l1 IH]; cbn; [reflexivity|]. rewrite IH. lia. Qed.

Lemma column_trace_writes m_file B frames p es :
  column_trace m_file B frames p es ->
  writes es = map (fun c => (m_file, c)) (chunk_plan B frames).
Proof.
  intros (ess & -> & Hall). destruct (chunks_projections _ _ _ Hall) as [_ Hw].
  rewrite writes_app, Hw. cbn. apply app_nil_r.
Qed.

Lemma columns_trace_writes {env : Env} (pDriver : DiskWriterDriver) (pSong : Song)
    m_file nColumns (columns : list PatternList) :
  forall pos es,
    columns_trace (env:=env) pDriver pSong m_file nColumns pos columns es ->
    exists fs,
      column_frames (env:=env) pDriver pSong pos columns = Some fs
      /\ writes es
         = concat (map (fun f => map (fun c => (m_file, c))
                                   (chunk_plan (m_nBufferSize pDriver) f)) fs)
      /\ Forall (fun f => 0 <= f <= UINT_MAX) fs.
Proof.
  induction columns as [|pColumn rest IH]; intros pos es; cbn [columns_trace column_frames].
  - intros ->. exists []. repeat split. constructor.
  - intros (frames & p & es1 & es2 & Hframes & Hp & Hcol & Hrest & ->).
    destruct (IH _ _ Hrest) as (fs & Hfs & Hw & Hall).
    exists (frames :: fs). rewrite Hframes, Hfs. split; [reflexivity|].
    split.
    + rewrite writes_app, Hw, (column_trace_writes _ _ _ _ _ Hcol). reflexivity.
    + constructor; [apply (to_unsigned_range _ _ Hframes)|exact Hall].
Qed.

Lemma writes_of_plans (m_file : option SNDFILE) B fs :
  0 < B -> Forall (fun f => 0 <= f <= UINT_MAX) fs ->
  let ws := concat (map (fun f => map (fun c => (m_file, c)) (chunk_plan B f)) fs) in
  map snd ws = concat (map (chunk_plan B) fs)
  /\ sum (map snd ws) = sum fs
  /\ Z.of_nat (length ws) = sum (map (fun f => (f + B - 1) / B) fs).
Proof.
  intros HB Hall. cbn zeta. induction Hall as [|f fs Hf _ (IH1 & IH2 & IH3)];
    [repeat split|].
  cbn [map concat]. rewrite map_app, length_app, sum_app, IH2, IH1.
  rewrite map_map. cbn [snd]. rewrite map_id.
  split; [reflexivity|]. split.
  - rewrite chunk_plan_sum by lia. reflexivity.
  - rewrite Nat2Z.inj_add, IH3, length_map, chunk_plan_length by lia. reflexivity.
Qed.

Lemma bind_stuck {env : Env} {A B} (m : M env A) (k : A -> M env B) (w : World env)
    es w' :
  m w = (es, w', OutOfFuel) -> bind m k w = (es, w', OutOfFuel).
Proof. intros H. unfold bind. rewrite H. reflexivity. Qed.

(** A run whose first column never gets through its chunks. *)
Lemma first_column_stuck (env : Env) (fuel : nat) (pDriver : DiskWriterDriver)
    (pSong : Song) (w : World env) (pColumn : PatternList) (frames : Z) :
  sf_format_check env (sound_info pDriver) = true ->
  Z.of_nat (length (patternGroupVector pSong)) <= INT_MAX ->
  patternGroupVector pSong !! 0%nat = Some pColumn ->
  pattern_length_in_frames (env:=env) pDriver pSong 0 pColumn = Some frames ->
  let m_file := fst (sf_open env (m_sFilename pDriver) (sound_info pDriver) (files w)) in
  let w2 : World env :=
    {| engine := play env (engine w);
       files := snd (sf_open env (m_sFilename pDriver) (sound_info pDriver) (files w)) |} in
  let chunks :=
    render_chunks fuel fuel pDriver m_file frames 0 (new_pData (env:=env) pDriver) w2 in
  result chunks = OutOfFuel ->
  result (diskWriterDriver_thread env fuel pDriver pSong w) = OutOfFuel
  /\ events (diskWriterDriver_thread env fuel pDriver pSong w)
     = [EVENT_PROGRESS 0; INFOLOG "DiskWriterDriver thread start"; AudioEngine_play;
        Sf_open (m_sFilename pDriver) (sound_info pDriver)] ++ events chunks.
Proof.
  intros Hfmt HN Hcol Hframes m_file w2 chunks Hstuck.
  unfold diskWriterDriver_thread. rewrite Hfmt. cbn [negb].
  assert (Hopen : call_sf_open (m_sFilename pDriver) (sound_info pDriver)
                    {| engine := play env (engine w); files := files w |}
                  = ([Sf_open (m_sFilename pDriver) (sound_info pDriver)], w2,
                     Done m_file)).
  { unfold call_sf_open, m_file, w2. cbn [files engine].
    destruct (sf_open env _ _ _) as [h f]. reflexivity. }
  assert (Hlen : (0 < length (patternGroupVector pSong))%nat)
    by (apply lookup_lt_Some in Hcol; exact Hcol).
  rewrite to_int_small by (unfold INT_MIN; lia). rewrite Nat2Z.id.
  destruct (length (patternGroupVector pSong)) as [|n] eqn:Hn; [lia|].
  cbn [render_columns].
  erewrite !bind_events by reflexivity.
  erewrite !bind_result by reflexivity.
  erewrite (bind_events (call_sf_open _ _)) by exact Hopen.
  erewrite (bind_result (call_sf_open _ _)) by exact Hopen.
  assert (Hcolumn : render_column fuel pDriver pSong m_file (Z.of_nat (S n)) 0
                      (new_pData (env:=env) pDriver) w2
                    = (events chunks, world chunks, OutOfFuel)).
  { unfold render_column. change (Z.to_nat 0) with 0%nat. rewrite Hcol.
    cbn [defined]. rewrite bind_ret, Hframes. cbn [defined]. rewrite bind_ret.
    unfold chunks in *. unfold bind at 1.
    destruct (render_chunks fuel fuel pDriver m_file frames 0 (new_pData pDriver) w2)
      as [[es3 w3] r3].
    unfold result in Hstuck. cbn in Hstuck. subst r3. reflexivity. }
  pose proof (bind_stuck _ (fun pData => render_columns fuel pDriver pSong m_file
                (Z.of_nat (S n)) n (0 + 1) pData) _ _ _ Hcolumn) as Hcolumns.
  rewrite events_bind, result_bind, Hcolumns. cbn [events fst].
  rewrite !app_nil_r. split; reflexivity.
Qed.

Section Stuck.
Context {env : Env}.

Lemma never_ready_retry fuel n r (w : World env) :
  never_ready env -> r <> 0 -> result (retry fuel n r w) = OutOfFuel.
Proof.
  intros Hdeaf. revert r w. induction fuel as [|fuel IH]; intros r w Hr; cbn [retry];
    destruct (Z.eqb_spec r 0) as [|_]; try contradiction; [reflexivity|].
  rewrite result_bind. unfold call_processCallback.
  pose proof (Hdeaf n (engine w)) as Hne.
  destruct (processCallback env n (engine w)) as [r' e']. apply IH. exact Hne.
Qed.

Lemma never_ready_pull fuel n (w : World env) :
  never_ready env -> result (pull fuel n w) = OutOfFuel.
Proof.
  intros Hdeaf. unfold pull. rewrite result_bind. unfold call_processCallback.
  pose proof (Hdeaf n (engine w)) as Hne.
  destruct (processCallback env n (engine w)) as [r' e'].
  apply never_ready_retry; assumption.
Qed.

Lemma never_ready_chunks fuel n (pDriver : DiskWriterDriver) m_file frames frameNumber
    pData (w : World env) :
  never_ready env -> frameNumber < frames ->
  let chunks := render_chunks fuel n pDriver m_file frames frameNumber pData w in
  result chunks = OutOfFuel /\ writes (events chunks) = [].
Proof.
  intros Hdeaf Hlt. destruct n as [|n]; cbn [render_chunks];
    destruct (Z.ltb_spec frameNumber frames) as [_|]; try lia; [split; reflexivity|].
  set (c := used_buffer pDriver frames frameNumber).
  pose proof (never_ready_pull fuel c w Hdeaf) as Hp.
  assert (Hc : result (render_chunk fuel m_file c pData w) = OutOfFuel
               /\ events (render_chunk fuel m_file c pData w) = events (pull fuel c w)).
  { unfold render_chunk. rewrite result_bind, events_bind.
    unfold result in Hp. destruct (pull fuel c w) as [[es1 w1] r1]. cbn in Hp. subst r1.
    cbn. rewrite app_nil_r. split; reflexivity. }
  destruct Hc as [Hr He].
  rewrite result_bind, events_bind.
  unfold result in Hr. destruct (render_chunk fuel m_file c pData w) as [[es2 w2] r2].
  cbn in Hr. subst r2. split; [reflexivity|].
  rewrite app_nil_r, He.
  destruct (pull fuel c w) as [[es1 w1] r1] eqn:Hpull.
  destruct (pull_trace _ _ _ _ _ _ Hpull) as (k & -> & _). unfold events. cbn [fst].
  clear. induction (S k) as [|m IH]; [reflexivity|exact IH].
Qed.

End Stuck.

Section EveryRun.
Context {env : Env}.

Lemma render_chunk_quiet fuel m_file n pData (w : World env) :
  progress_events (events (render_chunk fuel m_file n pData w)) = [].
Proof.
  destruct (pull fuel n w) as [[es1 w1] r1] eqn:Hp.
  destruct (pull_trace _ _ _ _ _ _ Hp) as (k & -> & _).
  assert (Hq : progress_events (replicate (S k) (ProcessCallback n)) = [])
    by (clear; induction (S k) as [|m IH]; [reflexivity|exact IH]).
  destruct (pull_result fuel n w) as [H|H]; rewrite Hp in H; unfold result in H;
    cbn in H; subst r1.
  - rewrite (render_chunk_done _ _ _ _ _ _ _ Hp). unfold events at 1. cbn [fst].
    rewrite progress_events_app, Hq. unfold chunk_written, events. cbn [fst].
    rewrite progress_events_app. destruct (negb _); reflexivity.
  - unfold render_chunk. rewrite events_bind, Hp. unfold events. cbn [fst].
    rewrite app_nil_r. exact Hq.
Qed.

Lemma render_chunks_quiet fuel n (pDriver : DiskWriterDriver) m_file frames frameNumber
    pData (w : World env) :
  progress_events
    (events (render_chunks fuel n pDriver m_file frames frameNumber pData w)) = []
  /\ result (render_chunks fuel n pDriver m_file frames frameNumber pData w)
     <> Undefined.
Proof.
  revert frameNumber pData w. induction n as [|n IH]; intros frameNumber pData w;
    cbn [render_chunks]; destruct (frameNumber <? frames);
    try (split; [reflexivity|discriminate]).
  rewrite events_bind, result_bind, progress_events_app, render_chunk_quiet.
  destruct (render_chunk_result fuel m_file (used_buffer pDriver frames frameNumber)
              pData w) as [[out Hr]|Hr]; unfold result in Hr;
    destruct (render_chunk fuel m_file _ pData w) as [[es1 w1] r1]; cbn in Hr; subst r1.
  - apply IH.
  - split; [reflexivity|discriminate].
Qed.

Variables (fuel : nat) (pDriver : DiskWriterDriver) (pSong : Song).
Variable m_file : option SNDFILE.
Let N := Z.of_nat (length (patternGroupVector pSong)).
Hypothesis HN : N <= INT_MAX.

Lemma render_column_progress (pos : nat) pColumn pData (w : World env) :
  patternGroupVector pSong !! pos = Some pColumn ->
  let rc := render_column fuel pDriver pSong m_file N (Z.of_nat pos) pData w in
  match result rc with
  | Done _ => exists p, progress_percent (Z.of_nat pos) N = Some p
                        /\ progress_events (events rc) = [p]
  | OutOfFuel => progress_events (events rc) = []
  | Undefined =>
      progress_events (events rc) = []
      /\ pattern_length_in_frames (env:=env) pDriver pSong (Z.of_nat pos) pColumn = None
  end.
Proof.
  intros Hcol rc. unfold rc, render_column. rewrite Nat2Z.id, Hcol. cbn [defined].
  rewrite bind_ret.
  destruct (pattern_length_in_frames pDriver pSong (Z.of_nat pos) pColumn)
    as [frames|] eqn:Hframes; cbn [defined].
  2:{ cbn. split; reflexivity. }
  rewrite bind_ret.
  assert (Hpos : (pos < length (patternGroupVector pSong))%nat)
    by (apply lookup_lt_is_Some; eauto).
  destruct (progress_percent_floor (Z.of_nat pos) N ltac:(unfold N; lia) HN)
    as (p & F & Hp & _).
  rewrite Hp. cbn [defined].
  destruct (render_chunks_quiet fuel fuel pDriver m_file frames 0 pData w) as [Hq Hr].
  rewrite events_bind, result_bind, progress_events_app, Hq.
  destruct (render_chunks fuel fuel pDriver m_file frames 0 pData w)
    as [[es1 w1] [out| |]]; cbn [app].
  - cbn. exists p. split; reflexivity.
  - reflexivity.
  - exfalso. apply Hr. reflexivity.
Qed.

Lemma render_columns_progress (n pos : nat) pData (w : World env) :
  (pos + n)%nat = length (patternGroupVector pSong) ->
  let rcs := render_columns fuel pDriver pSong m_file N n (Z.of_nat pos) pData w in
  (length (progress_events (events rcs)) <= n)%nat
  /\ (forall (i : nat) p, progress_events (events rcs) !! i = Some p ->
        progress_percent (Z.of_nat (pos + i)) N = Some p)
  /\ (forall out, result rcs = Done out -> length (progress_events (events rcs)) = n)
  /\ (result rcs = Undefined ->
      exists (pos' : nat) pColumn,
        patternGroupVector pSong !! pos' = Some pColumn
        /\ pattern_length_in_frames (env:=env) pDriver pSong (Z.of_nat pos') pColumn
           = None).
Proof.
  revert pos pData w. induction n as [|n IH]; intros pos pData w Hlen rcs;
    unfold rcs; cbn [render_columns].
  - cbn. repeat split; try lia; try discriminate.
  - destruct (lookup_lt_is_Some_2 (patternGroupVector pSong) pos ltac:(lia))
      as [pColumn Hcol].
    pose proof (render_column_progress pos pColumn pData w Hcol) as Hc. cbn zeta in Hc.
    rewrite events_bind, result_bind, progress_events_app.
    unfold result, events in Hc.
    destruct (render_column fuel pDriver pSong m_file N (Z.of_nat pos) pData w)
      as [[es1 w1] [out1| |]]; cbn [fst snd] in Hc.
    + destruct Hc as (p & Hp & Hes1).
      replace (Z.of_nat pos + 1) with (Z.of_nat (S pos)) by lia.
      destruct (IH (S pos) out1 w1 ltac:(lia)) as (H1 & H2 & H3 & H4).
      change (events (es1, w1, Done out1)) with es1. rewrite Hes1.
      cbn [app length]. split; [lia|]. split; [|split].
      * intros [|i] q; cbn.
        -- intros [= <-]. rewrite Nat.add_0_r. exact Hp.
        -- intros Hq. replace (pos + S i)%nat with (S pos + i)%nat by lia.
           apply H2. exact Hq.
      * intros out Hout. rewrite (H3 out Hout). reflexivity.
      * exact H4.
    + change (events (es1, w1, OutOfFuel)) with es1. rewrite Hc. cbn.
      repeat split; try lia; try discriminate.
    + destruct Hc as [Hes1 Hnone]. change (events (es1, w1, Undefined)) with es1.
      rewrite Hes1. cbn.
      repeat split; try lia; try discriminate.
      intros _. exists pos, pColumn. split; assumption.
Qed.

End EveryRun.

Lemma thread_progress_every_run (env : Env) (fuel : nat) (pDriver : DiskWriterDriver)
    (pSong : Song) (w : World env) :
  Z.of_nat (length (patternGroupVector pSong)) <= INT_MAX ->
  let r := diskWriterDriver_thread env fuel pDriver pSong w in
  let N := Z.of_nat (length (patternGroupVector pSong)) in
  exists ps,
    progress_events (events r) = 0 :: ps
    /\ (length ps <= length (patternGroupVector pSong))%nat
    /\ (forall (i : nat) p, ps !! i = Some p -> progress_percent (Z.of_nat i) N = Some p)
    /\ (result r = Done tt -> sf_format_check env (sound_info pDriver) = true ->
        length ps = length (patternGroupVector pSong))
    /\ (result r = Undefined ->
        exists (pos : nat) pColumn,
          patternGroupVector pSong !! pos = Some pColumn
          /\ pattern_length_in_frames (env:=env) pDriver pSong (Z.of_nat pos) pColumn
             = None).
Proof.
  intros HN r N. unfold r.
  destruct (sf_format_check env (sound_info pDriver)) eqn:Hfmt.
  2:{ rewrite (thread_format_unsupported fuel pDriver pSong w Hfmt).
      exists []. cbn. repeat split; try lia; try discriminate. }
  unfold diskWriterDriver_thread. rewrite Hfmt. cbn [negb].
  rewrite to_int_small by (unfold INT_MIN; lia). rewrite Nat2Z.id.
  set (m_file := fst (sf_open env (m_sFilename pDriver) (sound_info pDriver) (files w))).
  set (w2 := {| engine := play env (engine w);
                files := snd (sf_open env (m_sFilename pDriver) (sound_info pDriver)
                                (files w)) |} : World env).
  assert (Hopen : call_sf_open (m_sFilename pDriver) (sound_info pDriver)
                    {| engine := play env (engine w); files := files w |}
                  = ([Sf_open (m_sFilename pDriver) (sound_info pDriver)], w2,
                     Done m_file)).
  { unfold call_sf_open, m_file, w2. cbn [files engine].
    destruct (sf_open env _ _ _) as [h f]. reflexivity. }
  erewrite !bind_events by reflexivity.
  erewrite !bind_result by reflexivity.
  erewrite (bind_events (call_sf_open _ _)) by exact Hopen.
  erewrite (bind_result (call_sf_open _ _)) by exact Hopen.
  destruct (render_columns_progress fuel pDriver pSong m_file HN
              (length (patternGroupVector pSong)) 0 (new_pData (env:=env) pDriver) w2
              eq_refl) as (H1 & H2 & H3 & H4).
  change (Z.of_nat 0) with 0 in H1, H2, H3, H4. cbn [Nat.add] in H2.
  rewrite events_bind, result_bind.
  unfold result, events in H1, H2, H3, H4.
  destruct (render_columns fuel pDriver pSong m_file
              (Z.of_nat (length (patternGroupVector pSong)))
              (length (patternGroupVector pSong)) 0 (new_pData pDriver) w2)
    as [[es3 w3] [out| |]]; cbn [fst snd] in H1, H2, H3, H4.
  - exists (progress_events es3). cbn. rewrite !progress_events_app. cbn.
    rewrite app_nil_r. split; [reflexivity|]. split; [exact H1|]. split; [exact H2|].
    split; [intros _ _; apply (H3 out eq_refl)|discriminate].
  - exists (progress_events es3). cbn. rewrite app_nil_r.
    split; [reflexivity|]. split; [exact H1|]. split; [exact H2|].
    split; discriminate.
  - exists (progress_events es3). cbn. rewrite app_nil_r.
    split; [reflexivity|]. split; [exact H1|]. split; [exact H2|].
    split; [discriminate|]. intros _. apply H4. reflexivity.
Qed.
(** * The driver object *)

Section ObjectFacts.
Import Object.

Lemma live_app h1 h2 : live (h1 ++ h2) = (live h1 + live h2)%nat.
Proof. unfold live. rewrite List.filter_app, length_app. reflexivity. Qed.

Lemma live_delete (h : list array) (a : nat) (b : array) :
  h !! a = Some b -> deleted b = false ->
  (live (<[ a := {| array_length := array_length b; deleted := true |} ]> h) + 1)%nat
  = live h.
Proof.
  revert a. induction h as [|c h IH]; intros a Ha Hb; [discriminate Ha|].
  destruct a as [|a]; cbn in Ha.
  - injection Ha as ->. unfold live. cbn. rewrite Hb. cbn.
    rewrite Nat.add_1_r. reflexivity.
  - specialize (IH a Ha Hb). unfold live in *. cbn.
    destruct (negb (deleted c)); cbn; rewrite <- IH; reflexivity.
Qed.

Lemma delete_live (h : list array) (a : nat) (n : Z) :
  h !! a = Some {| array_length := n; deleted := false |} ->
  delete_array (Some a) h = Some (<[ a := {| array_length := n; deleted := true |} ]> h).
Proof. intros H. unfold delete_array. rewrite H. reflexivity. Qed.

Lemma threads_app cs1 cs2 : threads (cs1 ++ cs2) = (threads cs1 + threads cs2)%nat.
Proof. unfold threads. rewrite List.filter_app, length_app. reflexivity. Qed.

Lemma run_app (ops1 ops2 : list op) (s : process) :
  run (ops1 ++ ops2) s
  = match run ops1 s with
    | Some s' => run ops2 s'
    | None => None
    end.
Proof.
  revert s. induction ops1 as [|o ops1 IH]; intros s; [reflexivity|].
  cbn [run app]. destruct (step o s) as [s'|]; [apply IH|reflexivity].
Qed.

Section Invariant.
Variables (nSamplerate nSampleDepth : Z) (h0 : list array).

Lemma step_kept (o : op) (s : process) :
  kept nSamplerate nSampleDepth h0 s ->
  exists s',
    step o s = Some s' /\ kept nSamplerate nSampleDepth h0 s'
    /\ m_nBufferSize (members (this s'))
       = buffer_size (m_nBufferSize (members (this s))) [o]
    /\ (live (heap s') + (if connected s then 2 else 0))%nat
       = (live (heap s) + 2 * reconnects (connected s) [o]
          + (if connected s' then 2 else 0))%nat
    /\ threads (calls s') = (threads (calls s) + connects [o])%nat
    /\ connected s' = match o with
                      | Connect => true
                      | Disconnect => false
                      | _ => connected s
                      end.
Proof.
  destruct s as [[d pl pr] h cs].
  unfold kept, sound, getSampleRate, connected. cbn [this heap calls members m_pOut_L m_pOut_R].
  intros ((Htake & Hptr) & Hrate & Hdepth & Hname).
  assert (Hle : (length h0 <= length h)%nat) by (rewrite <- Htake, length_take; lia).
  destruct o as [n| | |]; cbn [step init connect snd new_array].
  - eexists. split; [reflexivity|].
    cbn [this heap calls members m_pOut_L m_pOut_R set_m_nBufferSize m_nSampleRate
         m_nSampleDepth m_sFilename m_nBufferSize buffer_size reconnects].
    rewrite threads_app. repeat split; try assumption; try lia.
  - eexists. split; [reflexivity|].
    cbn [this heap calls members m_pOut_L m_pOut_R buffer_size reconnects].
    rewrite threads_app, !live_app, !length_app. cbn [length].
    split; [|split; [reflexivity|split; [|split; reflexivity]]].
    + split; [|repeat split; assumption]. split.
      * rewrite <- app_assoc, take_app_le by lia. exact Htake.
      * split; [lia|]. split; [lia|]. split; [lia|].
        exists (m_nBufferSize d). split.
                   -- rewrite lookup_app_l by (rewrite length_app; cbn; lia).
           rewrite lookup_app_r by lia. rewrite Nat.sub_diag. reflexivity.
        -- rewrite lookup_app_r by (rewrite length_app; cbn; lia).
           rewrite length_app. cbn [length].
           replace (length h + 1 - (length h + 1))%nat with 0%nat by lia.
           reflexivity.
    + change (live [{| array_length := m_nBufferSize d; deleted := false |}]) with 1%nat.
      destruct pl; lia.
  - unfold disconnect. cbn [this heap calls members m_pOut_L m_pOut_R].
    destruct pl as [l|]; destruct pr as [r|]; try contradiction.
    + destruct Hptr as (Hne & Hl & Hr & n & Hbl & Hbr).
      rewrite (delete_live _ _ _ Hbl).
      assert (Hbr' : <[ l := {| array_length := n; deleted := true |} ]> h !! r
                     = Some {| array_length := n; deleted := false |})
        by (rewrite list_lookup_insert_ne by exact Hne; exact Hbr).
      rewrite (delete_live _ _ _ Hbr').
      eexists. split; [reflexivity|].
      cbn [this heap calls members m_pOut_L m_pOut_R buffer_size reconnects].
      rewrite threads_app.
      split; [|split; [reflexivity|split; [|split; reflexivity]]].
      * repeat split; try assumption.
        rewrite !take_insert_ge by lia. exact Htake.
      * pose proof (live_delete h l _ Hbl eq_refl) as H1.
        pose proof (live_delete _ r _ Hbr' eq_refl) as H2. cbn in H1, H2. lia.
    + cbn [delete_array]. eexists. split; [reflexivity|].
      cbn [this heap calls members m_pOut_L m_pOut_R buffer_size reconnects].
      rewrite threads_app. repeat split; try assumption; try lia.
  - eexists. split; [reflexivity|].
    cbn [this heap calls members m_pOut_L m_pOut_R buffer_size reconnects].
    repeat split; try assumption; try lia.
    change (connects [GetSampleRate]) with 0%nat. lia.
Qed.

Lemma run_kept (ops : list op) (s : process) :
  kept nSamplerate nSampleDepth h0 s ->
  exists s',
    run ops s = Some s' /\ kept nSamplerate nSampleDepth h0 s'
    /\ m_nBufferSize (members (this s'))
       = buffer_size (m_nBufferSize (members (this s))) ops
    /\ (live (heap s') + (if connected s then 2 else 0))%nat
       = (live (heap s) + 2 * reconnects (connected s) ops
          + (if connected s' then 2 else 0))%nat
    /\ threads (calls s') = (threads (calls s) + connects ops)%nat.
Proof.
  revert s. induction ops as [|o ops IH]; intros s Hs.
  - exists s. cbn. repeat split; try apply Hs; try lia.
  - destruct (step_kept o s Hs) as (s1 & Hstep & Hs1 & Hsize & Hlive & Hthreads & Hconn).
    destruct (IH s1 Hs1) as (s2 & Hrun & Hs2 & Hsize2 & Hlive2 & Hthreads2).
    exists s2. cbn [run]. rewrite Hstep. split; [exact Hrun|]. split; [exact Hs2|].
    split; [|split].
    + rewrite Hsize2, Hsize. destruct o; reflexivity.
    + rewrite Hconn in Hlive2.
      destruct o; cbn [reconnects] in *; rewrite ?Hconn in *; lia.
    + rewrite Hthreads2, Hthreads. unfold connects. destruct o; cbn; lia.
Qed.

End Invariant.

Lemma start_kept nSamplerate nSampleDepth h0 :
  kept nSamplerate nSampleDepth h0 (start nSamplerate nSampleDepth h0).
Proof.
  unfold kept, sound, start, getSampleRate. cbn. repeat split.
  apply firstn_all.
Qed.

End ObjectFacts.
(** * MIDI actions *)

Section MidiFacts.
Import Midi.

Lemma find_None (k : string) (m : list (string * action_f)) :
  find k m = None <-> ~ In k (map fst m).
Proof.
  induction m as [|[k' v] m IH]; cbn; [tauto|].
  destruct (String.eqb_spec k k') as [->|Hne].
  - split; [discriminate|]. intros H. exfalso. apply H. left. reflexivity.
  - rewrite IH. split.
    + intros H [Heq|Hin]; [apply Hne; symmetry; exact Heq|exact (H Hin)].
    + intros H Hin. apply H. right. exact Hin.
Qed.

Lemma find_Some (k : string) (m : list (string * action_f)) :
  In k (map fst m) -> exists action, find k m = Some action.
Proof.
  intros Hin. destruct (find k m) as [action|] eqn:Hf; [eauto|].
  apply find_None in Hf. contradiction.
Qed.

Context {host : Host}.

Lemma bind_ret_l {A B} (a : A) (k : A -> M (host:=host) B) (w : World) :
  bind (ret a) k w = k a w.
Proof. unfold bind, ret. destruct (k a w) as [[cs w'] r]. reflexivity. Qed.

Lemma bind_read {A B} (f : Hydrogen host -> A) (k : A -> M (host:=host) B) (w : World) :
  bind (read f) k w = k (f (hydrogen w)) w.
Proof. unfold bind, read. destruct (k _ w) as [[cs w'] r]. reflexivity. Qed.

Lemma bind_make_call {B} (c : Call host) (k : unit -> M (host:=host) B) (w : World) :
  bind (make_call c) k w
  = let '(cs, w', r) :=
      k tt {| manager := manager w; hydrogen := perform host c (hydrogen w) |} in
    (c :: cs, w', r).
Proof. unfold bind, make_call. destruct (k tt _) as [[cs w'] r]. reflexivity. Qed.

Lemma bind_checked {B} (z : Z) (k : Z -> M (host:=host) B) (w : World) :
  INT_MIN <= z <= INT_MAX -> bind (checked z) k w = k z w.
Proof.
  intros Hz. unfold bind, checked.
  destruct (Z.leb_spec INT_MIN z); [|lia]. destruct (Z.leb_spec z INT_MAX); [|lia].
  cbn. destruct (k z w) as [[cs w'] r]. reflexivity.
Qed.

Lemma bind_assoc {A B C} (m : M (host:=host) A) (f : A -> M B) (g : B -> M C)
    (w : World) :
  bind (bind m f) g w = bind m (fun a => bind (f a) g) w.
Proof.
  unfold bind. destruct (m w) as [[cs w'] [a|]]; [|reflexivity].
  destruct (f a w') as [[cs1 w1] [b|]]; [|reflexivity].
  destruct (g b w1) as [[cs2 w2] r]. rewrite app_assoc. reflexivity.
Qed.

Lemma keeps_ret {A} (a : A) : keeps (host:=host) (ret a).
Proof. intros w. repeat split. Qed.

Lemma keeps_read {A} (f : Hydrogen host -> A) : keeps (host:=host) (read f).
Proof. intros w. repeat split. Qed.

Lemma keeps_make_call (c : Call host) : keeps (host:=host) (make_call c).
Proof. intros w. repeat split. Qed.

Lemma keeps_checked (z : Z) : keeps (host:=host) (checked z).
Proof. intros w. repeat split. Qed.

Lemma keeps_get_last : keeps (host:=host) get_m_nLastBpmChangeCCParameter.
Proof. intros w. repeat split. Qed.

Lemma keeps_set_last (z : Z) : keeps (host:=host) (set_m_nLastBpmChangeCCParameter z).
Proof. intros w. repeat split. Qed.

Lemma keeps_bind {A B} (m : M A) (k : A -> M B) :
  keeps (host:=host) m -> (forall a, keeps (host:=host) (k a)) -> keeps (host:=host) (bind m k).
Proof.
  intros Hm Hk w. specialize (Hm w). unfold bind.
  destruct (m w) as [[cs w'] [a|]]; cbn in *; [|exact Hm].
  specialize (Hk a w'). destruct (k a w') as [[cs' w''] r]. cbn in *.
  destruct Hm as (H1 & H2 & H3). destruct Hk as (K1 & K2 & K3).
  rewrite K1, K2, K3. auto.
Qed.

Lemma succeeds_ret_true : succeeds (host:=host) (ret true).
Proof. intros w. cbn. discriminate. Qed.

Lemma succeeds_bind {A} (m : M A) (k : A -> M bool) :
  (forall a, succeeds (host:=host) (k a)) -> succeeds (host:=host) (bind m k).
Proof.
  intros Hk w. unfold bind. destruct (m w) as [[cs w'] [a|]]; cbn; [|discriminate].
  specialize (Hk a w'). destruct (k a w') as [[cs' w''] r]. exact Hk.
Qed.


Ltac keep :=
  repeat first
    [ apply keeps_ret | apply keeps_read | apply keeps_make_call | apply keeps_checked
    | apply keeps_get_last | apply keeps_set_last
    | apply keeps_bind; [|intros ?]
    | match goal with
      | |- keeps (if ?b then _ else _) => destruct b
      | |- keeps (match ?x with _ => _ end) => destruct x
      end ].

Lemma invoke_keeps (action : action_f) (pAction : Action) :
  keeps (host:=host) (invoke (host:=host) action pAction).
Proof.
  destruct action; cbn [invoke];
    unfold play, play_stop_pause_toggle, stop, pause, record_ready, record_strobe_toggle,
      record_strobe, record_exit, mute, unmute, mute_toggle, strip_mute_toggle,
      strip_solo_toggle, next_bar, previous_bar, bpm_increase, bpm_decrease,
      bpm_cc_relative, bpm_fine_cc_relative, master_volume_relative,
      master_volume_absolute, strip_volume_relative, strip_volume_absolute,
      effect_level_absolute, effect_level_relative, gain_level_absolute,
      pitch_level_absolute, select_next_pattern, select_only_next_pattern,
      select_next_pattern_cc_absolute, select_next_pattern_relative,
      select_and_play_pattern, select_next_pattern, pan_relative, pan_absolute,
      filter_cutoff_level_absolute, beatcounter, tap_tempo, playlist_song,
      playlist_next_song, playlist_previous_song, setSong, toggle_metronome,
      select_instrument, undo_action, redo_action, no_such_pattern;
    keep.
Qed.

Ltac succeed :=
  repeat first
    [ apply succeeds_ret_true
    | apply succeeds_bind; intros ?
    | match goal with
      | |- succeeds (if ?b then _ else _) => destruct b
      | |- succeeds (match ?x with _ => _ end) => destruct x
      end ].

Lemma invoke_succeeds (action : action_f) (pAction : Action) :
  cannot_fail action = true -> succeeds (host:=host) (invoke (host:=host) action pAction).
Proof.
  destruct action; cbn [cannot_fail]; try discriminate; intros _; cbn [invoke];
    unfold play, play_stop_pause_toggle, stop, pause, record_ready, record_strobe_toggle,
      record_strobe, record_exit, mute, unmute, mute_toggle, next_bar, previous_bar,
      bpm_increase, bpm_decrease, bpm_cc_relative, bpm_fine_cc_relative,
      master_volume_relative, master_volume_absolute, effect_level_relative, beatcounter,
      tap_tempo, playlist_song, playlist_next_song, playlist_previous_song, setSong,
      toggle_metronome, select_instrument, undo_action, redo_action;
    succeed.
Qed.

End MidiFacts.

Section MidiRuns.
Import Midi.

Lemma ascending_lookup (l : list string) :
  ascending l = true ->
  forall (i j : nat) k1 k2,
    (i < j)%nat -> l !! i = Some k1 -> l !! j = Some k2 -> String.ltb k1 k2 = true.
Proof.
  induction l as [|k l IH]; intros Hasc i j k1 k2 Hij Hi Hj; [discriminate Hi|].
  cbn [ascending] in Hasc. apply andb_prop in Hasc. destruct Hasc as [Hk Hl].
  destruct j as [|j]; [lia|]. cbn in Hj.
  destruct i as [|i]; cbn in Hi.
  - injection Hi as <-. rewrite forallb_forall in Hk. apply Hk.
    apply list_elem_of_In. eapply list_elem_of_lookup_2. exact Hj.
  - apply (IH Hl i j); [lia|assumption..].
Qed.


Lemma no_such_pattern_run {host : Host} {B} (row : Z) (k : bool -> M (host:=host) B)
    (w : World (host:=host)) :
  0 <= getPatternList_size host (hydrogen w) <= INT_MAX ->
  bind (no_such_pattern row) k w
  = k (negb ((0 <=? row) && (row <? getPatternList_size host (hydrogen w)))) w.
Proof.
  intros Hsize. unfold no_such_pattern.
  unfold bind at 1. unfold bind at 1. unfold read at 1. cbn [hydrogen].
  unfold bind at 1. unfold checked at 1.
  destruct (Z.leb_spec INT_MIN (getPatternList_size host (hydrogen w) - 1));
    [|unfold INT_MIN in *; lia].
  destruct (Z.leb_spec (getPatternList_size host (hydrogen w) - 1) INT_MAX); [|lia].
  cbn [andb]. unfold ret at 1. cbn [app].
  replace ((getPatternList_size host (hydrogen w) - 1 <? row) || (row <? 0))
    with (negb ((0 <=? row) && (row <? getPatternList_size host (hydrogen w)))).
  2:{ destruct (Z.leb_spec 0 row), (Z.ltb_spec row (getPatternList_size host (hydrogen w))),
        (Z.ltb_spec (getPatternList_size host (hydrogen w) - 1) row),
        (Z.ltb_spec row 0); cbn; try reflexivity; lia. }
  destruct (k _ w) as [[cs w'] r]. reflexivity.
Qed.


Lemma bind_get_last {host : Host} {B} (k : Z -> M (host:=host) B) (w : World) :
  bind get_m_nLastBpmChangeCCParameter k w = k (m_nLastBpmChangeCCParameter (manager w)) w.
Proof.
  unfold bind, get_m_nLastBpmChangeCCParameter. destruct (k _ w) as [[cs w'] r].
  reflexivity.
Qed.

Lemma bind_set_last {host : Host} {B} (z : Z) (k : unit -> M (host:=host) B) (w : World) :
  bind (set_m_nLastBpmChangeCCParameter z) k w
  = k tt {| manager := {| m_nLastBpmChangeCCParameter := z;
                          actionMap := actionMap (manager w);
                          actionList := actionList (manager w);
                          eventList := eventList (manager w) |};
            hydrogen := hydrogen w |}.
Proof.
  unfold bind, set_m_nLastBpmChangeCCParameter. destruct (k tt _) as [[cs w'] r].
  reflexivity.
Qed.


Lemma setSong_run {host : Host} (songnumber : Z) (w : World (host:=host)) :
  0 <= Playlist_size host (hydrogen w) <= INT_MAX ->
  setSong songnumber w
  = (if negb (getActiveSongNumber host (hydrogen w) =? songnumber)
        && (0 <=? songnumber) && (songnumber <? Playlist_size host (hydrogen w))
     then ([setNextSongByNumber songnumber],
           {| manager := manager w;
              hydrogen := perform host (setNextSongByNumber songnumber) (hydrogen w) |},
           Some true)
     else ([], w, Some true)).
Proof.
  intros Hsize. unfold setSong. rewrite bind_read.
  destruct (negb (getActiveSongNumber host (hydrogen w) =? songnumber) && (0 <=? songnumber));
    cbn [andb]; [|reflexivity].
  rewrite bind_assoc, bind_read, bind_assoc.
  rewrite bind_checked by (unfold INT_MIN in *; lia).
  destruct (Z.leb_spec songnumber (Playlist_size host (hydrogen w) - 1)),
    (Z.ltb_spec songnumber (Playlist_size host (hydrogen w))); try lia; reflexivity.
Qed.


(** The values [0 .. 127] of a MIDI message. *)
Lemma in_midi_range (P : Z -> bool) :
  forallb P (map Z.of_nat (seq 0 128)) = true ->
  forall n, 0 <= n <= 127 -> P n = true.
Proof.
  intros Hall n Hn. rewrite forallb_forall in Hall. apply Hall.
  apply in_map_iff. exists (Z.to_nat n). split; [lia|].
  apply in_seq. lia.
Qed.

Lemma in_midi_pairs (f : Z -> spec_float) (R : spec_float -> spec_float -> bool) :
  (let L := map (fun i => (i, f i)) (map Z.of_nat (seq 0 128)) in
   forallb (fun p => forallb (fun q => (fst q <? fst p) || R (snd p) (snd q)) L) L)
  = true ->
  forall i j, 0 <= i <= j /\ j <= 127 -> R (f i) (f j) = true.
Proof.
  cbn zeta. intros Hall i j Hij. rewrite forallb_forall in Hall.
  assert (Hin : forall n, 0 <= n <= 127 ->
            In (n, f n) (map (fun i => (i, f i)) (map Z.of_nat (seq 0 128)))).
  { intros n Hn. apply in_map_iff. exists n. split; [reflexivity|].
    apply in_map_iff. exists (Z.to_nat n). split; [lia|]. apply in_seq. lia. }
  pose proof (Hall _ (Hin i ltac:(lia))) as Hrow. rewrite forallb_forall in Hrow.
  pose proof (Hrow _ (Hin j ltac:(lia))) as Hcell. cbn [fst snd] in Hcell.
  destruct (Z.ltb_spec j i); [lia|exact Hcell].
Qed.


End MidiRuns.

(** * The properties *)

Lemma studio_ready : ready_within Scenario.studio 1.
Proof.
  intros n [e f]. unfold result, pull, bind, call_processCallback.
  cbn [engine files processCallback Scenario.studio retry].
  assert (Ho : Nat.even e = true -> Nat.even (S e) = false)
    by (intros He; rewrite Nat.even_succ, <- Nat.negb_even, He; reflexivity).
  destruct (Nat.even e); cbn [Z.eqb]; [|reflexivity].
  unfold bind, call_processCallback.
  cbn [engine files processCallback Scenario.studio].
  rewrite Ho by reflexivity. reflexivity.
Qed.

(** C2. Within a column of [frames] frames and with a buffer of [B > 0]
    frames, the loop runs to its end and its trace is a sequence of chunks
    whose sizes [cs] are [min(B, frames - framesRendered)] each: every chunk
    but the last has size [B], the last has size [frames mod B] or, when
    that is 0, [B], the sizes add up to [frames], and the offsets (the
    frames rendered before each chunk) grow strictly. *)
Theorem chunked_render_loop (env : Env) (k fuel n : nat) (pDriver : DiskWriterDriver)
    (m_file : option SNDFILE) (frames : Z) (pData : list Float.float)
    (w : World env) :
  0 < m_nBufferSize pDriver <= INT_MAX ->
  0 <= frames <= UINT_MAX ->
  ready_within env k -> (k <= fuel)%nat ->
  frames <= Z.of_nat n * m_nBufferSize pDriver ->
  exists (cs : list Z) (ess : list (list event)) w' out,
    render_chunks fuel n pDriver m_file frames 0 pData w = (concat ess, w', Done out)
    /\ Forall2 (chunk_trace m_file) cs ess
    /\ (forall i c, cs !! i = Some c ->
          c = Z.min (m_nBufferSize pDriver) (frames - sum (take i cs)))
    /\ (forall i c, cs !! i = Some c -> (S i < length cs)%nat ->
          c = m_nBufferSize pDriver)
    /\ (0 < frames ->
          last cs = Some (if frames mod m_nBufferSize pDriver =? 0
                          then m_nBufferSize pDriver
                          else frames mod m_nBufferSize pDriver))
    /\ sum cs = frames
    /\ (forall i, (S i <= length cs)%nat -> sum (take i cs) < sum (take (S i) cs)).
Proof.
  intros HB Hf Hready Hk Hn.
  destruct (render_chunks_terminates k fuel n pDriver m_file frames 0 pData w)
    as (es & w' & out & Hrun); try lia; try assumption.
  destruct (render_chunks_done fuel n pDriver m_file frames 0 pData w es w' out)
    as (ess & -> & Hall); try lia; try assumption.
  rewrite Z.sub_0_r in Hall.
  exists (chunk_plan (m_nBufferSize pDriver) frames), ess, w', out.
  split; [exact Hrun|]. split; [exact Hall|].
  split; [apply chunk_plan_min; lia|].
  split; [apply chunk_plan_full; lia|].
  split; [intros; apply chunk_plan_last; lia|].
  split; [apply chunk_plan_sum; lia|].
  apply offsets_increasing, chunk_plan_positive; lia.
Qed.

Lemma chunked_render_loop_witness :
  exists (cs : list Z) (ess : list (list event)) w' out,
    render_chunks 1 3 (Scenario.driver "take.wav" 4 16) (Some 1%nat) 10 0
      (new_pData (env:=Scenario.studio) (Scenario.driver "take.wav" 4 16))
      (Scenario.start 100)
    = (concat ess, w', Done out)
    /\ Forall2 (chunk_trace (Some 1%nat)) cs ess
    /\ (forall i c, cs !! i = Some c -> c = Z.min 4 (10 - sum (take i cs)))
    /\ (forall i c, cs !! i = Some c -> (S i < length cs)%nat -> c = 4)
    /\ (0 < 10 -> last cs = Some (if 10 mod 4 =? 0 then 4 else 10 mod 4))
    /\ sum cs = 10
    /\ (forall i, (S i <= length cs)%nat -> sum (take i cs) < sum (take (S i) cs)).
Proof.
  apply (chunked_render_loop Scenario.studio 1 1 3
           (Scenario.driver "take.wav" 4 16) (Some 1%nat) 10).
  - simpl. unfold INT_MAX. lia.
  - unfold UINT_MAX. lia.
  - exact studio_ready.
  - lia.
  - simpl. lia.
Defined.

Example scenario_A_chunks : chunk_plan 16384 48000 = [16384; 16384; 15232].
Proof. reflexivity. Qed.

(** C4. For a chunk of [usedBuffer] stereo sample pairs the interleaved
    buffer holds [clip (L[i])] at [2i] and [clip (R[i])] at [2i+1] for every
    [i < usedBuffer], whatever it held before; [clip] sends a value above 1
    to 1, a value below -1 to -1 and leaves every value of [-1, 1], the two
    ends included, as it is; and the loop over the chunks is the same for
    every sample depth. *)
Theorem sample_conditioner (pData_L pData_R : nat -> Float.float) (usedBuffer : Z)
    (pData : list Float.float) :
  0 <= usedBuffer <= INT_MAX ->
  2 * usedBuffer <= Z.of_nat (length pData) ->
  (forall i, (i < Z.to_nat usedBuffer)%nat ->
     condition pData_L pData_R usedBuffer pData !! (2 * i)%nat
     = Some (clip (pData_L i))
     /\ condition pData_L pData_R usedBuffer pData !! (2 * i + 1)%nat
        = Some (clip (pData_R i)))
  /\ take (Z.to_nat (2 * usedBuffer)) (condition pData_L pData_R usedBuffer pData)
     = interleaved pData_L pData_R (Z.to_nat usedBuffer)
  /\ (forall x, Float.gtb x (Float.of_int 1) = true -> clip x = Float.of_int 1)
  /\ (forall x, Float.ltb x (Float.of_int (-1)) = true -> clip x = Float.of_int (-1))
  /\ (forall x, Float.leb (Float.of_int (-1)) x = true ->
                Float.leb x (Float.of_int 1) = true -> clip x = x)
  /\ clip (Float.of_int 1) = Float.of_int 1
  /\ clip (Float.of_int (-1)) = Float.of_int (-1)
  /\ (forall (env : Env) fuel n pDriver depth m_file frames frameNumber buffer
             (w : World env),
        render_chunks fuel n (with_depth pDriver depth) m_file frames frameNumber
          buffer w
        = render_chunks fuel n pDriver m_file frames frameNumber buffer w).
Proof.
  intros Hn Hlen.
  split; [apply condition_lookup; assumption|].
  split; [apply take_condition; assumption|].
  split; [exact clip_above|].
  split; [exact clip_below|].
  split; [exact clip_within|].
  split; [reflexivity|].
  split; [reflexivity|].
  intros. apply render_chunks_depth.
Qed.

Lemma sample_conditioner_witness :
  let pData_L := m_pOut_L Scenario.studio 0%nat in
  let pData_R := m_pOut_R Scenario.studio 0%nat in
  let pData := new_pData (env:=Scenario.studio) (Scenario.driver "take.wav" 4 16) in
  (forall i, (i < Z.to_nat 4)%nat ->
     condition pData_L pData_R 4 pData !! (2 * i)%nat = Some (clip (pData_L i))
     /\ condition pData_L pData_R 4 pData !! (2 * i + 1)%nat
        = Some (clip (pData_R i)))
  /\ take (Z.to_nat (2 * 4)) (condition pData_L pData_R 4 pData)
     = interleaved pData_L pData_R (Z.to_nat 4)
  /\ (forall x, Float.gtb x (Float.of_int 1) = true -> clip x = Float.of_int 1)
  /\ (forall x, Float.ltb x (Float.of_int (-1)) = true -> clip x = Float.of_int (-1))
  /\ (forall x, Float.leb (Float.of_int (-1)) x = true ->
                Float.leb x (Float.of_int 1) = true -> clip x = x)
  /\ clip (Float.of_int 1) = Float.of_int 1
  /\ clip (Float.of_int (-1)) = Float.of_int (-1)
  /\ (forall (env : Env) fuel n pDriver depth m_file frames frameNumber buffer
             (w : World env),
        render_chunks fuel n (with_depth pDriver depth) m_file frames frameNumber
          buffer w
        = render_chunks fuel n pDriver m_file frames frameNumber buffer w).
Proof.
  apply (sample_conditioner (m_pOut_L Scenario.studio 0%nat)
           (m_pOut_R Scenario.studio 0%nat) 4
           (new_pData (env:=Scenario.studio) (Scenario.driver "take.wav" 4 16))).
  - unfold INT_MAX. lia.
  - vm_compute. discriminate.
Defined.

Example conditioned_ramp :
  take 8 (condition (m_pOut_L Scenario.studio 0%nat) (m_pOut_R Scenario.studio 0%nat) 4
            (new_pData (env:=Scenario.studio) (Scenario.driver "take.wav" 4 16)))
  = [Float.of_int (-1); Float.of_int 1;
     Float.of_int (-1); Float.div (Float.of_int 3) (Float.of_int 4);
     Float.div (Float.of_int (-1)) (Float.of_int 2);
     Float.div (Float.of_int 1) (Float.of_int 4);
     Float.div (Float.of_int 1) (Float.of_int 2);
     Float.div (Float.of_int (-1)) (Float.of_int 4)].
Proof. vm_compute. reflexivity. Qed.

(** C6. When libsndfile's check rejects the format the thread resolved, the
    thread logs the error and returns at once: its whole trace is the
    initial progress event, the start of the transport and the error line;
    no file is opened, the files are left as they were, and no chunk is
    asked of the engine or written. *)
Theorem format_unsupported (env : Env) (fuel : nat) (pDriver : DiskWriterDriver)
    (pSong : Song) (w : World env) :
  sf_format_check env (sound_info pDriver) = false ->
  let r := diskWriterDriver_thread env fuel pDriver pSong w in
  r = ([EVENT_PROGRESS 0; INFOLOG "DiskWriterDriver thread start"; AudioEngine_play;
        ERRORLOG "Error in soundInfo"],
       {| engine := play env (engine w); files := files w |}, Done tt)
  /\ files (world r) = files w
  /\ pulls (events r) = []
  /\ writes (events r) = []
  /\ (forall path info, ~ In (Sf_open path info) (events r)).
Proof.
  intros H r. unfold r. rewrite (thread_format_unsupported fuel pDriver pSong w H).
  repeat split. intros path info Hin. simpl in Hin.
  repeat (destruct Hin as [Hin|Hin]; [discriminate Hin|]). exact Hin.
Qed.

Lemma format_unsupported_witness :
  let r := diskWriterDriver_thread Scenario.studio 3
             (Scenario.driver "take.flac" 4 32) Scenario.song (Scenario.start 100) in
  r = ([EVENT_PROGRESS 0; INFOLOG "DiskWriterDriver thread start"; AudioEngine_play;
        ERRORLOG "Error in soundInfo"],
       {| engine := play Scenario.studio (engine (Scenario.start 100));
          files := files (Scenario.start 100) |}, Done tt)
  /\ files (world r) = files (Scenario.start 100)
  /\ pulls (events r) = []
  /\ writes (events r) = []
  /\ (forall path info, ~ In (Sf_open path info) (events r)).
Proof.
  apply (format_unsupported Scenario.studio 3 (Scenario.driver "take.flac" 4 32)
           Scenario.song (Scenario.start 100)).
  reflexivity.
Defined.

(** C7 fails on the code: the result of [sf_open] is never looked at. With a
    file that cannot be opened the thread still asks the engine for every
    chunk, hands each to [sf_writef_float] with the null handle, logs a
    write error per chunk and reports progress up to 100. *)
Lemma unopened_file_is_rendered :
  let r := diskWriterDriver_thread Scenario.studio 3
             (Scenario.driver "/readonly/take.wav" 4 16) Scenario.short_song
             (Scenario.start 100) in
  result r = Done tt
  /\ pulls (events r) = [4; 4; 4; 4; 2; 2]
  /\ writes (events r) = [(None, 4); (None, 4); (None, 2)]
  /\ progress_events (events r) = [0; 100]
  /\ length (List.filter is_write_error (events r)) = 3%nat.
Proof. vm_compute. repeat split. Qed.

(** C8. A write that returns another count than the frames asked for is
    logged and changes nothing else: the thread run against a libsndfile
    that reports every chunk as written in full has the same trace but for
    the error lines, the same final state and the same result; and a chunk
    whose write came back short ends normally, its error line last. *)
Theorem short_write_is_logged_and_ignored (env : Env) (fuel : nat)
    (pDriver : DiskWriterDriver) (pSong : Song) (w : World env) :
  let r := diskWriterDriver_thread env fuel pDriver pSong w in
  let r' := diskWriterDriver_thread (always_written env) fuel pDriver pSong w in
  events r' = without_write_errors (events r)
  /\ world r' = world r
  /\ result r' = result r
  /\ (forall m_file usedBuffer pData (w0 : World env) es1 w1,
        pull fuel usedBuffer w0 = (es1, w1, Done tt) ->
        let out := condition (m_pOut_L env (engine w1)) (m_pOut_R env (engine w1))
                     usedBuffer pData in
        let data := take (Z.to_nat (2 * usedBuffer)) out in
        let written := sf_writef_float env m_file data usedBuffer (files w1) in
        render_chunk fuel m_file usedBuffer pData w0
        = (es1 ++ [Sf_writef_float m_file data usedBuffer]
               ++ (if negb (to_int (fst written) =? usedBuffer)
                   then [write_error] else []),
           {| engine := engine w1; files := snd written |},
           Done out)).
Proof.
  intros r r'. destruct (sim_thread env fuel pDriver pSong w) as (He & Hw & Hr).
  split; [exact He|]. split; [exact Hw|]. split; [exact Hr|].
  intros m_file usedBuffer pData w0 es1 w1 Hp.
  rewrite (render_chunk_done _ _ _ _ _ _ _ Hp). reflexivity.
Qed.

Example short_writes_on_a_full_disk :
  let r := diskWriterDriver_thread Scenario.studio 3
             (Scenario.driver "take.wav" 4 16) Scenario.short_song
             (Scenario.start 6) in
  result r = Done tt
  /\ writes (events r) = [(Some 1%nat, 4); (Some 1%nat, 4); (Some 1%nat, 2)]
  /\ fst (files (world r)) = 0
  /\ progress_events (events r) = [0; 100]
  /\ length (List.filter is_write_error (events r)) = 2%nat.
Proof. vm_compute. repeat split. Qed.



(** ** Renders that go through *)

Lemma studio_can_render_song :
  can_render Scenario.studio 1 240 (Scenario.driver "take.wav" 4 16) Scenario.song.
Proof.
  split; [reflexivity|]. split; [simpl; unfold INT_MAX; lia|].
  split; [simpl; unfold INT_MAX; lia|]. split; [exact studio_ready|].
  split; [lia|].
  intros [|[|pos]] pColumn H; simpl in H; try discriminate H;
    injection H as <-; eexists; (split; [vm_compute; reflexivity|simpl; lia]).
Qed.

Lemma studio_can_render_three :
  can_render Scenario.studio 1 3 (Scenario.driver "take.wav" 4 16)
    Scenario.three_columns.
Proof.
  split; [reflexivity|]. split; [simpl; unfold INT_MAX; lia|].
  split; [simpl; unfold INT_MAX; lia|]. split; [exact studio_ready|].
  split; [lia|].
  intros [|[|[|pos]]] pColumn H; simpl in H; try discriminate H;
    injection H as <-; eexists; (split; [vm_compute; reflexivity|simpl; lia]).
Qed.

(** C1, as amended: a render that goes through renders every column of
    the song, in order, an empty one too, each for its own number of
    frames and followed by its progress event. The frames of a column are
    the floor of the binary32 product of the tick size and the length of
    the column, where the tick size is [sampleRate * 60 / (bpm * resolution)]
    in binary32 with the tempo of that column, and the length is that of
    the longest pattern of the column, or [MAX_NOTES] when the column holds
    no pattern. The product is rounded to binary32 before its fraction is
    dropped. *)
Theorem frames_of_a_column (env : Env) (k fuel : nat) (pDriver : DiskWriterDriver)
    (pSong : Song) (w : World env) :
  can_render env k fuel pDriver pSong ->
  0 <= m_nSampleRate pDriver -> 0 <= getResolution pSong ->
  (forall (pos : nat) pColumn,
     patternGroupVector pSong !! pos = Some pColumn ->
     not_negative (getBpmAtColumn pSong (Z.of_nat pos)) = true
     /\ 0 <= pattern_size (env:=env) pColumn) ->
  let m_file := fst (sf_open env (m_sFilename pDriver) (sound_info pDriver) (files w)) in
  exists segs w',
    diskWriterDriver_thread env fuel pDriver pSong w
    = ([EVENT_PROGRESS 0; INFOLOG "DiskWriterDriver thread start"; AudioEngine_play;
        Sf_open (m_sFilename pDriver) (sound_info pDriver)]
         ++ concat segs ++ [Sf_close m_file; INFOLOG "DiskWriterDriver thread end"],
       w', Done tt)
    /\ length segs = length (patternGroupVector pSong)
    /\ forall (pos : nat) pColumn,
         patternGroupVector pSong !! pos = Some pColumn ->
         let len := pattern_size (env:=env) pColumn in
         let ticksize :=
           Float.div (Float.mul (Float.of_int (m_nSampleRate pDriver)) (Float.of_int 60))
             (Float.mul (getBpmAtColumn pSong (Z.of_nat pos))
                (Float.of_int (getResolution pSong))) in
         exists seg frames,
           segs !! pos = Some seg
           /\ (pColumn = [] -> len = MAX_NOTES env)
           /\ (pColumn <> [] -> In len pColumn /\ forall l, In l pColumn -> l <= len)
           /\ (IZR frames <= Float.to_R (Float.mul ticksize (Float.of_int len))
               < IZR frames + 1)%R
           /\ map snd (writes seg) = chunk_plan (m_nBufferSize pDriver) frames
           /\ sum (map snd (writes seg)) = frames
           /\ length (progress_events seg) = 1%nat.
Proof.
  intros Hcan Hrate Hres Hcols m_file.
  destruct (thread_renders env k fuel pDriver pSong w Hcan) as (es & w' & Hrun & Htrace).
  destruct Hcan as (_ & HB & _).
  destruct (columns_trace_segments _ _ _ _ _ _ _ Htrace) as (segs & -> & Hlen & Hsegs).
  exists segs, w'. split; [exact Hrun|]. split; [exact Hlen|].
  intros pos pColumn Hcol len ticksize.
  destruct (Hsegs pos pColumn Hcol) as (seg & frames & p & Hseg & Hframes & _ & Hct).
  destruct (Hcols pos pColumn Hcol) as (Hbpm & Hsize).
  rewrite Z.add_0_l in Hframes.
  pose proof (to_unsigned_range _ _ Hframes) as Hrange.
  destruct (column_trace_projections _ _ _ _ _ (proj1 HB) (proj1 Hrange) Hct)
    as (Hprog & Hsum & _).
  exists seg, frames. split; [exact Hseg|].
  split; [intros ->; reflexivity|].
  split.
  { intros Hne. destruct pColumn as [|q qs]; [contradiction|].
    apply (longest_pattern_length_max q qs). }
  split.
  { apply trunc_is_floor; [|apply to_unsigned_trunc; exact Hframes].
    apply not_negative_mul; [|apply not_negative_of_int; exact Hsize].
    apply (not_negative_computeTickSize _ _ _ Hrate Hres Hbpm). }
  split.
  { rewrite (column_trace_writes _ _ _ _ _ Hct), map_map. cbn. apply map_id. }
  split; [exact Hsum|]. rewrite Hprog. reflexivity.
Qed.

Lemma frames_of_a_column_witness :
  let env := Scenario.studio in
  let pDriver := Scenario.driver "take.wav" 4 16 in
  let pSong := Scenario.song in
  let w := Scenario.start 100 in
  let m_file := fst (sf_open env (m_sFilename pDriver) (sound_info pDriver) (files w)) in
  exists segs w',
    diskWriterDriver_thread env 240 pDriver pSong w
    = ([EVENT_PROGRESS 0; INFOLOG "DiskWriterDriver thread start"; AudioEngine_play;
        Sf_open (m_sFilename pDriver) (sound_info pDriver)]
         ++ concat segs ++ [Sf_close m_file; INFOLOG "DiskWriterDriver thread end"],
       w', Done tt)
    /\ length segs = length (patternGroupVector pSong)
    /\ forall (pos : nat) pColumn,
         patternGroupVector pSong !! pos = Some pColumn ->
         let len := pattern_size (env:=env) pColumn in
         let ticksize :=
           Float.div (Float.mul (Float.of_int (m_nSampleRate pDriver)) (Float.of_int 60))
             (Float.mul (getBpmAtColumn pSong (Z.of_nat pos))
                (Float.of_int (getResolution pSong))) in
         exists seg frames,
           segs !! pos = Some seg
           /\ (pColumn = [] -> len = MAX_NOTES env)
           /\ (pColumn <> [] -> In len pColumn /\ forall l, In l pColumn -> l <= len)
           /\ (IZR frames <= Float.to_R (Float.mul ticksize (Float.of_int len))
               < IZR frames + 1)%R
           /\ map snd (writes seg) = chunk_plan (m_nBufferSize pDriver) frames
           /\ sum (map snd (writes seg)) = frames
           /\ length (progress_events seg) = 1%nat.
Proof.
  apply (frames_of_a_column Scenario.studio 1 240 (Scenario.driver "take.wav" 4 16)
           Scenario.song (Scenario.start 100)).
  - exact studio_can_render_song.
  - vm_compute. discriminate.
  - vm_compute. discriminate.
  - intros [|[|pos]] pColumn H; simpl in H; try discriminate H; injection H as <-;
      (split; [reflexivity|vm_compute; discriminate]).
Defined.

Example scenario_A_frames :
  pattern_length_in_frames (env:=Scenario.studio)
    {| m_nSampleRate := 48000; m_sFilename := "a.wav"; m_nBufferSize := 16384;
       m_nSampleDepth := 16 |}
    Scenario.song 0 [96] = Some 48000
  /\ computeTickSize 48000 (Float.of_int 120) 48 = Float.of_int 500.
Proof. split; vm_compute; reflexivity. Qed.

Example empty_column_is_rendered :
  pattern_length_in_frames (env:=Scenario.studio) (Scenario.driver "take.wav" 4 16)
    Scenario.song 1 [] = Some 960
  /\ map snd (writes (events (diskWriterDriver_thread Scenario.studio 240
                       (Scenario.driver "take.wav" 4 16) Scenario.song
                       (Scenario.start 100))))
     = chunk_plan 4 10 ++ chunk_plan 4 960.
Proof. split; vm_compute; reflexivity. Qed.

(** C1 as stated fails: at 48000 Hz, 43 bpm and 48 ticks per beat a column
    of 192 ticks is rendered for 267907 frames, where the floor of the
    product of the tick size and the length is 267906, for the tick size of
    the thread (a binary32 number) as for the exact quotient: the product is
    267906.98..., which binary32 rounds to 267907. *)
Lemma frames_are_of_the_rounded_product :
  let pDriver := {| m_nSampleRate := 48000; m_sFilename := "take.wav";
                    m_nBufferSize := 16384; m_nSampleDepth := 16 |} in
  let pSong := {| patternGroupVector := [[192]]; getResolution := 48;
                  getBpmAtColumn := fun _ => Float.of_int 43 |} in
  let ticksize := computeTickSize 48000 (Float.of_int 43) 48 in
  pattern_length_in_frames (env:=Scenario.studio) pDriver pSong 0 [192] = Some 267907
  /\ sum (map snd (writes (events (diskWriterDriver_thread Scenario.studio 17 pDriver
                                     pSong (Scenario.start 0)))))
     = 267907
  /\ (IZR 267906 <= Float.to_R ticksize * IZR 192 < IZR 267906 + 1)%R
  /\ (IZR 267906 <= 48000 * 60 / (43 * 48) * 192 < IZR 267906 + 1)%R.
Proof.
  intros pDriver pSong ticksize.
  split; [vm_compute; reflexivity|]. split; [|split].
  - assert (Hcan : can_render Scenario.studio 1 17 pDriver pSong).
    { split; [reflexivity|]. split; [simpl; unfold INT_MAX; lia|].
      split; [simpl; unfold INT_MAX; lia|]. split; [exact studio_ready|].
      split; [lia|].
      intros [|pos] pColumn H; simpl in H; try discriminate H;
        injection H as <-; eexists; (split; [vm_compute; reflexivity|simpl; lia]). }
    destruct (thread_renders _ _ _ _ _ (Scenario.start 0) Hcan)
      as (es & w' & Hrun & Htrace).
    rewrite Hrun. unfold events. cbn [fst]. rewrite !writes_app.
    destruct (columns_trace_writes _ _ _ _ _ _ _ Htrace) as (fs & Hfs & Hw & Hall).
    assert (Hfs' : fs = [267907]) by (vm_compute in Hfs; injection Hfs as <-; reflexivity).
    subst fs. rewrite Hw. cbn [writes flat_map app]. rewrite app_nil_r.
    apply (writes_of_plans _ 16384 [267907]); [lia|exact Hall].
  - assert (H : ticksize = S754_finite false 11430698 (-13)) by (vm_compute; reflexivity).
    rewrite H. unfold Float.to_R. cbn [cond_Zopp].
    change (powerRZ 2 (-13)) with (/ (2 ^ 13))%R.
    lra.
  - lra.
Qed.

(** C5, as amended: a render that goes through pushes 0, then after each
    column [i] of [N] the integral part of [(float)i / (float)N * 100.0]
    (the fraction is dropped, not rounded); every percentage lies between 0
    and 100, the sequence never decreases, and when the song has a column
    its last event is 100. *)
Theorem progress_sequence (env : Env) (k fuel : nat) (pDriver : DiskWriterDriver)
    (pSong : Song) (w : World env) :
  can_render env k fuel pDriver pSong ->
  let N := Z.of_nat (length (patternGroupVector pSong)) in
  exists es w' ps,
    diskWriterDriver_thread env fuel pDriver pSong w = (es, w', Done tt)
    /\ progress_events es = 0 :: ps
    /\ length ps = length (patternGroupVector pSong)
    /\ (forall (i : nat) p, ps !! i = Some p ->
          progress_percent (Z.of_nat i) N = Some p
          /\ exists F, percent_value (Z.of_nat i + 1) N F
                       /\ (IZR p <= F < IZR p + 1)%R)
    /\ (forall (i : nat) p, ps !! i = Some p -> 0 <= p <= 100)
    /\ (forall (i j : nat) p q,
          (i <= j)%nat -> ps !! i = Some p -> ps !! j = Some q -> p <= q)
    /\ (ps <> [] -> last ps = Some 100).
Proof.
  intros Hcan N.
  destruct (thread_progress env k fuel pDriver pSong w Hcan)
    as (es & w' & ps & Hrun & Hps & Hlen & Hat).
  destruct Hcan as (_ & _ & HN & _). fold N in HN, Hat.
  assert (Hlt : forall (i : nat) p, ps !! i = Some p -> 0 <= Z.of_nat i < N).
  { intros i p Hi. apply lookup_lt_Some in Hi. unfold N. lia. }
  exists es, w', ps. split; [exact Hrun|]. split; [exact Hps|]. split; [exact Hlen|].
  split; [|split; [|split]].
  - intros i p Hi. split; [exact (Hat i p Hi)|].
    destruct (progress_percent_floor (Z.of_nat i) N (Hlt i p Hi) HN)
      as (p' & F & Hp' & Hv & HF & _).
    rewrite (Hat i p Hi) in Hp'. injection Hp' as <-. exists F. auto.
  - intros i p Hi.
    exact (progress_percent_range (Z.of_nat i) N p (Hlt i p Hi) HN (Hat i p Hi)).
  - intros i j p q Hij Hi Hj.
    apply (progress_percent_monotone (Z.of_nat i) (Z.of_nat j) N p q);
      [lia|apply (Hlt j q Hj)|exact HN|exact (Hat i p Hi)|exact (Hat j q Hj)].
  - intros Hne. rewrite last_lookup.
    destruct (lookup_lt_is_Some_2 ps (Nat.pred (length ps))) as [p Hp].
    { destruct ps; [contradiction|simpl; lia]. }
    rewrite Hp. f_equal.
    pose proof (Hat _ p Hp) as Hpp.
    assert (HN1 : 1 <= N) by (pose proof (Hlt _ p Hp); lia).
    replace (Z.of_nat (Nat.pred (length ps))) with (N - 1) in Hpp
      by (rewrite Hlen; unfold N; lia).
    rewrite (progress_percent_final N ltac:(lia)) in Hpp. injection Hpp as <-.
    reflexivity.
Qed.

Lemma progress_sequence_witness :
  let env := Scenario.studio in
  let pDriver := Scenario.driver "take.wav" 4 16 in
  let pSong := Scenario.three_columns in
  let N := Z.of_nat (length (patternGroupVector pSong)) in
  exists es w' ps,
    diskWriterDriver_thread env 3 pDriver pSong (Scenario.start 100)
    = (es, w', Done tt)
    /\ progress_events es = 0 :: ps
    /\ length ps = length (patternGroupVector pSong)
    /\ (forall (i : nat) p, ps !! i = Some p ->
          progress_percent (Z.of_nat i) N = Some p
          /\ exists F, percent_value (Z.of_nat i + 1) N F
                       /\ (IZR p <= F < IZR p + 1)%R)
    /\ (forall (i : nat) p, ps !! i = Some p -> 0 <= p <= 100)
    /\ (forall (i j : nat) p q,
          (i <= j)%nat -> ps !! i = Some p -> ps !! j = Some q -> p <= q)
    /\ (ps <> [] -> last ps = Some 100).
Proof.
  exact (progress_sequence Scenario.studio 1 3 (Scenario.driver "take.wav" 4 16)
           Scenario.three_columns (Scenario.start 100) studio_can_render_three).
Defined.

(** C5 as stated fails: after the second of three columns the thread pushes
    66, not [round(100 * 2 / 3) = 67]. *)
Lemma progress_is_not_rounded :
  progress_events
    (events (diskWriterDriver_thread Scenario.studio 3
               (Scenario.driver "take.wav" 4 16) Scenario.three_columns
               (Scenario.start 100)))
  = [0; 33; 66; 100]
  /\ 0 :: map (fun i => spec_percent i 3) [1; 2; 3] = [0; 33; 67; 100].
Proof. split; vm_compute; reflexivity. Qed.

(** C10, as amended: in a render of at most 2^24 columns that goes through,
    every progress event but the last, the first one included, is under
    100; 100 is pushed after the last column and only there. *)
Theorem hundred_only_after_the_last_column (env : Env) (k fuel : nat)
    (pDriver : DiskWriterDriver) (pSong : Song) (w : World env) :
  can_render env k fuel pDriver pSong ->
  1 <= Z.of_nat (length (patternGroupVector pSong)) <= 2 ^ 24 ->
  let N := length (patternGroupVector pSong) in
  exists es w',
    diskWriterDriver_thread env fuel pDriver pSong w = (es, w', Done tt)
    /\ length (progress_events es) = S N
    /\ (forall (j : nat) p,
          progress_events es !! j = Some p -> (j < N)%nat -> p < 100)
    /\ (forall (j : nat), progress_events es !! j = Some 100 -> j = N)
    /\ progress_events es !! N = Some 100.
Proof.
  intros Hcan [H1 H24] N.
  destruct (thread_progress env k fuel pDriver pSong w Hcan)
    as (es & w' & ps & Hrun & Hps & Hlen & Hat).
  fold N in Hlen, Hat, H1, H24.
  assert (Hearly : forall (j : nat) p,
             progress_events es !! j = Some p -> (j < N)%nat -> p < 100).
  { intros [|i] p Hj Hlt; rewrite Hps in Hj; simpl in Hj.
    - injection Hj as <-. lia.
    - apply (progress_percent_early (Z.of_nat i) (Z.of_nat N) p);
        [lia|lia|exact H24|exact (Hat i p Hj)]. }
  exists es, w'. split; [exact Hrun|]. split; [rewrite Hps; simpl; lia|].
  split; [exact Hearly|]. split.
  - intros j Hj. pose proof (lookup_lt_Some _ _ _ Hj) as Hlt.
    rewrite Hps in Hlt. simpl in Hlt.
    destruct (Nat.eq_dec j N) as [Heq|Hne]; [exact Heq|].
    pose proof (Hearly j 100 Hj ltac:(lia)). lia.
  - rewrite Hps. destruct N as [|n] eqn:HN; [lia|]. simpl.
    destruct (lookup_lt_is_Some_2 ps n ltac:(lia)) as [p Hp].
    rewrite Hp. f_equal. pose proof (Hat n p Hp) as Hpp.
    replace (Z.of_nat n) with (Z.of_nat (S n) - 1) in Hpp by lia.
    rewrite (progress_percent_final (Z.of_nat (S n))) in Hpp.
    + injection Hpp as <-. reflexivity.
    + unfold INT_MAX. lia.
Qed.

Lemma hundred_only_after_the_last_column_witness :
  exists es w',
    diskWriterDriver_thread Scenario.studio 3 (Scenario.driver "take.wav" 4 16)
      Scenario.three_columns (Scenario.start 100)
    = (es, w', Done tt)
    /\ length (progress_events es) = 4%nat
    /\ (forall (j : nat) p,
          progress_events es !! j = Some p -> (j < 3)%nat -> p < 100)
    /\ (forall (j : nat), progress_events es !! j = Some 100 -> j = 3%nat)
    /\ progress_events es !! 3%nat = Some 100.
Proof.
  apply (hundred_only_after_the_last_column Scenario.studio 1 3
           (Scenario.driver "take.wav" 4 16) Scenario.three_columns
           (Scenario.start 100) studio_can_render_three).
  split; vm_compute; discriminate.
Defined.

Lemma studio_can_render_many :
  can_render Scenario.studio 1 3 (Scenario.driver "take.wav" 4 16)
    Scenario.many_columns.
Proof.
  split; [reflexivity|]. split; [simpl; unfold INT_MAX; lia|].
  split.
  { unfold Scenario.many_columns. cbn [patternGroupVector].
    rewrite length_replicate. unfold INT_MAX. lia. }
  split; [exact studio_ready|].
  split; [lia|].
  intros pos pColumn H. unfold Scenario.many_columns in H.
  cbn [patternGroupVector] in H.
  apply lookup_replicate in H. destruct H as [-> _].
  exists 5. split; [lazy; reflexivity|simpl; lia].
Qed.

Example float_of_many_columns :
  Float.of_int 16777217 = Float.of_int 16777216
  /\ progress_percent (16777216 - 1) 16777217 = Some 100.
Proof. split; vm_compute; reflexivity. Qed.

(** C10 as stated fails: in a render of 2^24 + 1 columns the last column
    but one already gets 100, since [(float)16777217] is [16777216]. *)
Lemma hundred_before_the_last_column :
  exists es w',
    diskWriterDriver_thread Scenario.studio 3 (Scenario.driver "take.wav" 4 16)
      Scenario.many_columns (Scenario.start 100) = (es, w', Done tt)
    /\ progress_events es !! Z.to_nat 16777216 = Some 100
    /\ (Z.to_nat 16777216
        < length (patternGroupVector Scenario.many_columns))%nat.
Proof.
  destruct (thread_progress Scenario.studio 1 3 (Scenario.driver "take.wav" 4 16)
              Scenario.many_columns (Scenario.start 100) studio_can_render_many)
    as (es & w' & ps & Hrun & Hps & Hlen & Hat).
  assert (HN : length (patternGroupVector Scenario.many_columns)
               = Z.to_nat 16777217).
  { unfold Scenario.many_columns. cbn [patternGroupVector].
    apply length_replicate. }
  rewrite HN in *.
  exists es, w'. split; [exact Hrun|]. split; [|lia].
  rewrite Hps.
  remember (Z.to_nat 16777215) as n eqn:Hn.
  replace (Z.to_nat 16777216) with (S n) by lia.
  change ((0 :: ps) !! S n) with (ps !! n).
  destruct (lookup_lt_is_Some_2 ps n ltac:(lia)) as [p Hp].
  rewrite Hp. f_equal. pose proof (Hat n p Hp) as Hpp.
  replace (Z.of_nat n) with 16777215 in Hpp by lia.
  replace (Z.of_nat (Z.to_nat 16777217)) with 16777217 in Hpp by lia.
  assert (Hc : progress_percent 16777215 16777217 = Some 100)
    by (vm_compute; reflexivity).
  rewrite Hc in Hpp. injection Hpp as <-. reflexivity.
Qed.

(** * More of the thread: what holds in every run *)

(** X1. Whatever the song, the engine and the files, and whether the run
    ends or not, the thread starts the transport once, opens one file at
    most (none when libsndfile rejects the format), right after starting
    the transport, and closes the handle it got exactly when it runs to its
    end on an accepted format; the only thing it does after closing is to
    log its end. *)
Theorem one_file_per_run (env : Env) (fuel : nat) (pDriver : DiskWriterDriver)
    (pSong : Song) (w : World env) :
  0 <= m_nBufferSize pDriver <= INT_MAX ->
  let r := diskWriterDriver_thread env fuel pDriver pSong w in
  let m_file := fst (sf_open env (m_sFilename pDriver) (sound_info pDriver) (files w)) in
  let accepted := sf_format_check env (sound_info pDriver) in
  plays (events r) = 1%nat
  /\ opens (events r)
     = (if accepted then [(m_sFilename pDriver, sound_info pDriver)] else [])
  /\ closes (events r)
     = match result r with
       | Done _ => if accepted then [m_file] else []
       | _ => []
       end
  /\ (forall es1 es2 path info,
        events r = es1 ++ Sf_open path info :: es2 ->
        es1 = [EVENT_PROGRESS 0; INFOLOG "DiskWriterDriver thread start";
               AudioEngine_play])
  /\ (forall es1 es2 h,
        events r = es1 ++ Sf_close h :: es2 ->
        es2 = [INFOLOG "DiskWriterDriver thread end"]).
Proof.
  intros HB r m_file accepted. unfold accepted.
  destruct (sf_format_check env (sound_info pDriver)) eqn:Hfmt.
  - destruct (thread_shape env fuel pDriver pSong w HB Hfmt)
      as (body & tail & Hev & Hbody & Hdone & Hnot).
    fold r in Hev, Hdone, Hnot. fold m_file in Hbody, Hdone.
    destruct (loop_events_calls _ _ _ Hbody) as (Hp & Ho & Hc).
    destruct (loop_events_no_open_close _ _ _ Hbody) as (Hno & Hnc).
    assert (Htail : tail = [] \/ tail = [Sf_close m_file;
                                         INFOLOG "DiskWriterDriver thread end"]).
    { destruct (result r) as [[]| |]; [right; auto|left; apply Hnot; discriminate..]. }
    rewrite Hev. rewrite !plays_app, !opens_app, !closes_app, Hp, Ho, Hc.
    split; [destruct Htail as [-> | ->]; reflexivity|].
    split; [destruct Htail as [-> | ->]; reflexivity|].
    split.
    { destruct (result r) as [[]| |].
      - rewrite Hdone by reflexivity. reflexivity.
      - rewrite Hnot by discriminate. reflexivity.
      - rewrite Hnot by discriminate. reflexivity. }
    split.
    + intros es1 es2 path info Heq.
      change ([EVENT_PROGRESS 0; INFOLOG "DiskWriterDriver thread start"; AudioEngine_play;
               Sf_open (m_sFilename pDriver) (sound_info pDriver)] ++ body ++ tail)
        with ([EVENT_PROGRESS 0; INFOLOG "DiskWriterDriver thread start"; AudioEngine_play]
                ++ Sf_open (m_sFilename pDriver) (sound_info pDriver) :: (body ++ tail))
        in Heq.
      assert (Hrest : forallb (fun e => negb (is_open e)) (body ++ tail) = true)
        by (rewrite forallb_app, Hno; destruct Htail as [-> | ->]; reflexivity).
      destruct (split_at_unique is_open
                  [EVENT_PROGRESS 0; INFOLOG "DiskWriterDriver thread start";
                   AudioEngine_play] (body ++ tail) es1 es2
                  (Sf_open (m_sFilename pDriver) (sound_info pDriver))
                  (Sf_open path info) eq_refl eq_refl eq_refl Hrest Heq)
        as (<- & _). reflexivity.
    + intros es1 es2 h Heq.
      destruct Htail as [-> | ->].
      * exfalso. rewrite app_nil_r in Heq.
        assert (Hf : forallb (fun e => negb (is_close e))
                       ([EVENT_PROGRESS 0; INFOLOG "DiskWriterDriver thread start";
                         AudioEngine_play;
                         Sf_open (m_sFilename pDriver) (sound_info pDriver)] ++ body)
                     = true) by (rewrite forallb_app, Hnc; reflexivity).
        rewrite Heq, forallb_app in Hf. cbn in Hf. rewrite andb_false_r in Hf.
        discriminate.
      * rewrite app_assoc in Heq.
        change (?l ++ [Sf_close m_file; INFOLOG "DiskWriterDriver thread end"])
          with (l ++ Sf_close m_file :: [INFOLOG "DiskWriterDriver thread end"]) in Heq.
        assert (Hfront : forallb (fun e => negb (is_close e))
                           ([EVENT_PROGRESS 0; INFOLOG "DiskWriterDriver thread start";
                             AudioEngine_play;
                             Sf_open (m_sFilename pDriver) (sound_info pDriver)] ++ body)
                         = true) by (rewrite forallb_app, Hnc; reflexivity).
        destruct (split_at_unique is_close _ [INFOLOG "DiskWriterDriver thread end"]
                    es1 es2 (Sf_close m_file) (Sf_close h) Hfront eq_refl eq_refl
                    eq_refl Heq)
          as (_ & _ & <-). reflexivity.
  - unfold r. rewrite (thread_format_unsupported fuel pDriver pSong w Hfmt).
    cbn [events result fst snd]. repeat split.
    + intros es1 es2 path info Heq. exfalso.
      assert (Hf : forallb (fun e => negb (is_open e))
                     [EVENT_PROGRESS 0; INFOLOG "DiskWriterDriver thread start";
                      AudioEngine_play; ERRORLOG "Error in soundInfo"] = true)
        by reflexivity.
      rewrite Heq, forallb_app in Hf. cbn in Hf. rewrite andb_false_r in Hf.
      discriminate.
    + intros es1 es2 h Heq. exfalso.
      assert (Hf : forallb (fun e => negb (is_close e))
                     [EVENT_PROGRESS 0; INFOLOG "DiskWriterDriver thread start";
                      AudioEngine_play; ERRORLOG "Error in soundInfo"] = true)
        by reflexivity.
      rewrite Heq, forallb_app in Hf. cbn in Hf. rewrite andb_false_r in Hf.
      discriminate.
Qed.

Lemma one_file_per_run_witness :
  let r := diskWriterDriver_thread Scenario.studio 3 (Scenario.driver "take.wav" 4 16)
             Scenario.short_song (Scenario.start 100) in
  let m_file :=
    fst (sf_open Scenario.studio "take.wav"
           (sound_info (Scenario.driver "take.wav" 4 16)) (files (Scenario.start 100))) in
  let accepted :=
    sf_format_check Scenario.studio (sound_info (Scenario.driver "take.wav" 4 16)) in
  plays (events r) = 1%nat
  /\ opens (events r)
     = (if accepted then [("take.wav"%string, sound_info (Scenario.driver "take.wav" 4 16))]
        else [])
  /\ closes (events r)
     = match result r with
       | Done _ => if accepted then [m_file] else []
       | _ => []
       end
  /\ (forall es1 es2 path info,
        events r = es1 ++ Sf_open path info :: es2 ->
        es1 = [EVENT_PROGRESS 0; INFOLOG "DiskWriterDriver thread start";
               AudioEngine_play])
  /\ (forall es1 es2 h,
        events r = es1 ++ Sf_close h :: es2 ->
        es2 = [INFOLOG "DiskWriterDriver thread end"]).
Proof.
  apply (one_file_per_run Scenario.studio 3 (Scenario.driver "take.wav" 4 16)
           Scenario.short_song (Scenario.start 100)).
  vm_compute. split; discriminate.
Defined.

(** X2. Every call of [sf_writef_float], in every run, goes to the handle
    [sf_open] returned, asks for a number of frames between 0 and the
    buffer size (above 0 when the buffer size is), and hands over exactly
    two values per frame, none above 1 and none below -1. *)
Theorem written_frames_are_limited (env : Env) (fuel : nat)
    (pDriver : DiskWriterDriver) (pSong : Song) (w : World env) :
  0 <= m_nBufferSize pDriver <= INT_MAX ->
  forall h data n,
    In (Sf_writef_float h data n)
       (events (diskWriterDriver_thread env fuel pDriver pSong w)) ->
    h = fst (sf_open env (m_sFilename pDriver) (sound_info pDriver) (files w))
    /\ 0 <= n <= m_nBufferSize pDriver
    /\ (0 < m_nBufferSize pDriver -> 0 < n)
    /\ Z.of_nat (length data) = 2 * n
    /\ Forall (fun x => in_unit x = true) data.
Proof.
  intros HB h data n Hin.
  destruct (thread_event_cases env fuel pDriver pSong w _ HB Hin) as [Hfix|Hloop].
  - cbn in Hfix. exfalso.
    repeat (destruct Hfix as [Hfix|Hfix]; [discriminate Hfix|]). exact Hfix.
  - exact Hloop.
Qed.

Lemma written_frames_are_limited_witness :
  0 <= 4 <= INT_MAX
  /\ forall h data n,
       In (Sf_writef_float h data n)
          (events (diskWriterDriver_thread Scenario.studio 3
                     (Scenario.driver "take.wav" 4 16) Scenario.short_song
                     (Scenario.start 100))) ->
       h = fst (sf_open Scenario.studio "take.wav"
                  (sound_info (Scenario.driver "take.wav" 4 16))
                  (files (Scenario.start 100)))
       /\ 0 <= n <= 4
       /\ (0 < 4 -> 0 < n)
       /\ Z.of_nat (length data) = 2 * n
       /\ Forall (fun x => in_unit x = true) data.
Proof.
  assert (H : 0 <= 4 <= INT_MAX) by (unfold INT_MAX; lia).
  split; [exact H|].
  exact (written_frames_are_limited Scenario.studio 3 (Scenario.driver "take.wav" 4 16)
           Scenario.short_song (Scenario.start 100) H).
Defined.

Example clipped_writes :
  map (fun e => match e with
                | Sf_writef_float _ data n => (n, forallb in_unit data)
                | _ => (0, true)
                end)
      (List.filter (fun e => match e with Sf_writef_float _ _ _ => true | _ => false end)
         (events (diskWriterDriver_thread Scenario.studio 3
                    (Scenario.driver "take.wav" 4 16) Scenario.short_song
                    (Scenario.start 100))))
  = [(4, true); (4, true); (2, true)].
Proof. vm_compute. reflexivity. Qed.

(** X4. In a render that goes through, the frame counts of the calls of
    [sf_writef_float] are, column after column, the chunks of that column's
    frames: their sum is the sum of the frames of the columns, and the
    number of calls is the sum over the columns of [frames / B] rounded
    up. *)
Theorem frames_written (env : Env) (k fuel : nat) (pDriver : DiskWriterDriver)
    (pSong : Song) (w : World env) :
  can_render env k fuel pDriver pSong ->
  let r := diskWriterDriver_thread env fuel pDriver pSong w in
  let B := m_nBufferSize pDriver in
  exists fs,
    column_frames (env:=env) pDriver pSong 0 (patternGroupVector pSong) = Some fs
    /\ map snd (writes (events r)) = concat (map (chunk_plan B) fs)
    /\ sum (map snd (writes (events r))) = sum fs
    /\ Z.of_nat (length (writes (events r))) = sum (map (fun f => (f + B - 1) / B) fs).
Proof.
  intros Hcan r B.
  destruct (thread_renders env k fuel pDriver pSong w Hcan) as (es & w' & Hrun & Htrace).
  destruct Hcan as (_ & HB & _).
  destruct (columns_trace_writes _ _ _ _ _ _ _ Htrace) as (fs & Hfs & Hw & Hall).
  exists fs. split; [exact Hfs|].
  assert (Hwr : writes (events r)
                = concat (map (fun f => map (fun c => (fst (sf_open env (m_sFilename pDriver)
                                 (sound_info pDriver) (files w)), c))
                                   (chunk_plan B f)) fs)).
  { unfold r. rewrite Hrun. unfold events. cbn [fst].
    rewrite !writes_app, Hw. cbn. rewrite app_nil_r. reflexivity. }
  rewrite Hwr. apply writes_of_plans; [unfold B; lia|exact Hall].
Qed.

Lemma frames_written_witness :
  let r := diskWriterDriver_thread Scenario.studio 3 (Scenario.driver "take.wav" 4 16)
             Scenario.three_columns (Scenario.start 100) in
  exists fs,
    column_frames (env:=Scenario.studio) (Scenario.driver "take.wav" 4 16)
      Scenario.three_columns 0 (patternGroupVector Scenario.three_columns) = Some fs
    /\ map snd (writes (events r)) = concat (map (chunk_plan 4) fs)
    /\ sum (map snd (writes (events r))) = sum fs
    /\ Z.of_nat (length (writes (events r))) = sum (map (fun f => (f + 4 - 1) / 4) fs).
Proof.
  exact (frames_written Scenario.studio 1 3 (Scenario.driver "take.wav" 4 16)
           Scenario.three_columns (Scenario.start 100) studio_can_render_three).
Defined.

Example three_columns_written :
  column_frames (env:=Scenario.studio) (Scenario.driver "take.wav" 4 16)
    Scenario.three_columns 0 (patternGroupVector Scenario.three_columns)
  = Some [10; 5; 10]
  /\ map snd (writes (events (diskWriterDriver_thread Scenario.studio 3
                                (Scenario.driver "take.wav" 4 16)
                                Scenario.three_columns (Scenario.start 100))))
     = [4; 4; 2; 4; 1; 4; 4; 2].
Proof. split; vm_compute; reflexivity. Qed.

(** X5. With a buffer size of 0, the value the constructor leaves until
    [init] is called, a song whose first column has frames is never
    rendered: the thread opens the file and then stays in the loop over the
    chunks of the first column for ever, without a frame written and
    without a percentage pushed after the first 0. *)
Theorem zero_buffer_never_ends (env : Env) (pDriver : DiskWriterDriver)
    (pSong : Song) (w : World env) (pColumn : PatternList) (frames : Z) :
  m_nBufferSize pDriver = 0 ->
  sf_format_check env (sound_info pDriver) = true ->
  Z.of_nat (length (patternGroupVector pSong)) <= INT_MAX ->
  patternGroupVector pSong !! 0%nat = Some pColumn ->
  pattern_length_in_frames (env:=env) pDriver pSong 0 pColumn = Some frames ->
  0 < frames ->
  forall fuel,
    let r := diskWriterDriver_thread env fuel pDriver pSong w in
    result r = OutOfFuel
    /\ progress_events (events r) = [0]
    /\ sum (map snd (writes (events r))) = 0.
Proof.
  intros HB Hfmt HN Hcol Hframes Hpos fuel r.
  pose proof (to_unsigned_range _ _ Hframes) as Hrange.
  destruct (first_column_stuck env fuel pDriver pSong w pColumn frames Hfmt HN Hcol
              Hframes) as [Hr He].
  { apply zero_buffer_spins; [exact HB|lia|lia]. }
  split; [exact Hr|]. unfold r. rewrite He.
  assert (HB0 : 0 <= 0 <= INT_MAX) by (unfold INT_MAX; lia).
  assert (Hlen : Z.of_nat (length (new_pData (env:=env) pDriver)) = 2 * 0).
  { rewrite new_pData_length by (rewrite HB; exact HB0). lia. }
  destruct (render_chunks_chunk_event 0 (fst (sf_open env (m_sFilename pDriver)
               (sound_info pDriver) (files w))) HB0 pDriver HB
              fuel fuel frames 0 (new_pData (env:=env) pDriver)
              {| engine := play env (engine w);
                 files := snd (sf_open env (m_sFilename pDriver) (sound_info pDriver)
                                 (files w)) |}
              ltac:(lia) ltac:(lia) Hlen) as [Hev _].
  split.
  - rewrite progress_events_app, (chunk_events_progress _ _ _ Hev). reflexivity.
  - rewrite writes_app. cbn [writes flat_map app]. clear He.
    induction Hev as [|e es He' _ IH]; [reflexivity|].
    change (e :: es) with ([e] ++ es). rewrite writes_app, map_app, sum_app, IH.
    destruct e; cbn in He'; try contradiction; try reflexivity.
    cbn. lia.
Qed.

Lemma zero_buffer_never_ends_witness :
  0 < 10
  /\ forall fuel,
       let r := diskWriterDriver_thread Scenario.studio fuel
                  (Scenario.driver "take.wav" 0 16) Scenario.short_song
                  (Scenario.start 100) in
       result r = OutOfFuel
       /\ progress_events (events r) = [0]
       /\ sum (map snd (writes (events r))) = 0.
Proof.
  assert (H : 0 < 10) by lia.
  split; [exact H|].
  apply (zero_buffer_never_ends Scenario.studio (Scenario.driver "take.wav" 0 16)
           Scenario.short_song (Scenario.start 100) [2] 10).
  - reflexivity.
  - reflexivity.
  - vm_compute. discriminate.
  - reflexivity.
  - vm_compute. reflexivity.
  - exact H.
Defined.

(** X6. The thread never gives up on the engine: when the callback never
    answers 0, a song whose first column has frames is never rendered; the
    thread repeats the call for the first chunk for ever, writes nothing,
    pushes no percentage after the first 0 and does not close the file. *)
Theorem deaf_engine_never_ends (env : Env) (pDriver : DiskWriterDriver)
    (pSong : Song) (w : World env) (pColumn : PatternList) (frames : Z) :
  never_ready env ->
  sf_format_check env (sound_info pDriver) = true ->
  Z.of_nat (length (patternGroupVector pSong)) <= INT_MAX ->
  patternGroupVector pSong !! 0%nat = Some pColumn ->
  pattern_length_in_frames (env:=env) pDriver pSong 0 pColumn = Some frames ->
  0 < frames ->
  forall fuel,
    let r := diskWriterDriver_thread env fuel pDriver pSong w in
    result r = OutOfFuel
    /\ writes (events r) = []
    /\ progress_events (events r) = [0]
    /\ closes (events r) = [].
Proof.
  intros Hdeaf Hfmt HN Hcol Hframes Hpos fuel r.
  destruct (never_ready_chunks fuel fuel pDriver
              (fst (sf_open env (m_sFilename pDriver) (sound_info pDriver) (files w)))
              frames 0 (new_pData (env:=env) pDriver)
              {| engine := play env (engine w);
                 files := snd (sf_open env (m_sFilename pDriver) (sound_info pDriver)
                                 (files w)) |} Hdeaf Hpos) as [Hstuck Hw].
  destruct (first_column_stuck env fuel pDriver pSong w pColumn frames Hfmt HN Hcol
              Hframes Hstuck) as [Hr He].
  split; [exact Hr|]. unfold r. rewrite He.
  rewrite writes_app, Hw. split; [reflexivity|].
  set (chunks := render_chunks _ _ _ _ _ _ _ _) in *.
  assert (Hshape : exists k c, events chunks = replicate k (ProcessCallback c)).
  { unfold chunks. destruct fuel as [|n]; cbn [render_chunks];
      destruct (Z.ltb_spec 0 frames) as [_|]; try lia; [exists 0%nat, 0; reflexivity|].
    set (c := used_buffer pDriver frames 0).
    rewrite events_bind. unfold render_chunk at 1 2. rewrite events_bind.
    pose proof (never_ready_pull (S n) c
                  {| engine := play env (engine w);
                     files := snd (sf_open env (m_sFilename pDriver) (sound_info pDriver)
                                     (files w)) |} Hdeaf) as Hp.
    destruct (pull (S n) c _) as [[es1 w1] r1] eqn:Hpull.
    unfold result in Hp. cbn in Hp. subst r1.
    destruct (pull_trace _ _ _ _ _ _ Hpull) as (k & -> & _).
    exists (S k), c. unfold bind. rewrite Hpull. cbn. rewrite !app_nil_r. reflexivity. }
  destruct Hshape as (k & c & ->).
  rewrite progress_events_app, closes_app.
  split; cbn -[replicate]; induction k as [|k IH]; cbn; auto.
Qed.

Lemma deaf_engine_never_ends_witness :
  never_ready deaf_studio
  /\ forall fuel,
       let r := diskWriterDriver_thread deaf_studio fuel
                  (Scenario.driver "take.wav" 4 16) Scenario.short_song
                  (Scenario.start 100 : World deaf_studio) in
       result r = OutOfFuel
       /\ writes (events r) = []
       /\ progress_events (events r) = [0]
       /\ closes (events r) = [].
Proof.
  assert (H : never_ready deaf_studio) by (intros n e; cbn; discriminate).
  split; [exact H|].
  apply (deaf_engine_never_ends deaf_studio (Scenario.driver "take.wav" 4 16)
           Scenario.short_song (Scenario.start 100 : World deaf_studio) [2] 10 H).
  - reflexivity.
  - vm_compute. discriminate.
  - reflexivity.
  - vm_compute. reflexivity.
  - lia.
Defined.

(** X7. A song without columns: when libsndfile accepts the format the
    thread opens the file and closes it at once. Nothing is asked of the
    engine, nothing is written, and no percentage but the first 0 is
    pushed: the progress of such a render never reaches 100. *)
Theorem song_without_columns (env : Env) (fuel : nat) (pDriver : DiskWriterDriver)
    (pSong : Song) (w : World env) :
  patternGroupVector pSong = [] ->
  sf_format_check env (sound_info pDriver) = true ->
  let opened := sf_open env (m_sFilename pDriver) (sound_info pDriver) (files w) in
  diskWriterDriver_thread env fuel pDriver pSong w
  = ([EVENT_PROGRESS 0; INFOLOG "DiskWriterDriver thread start"; AudioEngine_play;
      Sf_open (m_sFilename pDriver) (sound_info pDriver);
      Sf_close (fst opened); INFOLOG "DiskWriterDriver thread end"],
     {| engine := play env (engine w);
        files := sf_close env (fst opened) (snd opened) |},
     Done tt).
Proof.
  intros Hempty Hfmt opened. unfold diskWriterDriver_thread.
  rewrite Hfmt, Hempty. cbn [negb length]. change (Z.to_nat (to_int (Z.of_nat 0))) with 0%nat.
  cbn [render_columns].
  unfold bind, emit, call_play, call_sf_open, call_sf_close, ret. cbn [engine files].
  fold opened. destruct opened as [h f]. reflexivity.
Qed.

Lemma song_without_columns_witness :
  let opened := sf_open Scenario.studio "take.wav"
                  (sound_info (Scenario.driver "take.wav" 4 16))
                  (files (Scenario.start 100)) in
  diskWriterDriver_thread Scenario.studio 3 (Scenario.driver "take.wav" 4 16) silence
    (Scenario.start 100)
  = ([EVENT_PROGRESS 0; INFOLOG "DiskWriterDriver thread start"; AudioEngine_play;
      Sf_open "take.wav" (sound_info (Scenario.driver "take.wav" 4 16));
      Sf_close (fst opened); INFOLOG "DiskWriterDriver thread end"],
     {| engine := play Scenario.studio (engine (Scenario.start 100));
        files := sf_close Scenario.studio (fst opened) (snd opened) |},
     Done tt).
Proof.
  apply (song_without_columns Scenario.studio 3 (Scenario.driver "take.wav" 4 16) silence
           (Scenario.start 100)); reflexivity.
Defined.

(** X8. In every run, finished or not, of a song of at most [INT_MAX]
    columns the percentages pushed are 0 and then those of the columns done
    so far, in order: each is the integral part of [fPercent] for its
    column, lies between 0 and 100, and is not below the one before; a run
    that ends on an accepted format has pushed one for every column. *)
Theorem progress_in_every_run (env : Env) (fuel : nat) (pDriver : DiskWriterDriver)
    (pSong : Song) (w : World env) :
  Z.of_nat (length (patternGroupVector pSong)) <= INT_MAX ->
  let r := diskWriterDriver_thread env fuel pDriver pSong w in
  let N := Z.of_nat (length (patternGroupVector pSong)) in
  exists ps,
    progress_events (events r) = 0 :: ps
    /\ (length ps <= length (patternGroupVector pSong))%nat
    /\ (forall (i : nat) p, ps !! i = Some p ->
          progress_percent (Z.of_nat i) N = Some p /\ 0 <= p <= 100)
    /\ (forall (i j : nat) p q,
          (i <= j)%nat -> ps !! i = Some p -> ps !! j = Some q -> p <= q)
    /\ (result r = Done tt -> sf_format_check env (sound_info pDriver) = true ->
        length ps = length (patternGroupVector pSong)).
Proof.
  intros HN r N.
  destruct (thread_progress_every_run env fuel pDriver pSong w HN)
    as (ps & Hps & Hlen & Hat & Hdone & _).
  fold r in Hps, Hdone. fold N in Hat.
  assert (Hlt : forall (i : nat) p, ps !! i = Some p -> 0 <= Z.of_nat i < N).
  { intros i p Hi. apply lookup_lt_Some in Hi. unfold N. lia. }
  exists ps. split; [exact Hps|]. split; [exact Hlen|]. split; [|split].
  - intros i p Hi. split; [exact (Hat i p Hi)|].
    exact (progress_percent_range (Z.of_nat i) N p (Hlt i p Hi) HN (Hat i p Hi)).
  - intros i j p q Hij Hi Hj.
    apply (progress_percent_monotone (Z.of_nat i) (Z.of_nat j) N p q);
      [lia|apply (Hlt j q Hj)|exact HN|exact (Hat i p Hi)|exact (Hat j q Hj)].
  - exact Hdone.
Qed.

Lemma progress_in_every_run_witness :
  let r := diskWriterDriver_thread Scenario.studio 1 (Scenario.driver "take.wav" 4 16)
             Scenario.three_columns (Scenario.start 100) in
  let N := Z.of_nat (length (patternGroupVector Scenario.three_columns)) in
  exists ps,
    progress_events (events r) = 0 :: ps
    /\ (length ps <= length (patternGroupVector Scenario.three_columns))%nat
    /\ (forall (i : nat) p, ps !! i = Some p ->
          progress_percent (Z.of_nat i) N = Some p /\ 0 <= p <= 100)
    /\ (forall (i j : nat) p q,
          (i <= j)%nat -> ps !! i = Some p -> ps !! j = Some q -> p <= q)
    /\ (result r = Done tt ->
        sf_format_check Scenario.studio (sound_info (Scenario.driver "take.wav" 4 16))
        = true ->
        length ps = length (patternGroupVector Scenario.three_columns)).
Proof.
  apply (progress_in_every_run Scenario.studio 1 (Scenario.driver "take.wav" 4 16)
           Scenario.three_columns (Scenario.start 100)).
  vm_compute. discriminate.
Defined.

Example progress_of_a_run_out_of_fuel :
  let r := diskWriterDriver_thread Scenario.studio 2 (Scenario.driver "take.wav" 4 16)
             Scenario.three_columns (Scenario.start 100) in
  result r = OutOfFuel /\ progress_events (events r) = [0].
Proof. vm_compute. split; reflexivity. Qed.

(** X9. The only conversion of the thread that can be undefined is the one
    of line 177: in a song of at most [INT_MAX] columns whose columns all
    have a number of frames that is a value of [unsigned], no run meets an
    undefined conversion. *)
Theorem conversions_are_defined (env : Env) (fuel : nat) (pDriver : DiskWriterDriver)
    (pSong : Song) (w : World env) :
  Z.of_nat (length (patternGroupVector pSong)) <= INT_MAX ->
  (forall (pos : nat) pColumn,
     patternGroupVector pSong !! pos = Some pColumn ->
     pattern_length_in_frames (env:=env) pDriver pSong (Z.of_nat pos) pColumn <> None) ->
  result (diskWriterDriver_thread env fuel pDriver pSong w) <> Undefined.
Proof.
  intros HN Hall Hund.
  destruct (thread_progress_every_run env fuel pDriver pSong w HN)
    as (ps & _ & _ & _ & _ & Hwhy).
  destruct (Hwhy Hund) as (pos & pColumn & Hcol & Hnone).
  exact (Hall pos pColumn Hcol Hnone).
Qed.

Lemma conversions_are_defined_witness :
  result (diskWriterDriver_thread Scenario.studio 3 (Scenario.driver "take.wav" 4 16)
            Scenario.three_columns (Scenario.start 100)) <> Undefined.
Proof.
  apply (conversions_are_defined Scenario.studio 3 (Scenario.driver "take.wav" 4 16)
           Scenario.three_columns (Scenario.start 100)).
  - vm_compute. discriminate.
  - intros [|[|[|pos]]] pColumn H; cbn in H; try discriminate H;
      injection H as <-; vm_compute; discriminate.
Defined.

(** * The driver object: [init], [connect], [disconnect], [getSampleRate] *)

Section ObjectExtras.
Import Object.

Lemma buffer_size_without_init (n : Z) (ops : list op) :
  Forall (fun o => match o with Init _ => False | _ => True end) ops ->
  buffer_size n ops = n.
Proof.
  induction 1 as [|o ops Ho _ IH]; [reflexivity|].
  destruct o; cbn [buffer_size]; [contradiction|exact IH..].
Qed.

(** X10. Whatever calls of [init], [connect], [disconnect] and
    [getSampleRate] are made on a new driver, in any order and number,
    every [delete[]] is defined (no array is deleted twice, none that was
    not allocated), the arrays of the rest of the program are left as they
    were, the driver holds no buffer or two distinct live arrays of one
    length, [getSampleRate] still answers the rate of the constructor, and
    the buffer size is that of the last [init], or 0 without one. *)
Theorem driver_calls_are_defined (nSamplerate nSampleDepth : Z) (h0 : list array)
    (ops : list op) :
  exists s,
    run ops (start nSamplerate nSampleDepth h0) = Some s
    /\ sound h0 s
    /\ getSampleRate s = nSamplerate
    /\ m_nSampleDepth (members (this s)) = nSampleDepth
    /\ m_nBufferSize (members (this s)) = buffer_size 0 ops.
Proof.
  destruct (run_kept nSamplerate nSampleDepth h0 ops (start nSamplerate nSampleDepth h0)
              (start_kept nSamplerate nSampleDepth h0))
    as (s & Hrun & (Hsound & Hrate & Hdepth & _) & Hsize & _).
  exists s. split; [exact Hrun|]. split; [exact Hsound|]. split; [exact Hrate|].
  split; [exact Hdepth|exact Hsize].
Qed.

(** X11. [connect] does not look at the buffers the driver holds: called
    on a driver that holds two, it allocates two more and the old ones are
    never deleted. After any calls the arrays alive are those alive before,
    two for each such call of [connect], and two more while the driver
    holds buffers; and every [connect] starts a thread. *)
Theorem reconnecting_leaks (nSamplerate nSampleDepth : Z) (h0 : list array)
    (ops : list op) :
  exists s,
    run ops (start nSamplerate nSampleDepth h0) = Some s
    /\ live (heap s)
       = (live h0 + 2 * reconnects false ops + (if connected s then 2 else 0))%nat
    /\ threads (calls s) = connects ops.
Proof.
  destruct (run_kept nSamplerate nSampleDepth h0 ops (start nSamplerate nSampleDepth h0)
              (start_kept nSamplerate nSampleDepth h0))
    as (s & Hrun & _ & _ & Hlive & Hthreads).
  exists s. split; [exact Hrun|]. split.
  - change (connected (start nSamplerate nSampleDepth h0)) with false in Hlive.
    change (heap (start nSamplerate nSampleDepth h0)) with h0 in Hlive.
    rewrite Nat.add_0_r in Hlive. exact Hlive.
  - exact Hthreads.
Qed.

Example connect_twice :
  option_map (fun s => (live (heap s), threads (calls s), this s))
    (run [Init 4; Connect; Connect; Disconnect; Disconnect] (start 480 16 []))
  = Some (2%nat, 2%nat,
          {| members := Scenario.driver EmptyString 4 16;
             m_pOut_L := None; m_pOut_R := None |}).
Proof. reflexivity. Qed.

(** X3. The thread that [connect] starts finds two channel buffers of
    [m_nBufferSize] floats each, the buffer size of the last [init], and
    never asks the engine for more frames than that, nor for no frames when
    the size is above 0. This rests on the buffer size the thread reads
    being the one [connect] read: an [init] after [connect] changes
    [m_nBufferSize] and leaves the two buffers as they are. *)
Theorem engine_requests_fit_the_buffers (env : Env) (nSamplerate nSampleDepth : Z)
    (h0 : list array) (ops : list op) :
  let B := buffer_size 0 ops in
  0 <= B <= INT_MAX ->
  exists s l r,
    run (ops ++ [Connect]) (start nSamplerate nSampleDepth h0) = Some s
    /\ threads (calls s) = S (connects ops)
    /\ m_nBufferSize (members (this s)) = B
    /\ m_pOut_L (this s) = Some l /\ m_pOut_R (this s) = Some r /\ l <> r
    /\ heap s !! l = Some {| array_length := B; deleted := false |}
    /\ heap s !! r = Some {| array_length := B; deleted := false |}
    /\ (forall (fuel : nat) (pDriver : DiskWriterDriver) (pSong : Song) (w : World env) n,
          m_nBufferSize pDriver = m_nBufferSize (members (this s)) ->
          In (ProcessCallback n)
             (events (diskWriterDriver_thread env fuel pDriver pSong w)) ->
          0 <= n <= B /\ (0 < B -> 0 < n))
    /\ (forall m, exists s2,
          run (ops ++ [Connect; Init m]) (start nSamplerate nSampleDepth h0) = Some s2
          /\ m_nBufferSize (members (this s2)) = m
          /\ m_pOut_L (this s2) = Some l /\ m_pOut_R (this s2) = Some r
          /\ heap s2 = heap s).
Proof.
  intros B HB.
  destruct (run_kept nSamplerate nSampleDepth h0 ops (start nSamplerate nSampleDepth h0)
              (start_kept nSamplerate nSampleDepth h0))
    as (s1 & Hrun & _ & Hsize & _ & Hthreads).
  change (m_nBufferSize (members (this (start nSamplerate nSampleDepth h0)))) with 0
    in Hsize.
  fold B in Hsize.
  exists (snd (connect s1)), (length (heap s1)), (S (length (heap s1))).
  split; [rewrite run_app, Hrun; reflexivity|].
  destruct s1 as [[d pl pr] h cs].
  cbn [connect new_array snd this heap calls members m_pOut_L m_pOut_R] in *.
  split.
  { rewrite threads_app, Hthreads. cbn. lia. }
  split; [exact Hsize|]. split; [reflexivity|].
  split; [rewrite length_app; cbn [length]; f_equal; lia|].
  split; [lia|]. rewrite Hsize.
  split.
  { rewrite lookup_app_l by (rewrite length_app; cbn; lia).
    rewrite lookup_app_r by lia. rewrite Nat.sub_diag. reflexivity. }
  split.
  { rewrite lookup_app_r by (rewrite length_app; cbn; lia).
    rewrite length_app. cbn [length].
    replace (S (length h) - (length h + 1))%nat with 0%nat by lia. reflexivity. }
  split.
  { intros fuel pDriver pSong w n Hsame Hin.
    assert (HB' : 0 <= m_nBufferSize pDriver <= INT_MAX) by (rewrite Hsame; exact HB).
    rewrite <- Hsame.
    destruct (thread_event_cases env fuel pDriver pSong w _ HB' Hin) as [Hfix|Hloop].
    - cbn in Hfix. exfalso.
      repeat (destruct Hfix as [Hfix|Hfix]; [discriminate Hfix|]). exact Hfix.
    - exact Hloop. }
  intros m. eexists. split.
  { rewrite run_app, Hrun. reflexivity. }
  cbn [connect new_array snd init this heap calls members m_pOut_L m_pOut_R
       set_m_nBufferSize m_nBufferSize].
  split; [reflexivity|]. split; [reflexivity|].
  split; [rewrite length_app; cbn [length]; f_equal; lia|rewrite Hsize; reflexivity].
Qed.

Lemma engine_requests_fit_the_buffers_witness :
  exists s l r,
    run ([Init 4] ++ [Connect]) (start 480 16 []) = Some s
    /\ threads (calls s) = S (connects [Init 4])
    /\ m_nBufferSize (members (this s)) = 4
    /\ m_pOut_L (this s) = Some l /\ m_pOut_R (this s) = Some r /\ l <> r
    /\ heap s !! l = Some {| array_length := 4; deleted := false |}
    /\ heap s !! r = Some {| array_length := 4; deleted := false |}
    /\ (forall (fuel : nat) (pDriver : DiskWriterDriver) (pSong : Song)
               (w : World Scenario.studio) n,
          m_nBufferSize pDriver = m_nBufferSize (members (this s)) ->
          In (ProcessCallback n)
             (events (diskWriterDriver_thread Scenario.studio fuel pDriver pSong w)) ->
          0 <= n <= 4 /\ (0 < 4 -> 0 < n))
    /\ (forall m, exists s2,
          run ([Init 4] ++ [Connect; Init m]) (start 480 16 []) = Some s2
          /\ m_nBufferSize (members (this s2)) = m
          /\ m_pOut_L (this s2) = Some l /\ m_pOut_R (this s2) = Some r
          /\ heap s2 = heap s).
Proof.
  apply (engine_requests_fit_the_buffers Scenario.studio 480 16 [] [Init 4]).
  vm_compute. split; discriminate.
Defined.

Example init_after_connect :
  option_map (fun s => (m_nBufferSize (members (this s)), map array_length (heap s),
                        m_pOut_L (this s), m_pOut_R (this s)))
    (run [Init 4; Connect; Init 1000] (start 480 16 []))
  = Some (1000, [4; 4], Some 0%nat, Some 1%nat)
  /\ pulls (events (diskWriterDriver_thread Scenario.studio 1
                      (Scenario.driver "take.wav" 1000 16) Scenario.short_song
                      (Scenario.start 100)))
     = [10; 10].
Proof. split; vm_compute; reflexivity. Qed.

(** X12. A driver on which [init] was never called has the buffer size 0
    of the constructor, whatever else was called; a thread that finds this
    buffer size never ends on a song whose first column has frames. *)
Theorem connect_without_init_never_ends (env : Env) (nSamplerate nSampleDepth : Z)
    (h0 : list array) (ops : list op) :
  Forall (fun o => match o with Init _ => False | _ => True end) ops ->
  exists s,
    run ops (start nSamplerate nSampleDepth h0) = Some s
    /\ m_nBufferSize (members (this s)) = 0
    /\ forall (pDriver : DiskWriterDriver) (pSong : Song) (w : World env) pColumn frames,
         m_nBufferSize pDriver = m_nBufferSize (members (this s)) ->
         sf_format_check env (sound_info pDriver) = true ->
         Z.of_nat (length (patternGroupVector pSong)) <= INT_MAX ->
         patternGroupVector pSong !! 0%nat = Some pColumn ->
         pattern_length_in_frames (env:=env) pDriver pSong 0 pColumn = Some frames ->
         0 < frames ->
         forall fuel,
           result (diskWriterDriver_thread env fuel pDriver pSong w) = OutOfFuel.
Proof.
  intros Hops.
  destruct (run_kept nSamplerate nSampleDepth h0 ops (start nSamplerate nSampleDepth h0)
              (start_kept nSamplerate nSampleDepth h0))
    as (s & Hrun & _ & Hsize & _).
  rewrite (buffer_size_without_init _ _ Hops) in Hsize. cbn in Hsize.
  exists s. split; [exact Hrun|]. split; [exact Hsize|].
  intros pDriver pSong w pColumn frames HB Hfmt HN Hcol Hframes Hpos fuel.
  rewrite Hsize in HB.
  pose proof (to_unsigned_range _ _ Hframes) as Hrange.
  apply (first_column_stuck env fuel pDriver pSong w pColumn frames Hfmt HN Hcol Hframes).
  apply zero_buffer_spins; [exact HB|lia|lia].
Qed.

Lemma connect_without_init_never_ends_witness :
  exists s,
    run [Connect] (start 480 16 []) = Some s
    /\ m_nBufferSize (members (this s)) = 0
    /\ forall (pDriver : DiskWriterDriver) (pSong : Song) (w : World Scenario.studio)
              pColumn frames,
         m_nBufferSize pDriver = m_nBufferSize (members (this s)) ->
         sf_format_check Scenario.studio (sound_info pDriver) = true ->
         Z.of_nat (length (patternGroupVector pSong)) <= INT_MAX ->
         patternGroupVector pSong !! 0%nat = Some pColumn ->
         pattern_length_in_frames (env:=Scenario.studio) pDriver pSong 0 pColumn
         = Some frames ->
         0 < frames ->
         forall fuel,
           result (diskWriterDriver_thread Scenario.studio fuel pDriver pSong w)
           = OutOfFuel.
Proof.
  apply (connect_without_init_never_ends Scenario.studio 480 16 [] [Connect]).
  repeat constructor.
Defined.

End ObjectExtras.

(** * MIDI actions: the manager and its member functions *)

Section MidiExtras.
Import Midi.

(** X13. The manager the constructor builds and [handleAction] agree: the
    list of action names is an empty name followed by the keys of the
    action map in ascending order (46 entries, none twice); every pair the
    constructor inserts is found again; an action whose type is a key runs
    the member function stored under it, and an action of any other type,
    the empty one included, and a null action are answered [false] with
    nothing called and nothing changed. *)
Theorem listed_actions_are_handled (host : Host) :
  let m := MidiActionManager_MidiActionManager in
  m_nLastBpmChangeCCParameter m = -1
  /\ actionList m = EmptyString :: map fst (actionMap m)
  /\ length (actionList m) = 46%nat
  /\ (forall (i j : nat) k1 k2,
        (i < j)%nat -> actionList m !! i = Some k1 -> actionList m !! j = Some k2 ->
        String.ltb k1 k2 = true)
  /\ (forall k action, In (k, action) insertions -> find k (actionMap m) = Some action)
  /\ (forall (w : World (host:=host)) (pAction : Action),
        actionMap (manager w) = actionMap m ->
        (forall action,
           find (getType pAction) (actionMap m) = Some action ->
           handleAction (Some pAction) w = invoke action pAction w)
        /\ (In (getType pAction) (tail (actionList m)) ->
            exists action, find (getType pAction) (actionMap m) = Some action)
        /\ (~ In (getType pAction) (tail (actionList m)) ->
            handleAction (Some pAction) w = ([], w, Some false)))
  /\ (forall w : World (host:=host), handleAction None w = ([], w, Some false)).
Proof.
  intros m. split; [reflexivity|]. split; [reflexivity|]. split; [reflexivity|].
  split; [apply ascending_lookup; vm_compute; reflexivity|].
  split.
  { intros k action Hin. unfold insertions in Hin.
    repeat (destruct Hin as [Hin|Hin]; [injection Hin as <- <-; vm_compute; reflexivity|]).
    destruct Hin. }
  split; [|reflexivity].
  intros w pAction Hmap. split; [|split].
  - intros action Hfind. unfold handleAction. rewrite Hmap, Hfind. reflexivity.
  - intros Hin. apply find_Some. exact Hin.
  - intros Hnot. unfold handleAction. rewrite Hmap.
    replace (find (getType pAction) (actionMap m)) with (@None action_f);
      [reflexivity|].
    symmetry. apply find_None. exact Hnot.
Qed.

Example handled_on_the_desk :
  handleAction (Some (action "STOP" "0" "0")) at_rest
  = ([sequencer_stop; locateToColumn 0], at_rest, Some true)
  /\ handleAction (Some (action "Stop" "0" "0")) at_rest = ([], at_rest, Some false)
  /\ handleAction (Some (action "" "0" "0")) at_rest = ([], at_rest, Some false)
  /\ find "PLAY/STOP_TOGGLE" MidiActionManager_actionMap
     = find "PLAY/PAUSE_TOGGLE" MidiActionManager_actionMap
  /\ take 3 (actionList MidiActionManager_MidiActionManager)
     = [""; "<<_PREVIOUS_BAR"; ">>_NEXT_BAR"]%string.
Proof. repeat split. Qed.

(** X14. No action changes the action map or the two lists of names, and
    all member functions but the fifteen that look up a strip or a pattern
    ([cannot_fail]) never answer [false], whatever the parameters of the
    action and the state of the program. *)
Theorem handled_actions_keep_the_map (host : Host) (pAction : option Action)
    (w : World (host:=host)) :
  let r := handleAction pAction w in
  actionMap (manager (snd (fst r))) = actionMap (manager w)
  /\ actionList (manager (snd (fst r))) = actionList (manager w)
  /\ eventList (manager (snd (fst r))) = eventList (manager w)
  /\ (forall a action,
        pAction = Some a -> find (getType a) (actionMap (manager w)) = Some action ->
        cannot_fail action = true -> snd r <> Some false).
Proof.
  intros r. unfold r, handleAction.
  destruct pAction as [a|]; [|repeat split; intros ? ? [=]].
  destruct (find (getType a) (actionMap (manager w))) as [action|] eqn:Hfind.
  - destruct (invoke_keeps action a w) as (H1 & H2 & H3).
    split; [exact H1|]. split; [exact H2|]. split; [exact H3|].
    intros a' action' [= <-] Hf Hcan. rewrite Hfind in Hf. injection Hf as <-.
    apply (invoke_succeeds action a Hcan).
  - repeat split. intros a' action' [= <-] Hf. rewrite Hfind in Hf. discriminate Hf.
Qed.

(** X15. An action on a strip whose index is not valid calls nothing and
    changes nothing; the two toggles answer [false], the eight others
    (volume, effect level, pan, gain, pitch, filter cutoff) answer
    [true]. *)
Theorem strip_that_is_not_there (host : Host) (pAction : Action)
    (w : World (host:=host)) :
  is_valid_index host (hydrogen w) (toInt host (getParameter1 pAction)) = false ->
  strip_mute_toggle pAction w = ([], w, Some false)
  /\ strip_solo_toggle pAction w = ([], w, Some false)
  /\ strip_volume_absolute pAction w = ([], w, Some true)
  /\ strip_volume_relative pAction w = ([], w, Some true)
  /\ effect_level_absolute pAction w = ([], w, Some true)
  /\ pan_absolute pAction w = ([], w, Some true)
  /\ pan_relative pAction w = ([], w, Some true)
  /\ gain_level_absolute pAction w = ([], w, Some true)
  /\ pitch_level_absolute pAction w = ([], w, Some true)
  /\ filter_cutoff_level_absolute pAction w = ([], w, Some true).
Proof.
  intros Hinvalid.
  unfold strip_mute_toggle, strip_solo_toggle, strip_volume_absolute,
    strip_volume_relative, effect_level_absolute, pan_absolute, pan_relative,
    gain_level_absolute, pitch_level_absolute, filter_cutoff_level_absolute.
  rewrite !bind_read, !Hinvalid. repeat split.
Qed.

Lemma strip_that_is_not_there_witness :
  let pAction := action "STRIP_MUTE_TOGGLE" "7" "0" in
  strip_mute_toggle pAction at_rest = ([], at_rest, Some false)
  /\ strip_solo_toggle pAction at_rest = ([], at_rest, Some false)
  /\ strip_volume_absolute pAction at_rest = ([], at_rest, Some true)
  /\ strip_volume_relative pAction at_rest = ([], at_rest, Some true)
  /\ effect_level_absolute pAction at_rest = ([], at_rest, Some true)
  /\ pan_absolute pAction at_rest = ([], at_rest, Some true)
  /\ pan_relative pAction at_rest = ([], at_rest, Some true)
  /\ gain_level_absolute pAction at_rest = ([], at_rest, Some true)
  /\ pitch_level_absolute pAction at_rest = ([], at_rest, Some true)
  /\ filter_cutoff_level_absolute pAction at_rest = ([], at_rest, Some true).
Proof.
  apply (strip_that_is_not_there desk (action "STRIP_MUTE_TOGGLE" "7" "0") at_rest).
  reflexivity.
Defined.

(** X16. An action on a strip whose index is valid but holds no instrument
    answers [false]; eight of the ten member functions call nothing before,
    the two pan functions have selected the strip already. *)
Theorem strip_without_instrument (host : Host) (pAction : Action)
    (w : World (host:=host)) :
  let nLine := toInt host (getParameter1 pAction) in
  let selected : Call host := setSelectedInstrumentNumber nLine in
  let w1 : World (host:=host) :=
    {| manager := manager w; hydrogen := perform host selected (hydrogen w) |} in
  is_valid_index host (hydrogen w) nLine = true ->
  get host (hydrogen w) nLine = None ->
  get host (hydrogen w1) nLine = None ->
  strip_mute_toggle pAction w = ([], w, Some false)
  /\ strip_solo_toggle pAction w = ([], w, Some false)
  /\ strip_volume_absolute pAction w = ([], w, Some false)
  /\ strip_volume_relative pAction w = ([], w, Some false)
  /\ effect_level_absolute pAction w = ([], w, Some false)
  /\ gain_level_absolute pAction w = ([], w, Some false)
  /\ pitch_level_absolute pAction w = ([], w, Some false)
  /\ filter_cutoff_level_absolute pAction w = ([], w, Some false)
  /\ pan_absolute pAction w = ([selected], w1, Some false)
  /\ pan_relative pAction w = ([selected], w1, Some false).
Proof.
  intros nLine selected w1 Hvalid Hnull Hnull1.
  unfold strip_mute_toggle, strip_solo_toggle, strip_volume_absolute,
    strip_volume_relative, effect_level_absolute, pan_absolute, pan_relative,
    gain_level_absolute, pitch_level_absolute, filter_cutoff_level_absolute.
  fold nLine. rewrite !bind_read, !Hvalid. rewrite !bind_read, !Hnull.
  rewrite !bind_make_call, !bind_read. cbn [manager hydrogen].
  unfold w1, selected in Hnull1. cbn [hydrogen] in Hnull1. rewrite !Hnull1.
  repeat split.
Qed.

Lemma strip_without_instrument_witness :
  let pAction := action "PAN_ABSOLUTE" "3" "64" in
  let selected : Call desk := setSelectedInstrumentNumber 3 in
  strip_mute_toggle pAction at_rest = ([], at_rest, Some false)
  /\ strip_solo_toggle pAction at_rest = ([], at_rest, Some false)
  /\ strip_volume_absolute pAction at_rest = ([], at_rest, Some false)
  /\ strip_volume_relative pAction at_rest = ([], at_rest, Some false)
  /\ effect_level_absolute pAction at_rest = ([], at_rest, Some false)
  /\ gain_level_absolute pAction at_rest = ([], at_rest, Some false)
  /\ pitch_level_absolute pAction at_rest = ([], at_rest, Some false)
  /\ filter_cutoff_level_absolute pAction at_rest = ([], at_rest, Some false)
  /\ pan_absolute pAction at_rest = ([selected], at_rest, Some false)
  /\ pan_relative pAction at_rest = ([selected], at_rest, Some false).
Proof.
  apply (strip_without_instrument desk (action "PAN_ABSOLUTE" "3" "64") at_rest);
    reflexivity.
Defined.

(** X17. The pattern selection answers [false], with nothing called,
    exactly when the row is not one of [0 .. size - 1]; otherwise it makes
    the one call the pattern mode asks for (or none) and answers [true].
    [select_and_play_pattern] is [select_next_pattern] followed, when that
    answered [true], by [play]. *)
Theorem pattern_selection (host : Host) (pAction : Action) (w : World (host:=host)) :
  let size := getPatternList_size host (hydrogen w) in
  let row := toInt host (getParameter1 pAction) in
  let value := toInt host (getValue pAction) in
  let selected := patternModePlaysSelected host (hydrogen w) in
  let after (c : Call host) : World (host:=host) :=
    {| manager := manager w; hydrogen := perform host c (hydrogen w) |} in
  0 <= size <= INT_MAX ->
  select_next_pattern pAction w
  = (if (0 <=? row) && (row <? size) then
       let c : Call host :=
         if selected then setSelectedPatternNumber row else sequencer_setNextPattern row in
       ([c], after c, Some true)
     else ([], w, Some false))
  /\ select_only_next_pattern pAction w
     = (if (0 <=? row) && (row <? size) then
          if selected then ([], w, Some true)
          else ([sequencer_setOnlyNextPattern row],
                after (sequencer_setOnlyNextPattern row), Some true)
        else ([], w, Some false))
  /\ select_next_pattern_cc_absolute pAction w
     = (if (0 <=? value) && (value <? size) then
          if selected
          then ([setSelectedPatternNumber value], after (setSelectedPatternNumber value),
                Some true)
          else ([], w, Some true)
        else ([], w, Some false))
  /\ select_and_play_pattern pAction w
     = bind (select_next_pattern pAction)
         (fun ok => if ok then play pAction else ret false) w.
Proof.
  intros size row value selected after Hsize.
  split; [|split; [|split]].
  - unfold select_next_pattern. fold row. rewrite (no_such_pattern_run _ _ _ Hsize).
    fold size. destruct ((0 <=? row) && (row <? size)); cbn [negb]; [|reflexivity].
    rewrite bind_read. fold selected. destruct selected; reflexivity.
  - unfold select_only_next_pattern. fold row. rewrite (no_such_pattern_run _ _ _ Hsize).
    fold size. destruct ((0 <=? row) && (row <? size)); cbn [negb]; [|reflexivity].
    rewrite bind_read. fold selected. destruct selected; reflexivity.
  - unfold select_next_pattern_cc_absolute. fold value.
    rewrite (no_such_pattern_run _ _ _ Hsize).
    fold size. destruct ((0 <=? value) && (value <? size)); cbn [negb]; [|reflexivity].
    rewrite bind_read. fold selected. destruct selected; reflexivity.
  - unfold select_and_play_pattern, play, bind.
    destruct (select_next_pattern pAction w) as [[cs w'] [[]|]]; reflexivity.
Qed.

Lemma pattern_selection_witness :
  let pAction := action "SELECT_NEXT_PATTERN" "8" "7" in
  select_next_pattern pAction at_rest = ([], at_rest, Some false)
  /\ select_only_next_pattern pAction at_rest = ([], at_rest, Some false)
  /\ select_next_pattern_cc_absolute pAction at_rest
     = ([setSelectedPatternNumber 7],
        {| manager := manager at_rest;
           hydrogen := perform desk (setSelectedPatternNumber 7) (hydrogen at_rest) |},
        Some true)
  /\ select_and_play_pattern pAction at_rest
     = bind (select_next_pattern pAction)
         (fun ok => if ok then play pAction else ret false) at_rest.
Proof.
  apply (pattern_selection desk (action "SELECT_NEXT_PATTERN" "8" "7") at_rest).
  vm_compute. split; discriminate.
Defined.

(** X18. [select_instrument] always selects: a value above the size of
    the instrument list gives [size - 1], a negative one 0, any other
    itself. The number selected is an index of the list unless the list is
    empty or the value is exactly its size: that value is passed on as it
    is, one past the last instrument. *)
Theorem select_instrument_is_off_by_one (host : Host) (pAction : Action)
    (w : World (host:=host)) :
  let size := getInstrumentList_size host (hydrogen w) in
  let n := toInt host (getValue pAction) in
  let selected := if size <? n then size - 1 else if n <? 0 then 0 else n in
  0 <= size <= INT_MAX ->
  select_instrument pAction w
  = ([setSelectedInstrumentNumber selected],
     {| manager := manager w;
        hydrogen := perform host (setSelectedInstrumentNumber selected) (hydrogen w) |},
     Some true)
  /\ (0 <= selected < size <-> 0 < size /\ n <> size)
  /\ (n = size -> selected = size).
Proof.
  intros size n selected Hsize. split; [|split].
  - unfold select_instrument. fold n. rewrite bind_read. fold size.
    unfold selected. destruct (Z.ltb_spec size n).
    + rewrite bind_assoc, bind_read. fold size.
      rewrite bind_checked by (unfold INT_MIN in *; lia). reflexivity.
    + destruct (Z.ltb_spec n 0); rewrite bind_ret_l; reflexivity.
  - unfold selected. destruct (Z.ltb_spec size n); [lia|].
    destruct (Z.ltb_spec n 0); lia.
  - intros ->. unfold selected. rewrite Z.ltb_irrefl.
    destruct (Z.ltb_spec size 0); lia.
Qed.

Lemma select_instrument_is_off_by_one_witness :
  select_instrument (action "SELECT_INSTRUMENT" "0" "4") at_rest
  = ([setSelectedInstrumentNumber 4],
     {| manager := manager at_rest;
        hydrogen := perform desk (setSelectedInstrumentNumber 4) (hydrogen at_rest) |},
     Some true)
  /\ (0 <= 4 < 4 <-> 0 < 4 /\ 4 <> 4)
  /\ (4 = 4 -> 4 = 4).
Proof.
  apply (select_instrument_is_off_by_one desk (action "SELECT_INSTRUMENT" "0" "4")
           at_rest).
  vm_compute. split; discriminate.
Defined.

(** X19. One message of the tempo controller makes one call of [setBPM]
    at most, between [lock] and [unlock], and leaves the value of the
    message as the last one. The tempo goes down by [mult] when the value
    is not above the last one, or when there is no last one (the first
    message always counts as a step down), and only while the tempo is
    below 300; it goes up by [mult] when the value is above the last one,
    and only while the tempo is above 40. *)
Theorem tempo_controller (host : Host) (pAction : Action) (w : World (host:=host)) :
  let mult := toInt host (getParameter1 pAction) in
  let cc_param := toInt host (getValue pAction) in
  let last := m_nLastBpmChangeCCParameter (manager w) in
  let locked := perform host lock (hydrogen w) in
  let bpm := getBpm host locked in
  let down := (last =? -1) || (cc_param <=? last) in
  let cs : list (Call host) :=
    if down then
      if Float.ltb bpm (Float.of_int 300)
      then [setBPM (fsub bpm (Float.of_int (1 * mult)))] else []
    else
      if Float.gtb bpm (Float.of_int 40)
      then [setBPM (fadd bpm (Float.of_int (1 * mult)))] else [] in
  bpm_cc_relative pAction w
  = ([lock] ++ cs ++ [unlock],
     {| manager := {| m_nLastBpmChangeCCParameter := cc_param;
                      actionMap := actionMap (manager w);
                      actionList := actionList (manager w);
                      eventList := eventList (manager w) |};
        hydrogen := fold_left (fun h c => perform host c h) (cs ++ [unlock]) locked |},
     Some true)
  /\ (length cs <= 1)%nat
  /\ (last = -1 -> down = true).
Proof.
  intros mult cc_param last locked bpm down cs.
  split; [|split].
  2:{ unfold cs. destruct down; [destruct (Float.ltb _ _)|destruct (Float.gtb _ _)];
        cbn; lia. }
  2:{ intros H. unfold down. rewrite H. reflexivity. }
  unfold bpm_cc_relative. fold mult cc_param.
  rewrite bind_make_call. cbn [manager hydrogen]. fold locked.
  rewrite bind_get_last. cbn [manager]. fold last.
  unfold cs, down.
  destruct (Z.eqb_spec last (-1)) as [Hfirst|Hnot].
  - rewrite bind_set_last. cbn [manager hydrogen actionMap actionList eventList
                                  m_nLastBpmChangeCCParameter orb].
    rewrite bind_get_last. cbn [manager m_nLastBpmChangeCCParameter].
    rewrite bind_read. cbn [hydrogen]. fold bpm.
    rewrite Z.leb_refl. cbn [andb].
    destruct (Float.ltb bpm (Float.of_int 300)) eqn:Hlt.
    + rewrite bind_assoc, bind_read. cbn [hydrogen]. fold bpm.
      rewrite bind_make_call. cbn [manager hydrogen].
      rewrite bind_get_last. cbn [manager m_nLastBpmChangeCCParameter].
      rewrite bind_read. cbn [hydrogen]. rewrite Z.ltb_irrefl. cbn [andb].
      rewrite bind_ret_l, bind_set_last. cbn [manager hydrogen actionMap actionList
                                               eventList m_nLastBpmChangeCCParameter].
      rewrite bind_make_call. cbn [manager hydrogen]. reflexivity.
    + rewrite bind_ret_l, bind_get_last. cbn [manager m_nLastBpmChangeCCParameter].
      rewrite bind_read. cbn [hydrogen]. rewrite Z.ltb_irrefl. cbn [andb].
      rewrite bind_ret_l, bind_set_last. cbn [manager hydrogen actionMap actionList
                                               eventList m_nLastBpmChangeCCParameter].
      rewrite bind_make_call. cbn [manager hydrogen]. reflexivity.
  - rewrite bind_ret_l, bind_get_last. cbn [manager orb]. fold last.
    rewrite bind_read. cbn [hydrogen]. fold bpm.
    destruct (Z.leb_spec cc_param last) as [Hle|Hgt]; cbn [andb].
    + assert (Hnlt : (last <? cc_param) = false) by (apply Z.ltb_ge; lia).
      destruct (Float.ltb bpm (Float.of_int 300)) eqn:Hlt.
      * rewrite bind_assoc, bind_read. cbn [hydrogen]. fold bpm.
        rewrite bind_make_call. cbn [manager hydrogen].
        rewrite bind_get_last. cbn [manager]. fold last.
        rewrite bind_read. cbn [hydrogen]. rewrite Hnlt. cbn [andb].
        rewrite bind_ret_l, bind_set_last. cbn [manager hydrogen].
        rewrite bind_make_call. cbn [manager hydrogen]. reflexivity.
      * rewrite bind_ret_l, bind_get_last. cbn [manager]. fold last.
        rewrite bind_read. cbn [hydrogen]. rewrite Hnlt. cbn [andb].
        rewrite bind_ret_l, bind_set_last. cbn [manager hydrogen].
        rewrite bind_make_call. cbn [manager hydrogen]. reflexivity.
    + assert (Hlt' : (last <? cc_param) = true) by (apply Z.ltb_lt; lia).
      rewrite bind_ret_l, bind_get_last. cbn [manager]. fold last.
      rewrite bind_read. cbn [hydrogen]. fold bpm. rewrite Hlt'. cbn [andb].
      destruct (Float.gtb bpm (Float.of_int 40)) eqn:Hgt40.
      * rewrite bind_assoc, bind_read. cbn [hydrogen]. fold bpm.
        rewrite bind_make_call. cbn [manager hydrogen].
        rewrite bind_set_last. cbn [manager hydrogen].
        rewrite bind_make_call. cbn [manager hydrogen]. reflexivity.
      * rewrite bind_ret_l, bind_set_last. cbn [manager hydrogen].
        rewrite bind_make_call. cbn [manager hydrogen]. reflexivity.
Qed.

Example first_message_lowers_the_tempo :
  fst (fst (bpm_cc_relative (action "BPM_CC_RELATIVE" "5" "100") at_rest))
  = [lock; setBPM (Float.of_int 115); unlock]
  /\ fst (fst (bind (bpm_cc_relative (action "BPM_CC_RELATIVE" "5" "100"))
                 (fun _ => bpm_cc_relative (action "BPM_CC_RELATIVE" "5" "101")) at_rest))
     = [lock; setBPM (Float.of_int 115); unlock; lock; setBPM (Float.of_int 120); unlock].
Proof. split; vm_compute; reflexivity. Qed.

(** X20. The play list: [setNextSongByNumber] is called exactly when the
    song asked for is not the active one and is one of [0 .. size - 1];
    the answer is [true] either way. Past the last song and before the
    first, and on the active song itself, nothing is called. *)
Theorem playlist_navigation (host : Host) (pAction : Action) (w : World (host:=host)) :
  let size := Playlist_size host (hydrogen w) in
  let asn := getActiveSongNumber host (hydrogen w) in
  let go (songnumber : Z) : list (Call host) * World (host:=host) * option bool :=
    if negb (asn =? songnumber) && (0 <=? songnumber) && (songnumber <? size)
    then ([setNextSongByNumber songnumber],
          {| manager := manager w;
             hydrogen := perform host (setNextSongByNumber songnumber) (hydrogen w) |},
          Some true)
    else ([], w, Some true) in
  0 <= size <= INT_MAX -> INT_MIN < asn < INT_MAX ->
  playlist_song pAction w = go (toInt host (getParameter1 pAction))
  /\ playlist_next_song pAction w = go (asn + 1)
  /\ playlist_previous_song pAction w = go (asn - 1)
  /\ (asn = size - 1 -> playlist_next_song pAction w = ([], w, Some true))
  /\ (asn = 0 -> playlist_previous_song pAction w = ([], w, Some true))
  /\ (toInt host (getParameter1 pAction) = asn ->
      playlist_song pAction w = ([], w, Some true)).
Proof.
  intros size asn go Hsize Hasn.
  assert (H1 : playlist_song pAction w = go (toInt host (getParameter1 pAction)))
    by (unfold playlist_song; apply setSong_run; exact Hsize).
  assert (H2 : playlist_next_song pAction w = go (asn + 1)).
  { unfold playlist_next_song. rewrite bind_read. fold asn.
    rewrite bind_checked by (unfold INT_MIN, INT_MAX in *; lia).
    apply setSong_run; exact Hsize. }
  assert (H3 : playlist_previous_song pAction w = go (asn - 1)).
  { unfold playlist_previous_song. rewrite bind_read. fold asn.
    rewrite bind_checked by (unfold INT_MIN, INT_MAX in *; lia).
    apply setSong_run; exact Hsize. }
  split; [exact H1|]. split; [exact H2|]. split; [exact H3|].
  split; [|split].
  - intros Hlast. rewrite H2. unfold go.
    destruct (Z.ltb_spec (asn + 1) size); [lia|].
    rewrite andb_false_r. reflexivity.
  - intros Hfirst. rewrite H3. unfold go.
    destruct (Z.leb_spec 0 (asn - 1)); [lia|].
    rewrite andb_false_r. reflexivity.
  - intros Hsame. rewrite H1. unfold go. rewrite Hsame, Z.eqb_refl. reflexivity.
Qed.

Lemma playlist_navigation_witness :
  let pAction := action "PLAYLIST_SONG" "2" "0" in
  let go (songnumber : Z) : list (Call desk) * World (host:=desk) * option bool :=
    if negb (0 =? songnumber) && (0 <=? songnumber) && (songnumber <? 3)
    then ([setNextSongByNumber songnumber],
          {| manager := manager at_rest;
             hydrogen := perform desk (setNextSongByNumber songnumber)
                           (hydrogen at_rest) |},
          Some true)
    else ([], at_rest, Some true) in
  playlist_song pAction at_rest = go 2
  /\ playlist_next_song pAction at_rest = go (0 + 1)
  /\ playlist_previous_song pAction at_rest = go (0 - 1)
  /\ (0 = 3 - 1 -> playlist_next_song pAction at_rest = ([], at_rest, Some true))
  /\ (0 = 0 -> playlist_previous_song pAction at_rest = ([], at_rest, Some true))
  /\ (2 = 0 -> playlist_song pAction at_rest = ([], at_rest, Some true)).
Proof.
  apply (playlist_navigation desk (action "PLAYLIST_SONG" "2" "0") at_rest).
  - vm_compute. split; discriminate.
  - vm_compute. split; reflexivity.
Defined.


(** X21. For the values [0 .. 127] of a MIDI message the master volume is
    set to a level between 0 and 1.5, 0 for the value 0 and exactly 1.5
    for 127, and a higher value never gives a lower level. *)
Theorem absolute_levels (host : Host) (pAction : Action) (w : World (host:=host)) :
  let n := toInt host (getValue pAction) in
  0 <= n <= 127 ->
  exists v,
    master_volume_absolute pAction w
    = ([setVolume v],
       {| manager := manager w; hydrogen := perform host (setVolume v) (hydrogen w) |},
       Some true)
    /\ Float.leb zero v = true /\ Float.leb v d_1_5 = true
    /\ (n = 0 -> v = zero)
    /\ (n = 127 -> v = d_1_5)
    /\ (forall pAction' v',
          n <= toInt host (getValue pAction') <= 127 ->
          fst (fst (master_volume_absolute pAction' w)) = [setVolume v'] ->
          Float.leb v v' = true).
Proof.
  intros n Hn.
  set (level := fun n : Z =>
         if negb (n =? 0) then Float.dmul d_1_5 (Float.to_double (over_127 n)) else zero).
  assert (Hrun : forall a : Action,
             master_volume_absolute a w
             = ([setVolume (level (toInt host (getValue a)))],
                {| manager := manager w;
                   hydrogen := perform host (setVolume (level (toInt host (getValue a))))
                                 (hydrogen w) |},
                Some true)).
  { intros a. unfold master_volume_absolute, level.
    destruct (negb (toInt host (getValue a) =? 0)); reflexivity. }
  exists (level n). split; [apply Hrun|].
  split; [apply (in_midi_range (fun n => Float.leb zero (level n)));
          [vm_compute; reflexivity|exact Hn]|].
  split; [apply (in_midi_range (fun n => Float.leb (level n) d_1_5));
          [vm_compute; reflexivity|exact Hn]|].
  split; [intros H0; fold n in H0 |- *; unfold level; rewrite H0; reflexivity|].
  split; [intros H127; unfold level; rewrite H127; vm_compute; reflexivity|].
  intros a v' Ha Hv'. rewrite Hrun in Hv'. cbn in Hv'. injection Hv' as <-.
  set (n' := toInt host (getValue a)) in *.
  apply (in_midi_pairs level Float.leb); [vm_compute; reflexivity|lia].
Qed.

Lemma absolute_levels_witness :
  exists v,
    master_volume_absolute (action "MASTER_VOLUME_ABSOLUTE" "0" "64") at_rest
    = ([setVolume v],
       {| manager := manager at_rest;
          hydrogen := perform desk (setVolume v) (hydrogen at_rest) |},
       Some true)
    /\ Float.leb zero v = true /\ Float.leb v d_1_5 = true
    /\ (64 = 0 -> v = zero)
    /\ (64 = 127 -> v = d_1_5)
    /\ (forall pAction' v',
          64 <= toInt desk (getValue pAction') <= 127 ->
          fst (fst (master_volume_absolute pAction' at_rest)) = [setVolume v'] ->
          Float.leb v v' = true).
Proof.
  apply (absolute_levels desk (action "MASTER_VOLUME_ABSOLUTE" "0" "64") at_rest).
  vm_compute. split; discriminate.
Defined.

Example levels_beyond_the_range :
  fst (fst (master_volume_absolute (action "MASTER_VOLUME_ABSOLUTE" "0" "254") at_rest))
  = [setVolume (Float.double_of_int 3)].
Proof. vm_compute. reflexivity. Qed.

End MidiExtras.
